(** * The credit metering subsystem of notesandtranslate

    A shallow embedding of [js/creditSecurity.js], [js/creditStorage.js],
    [js/creditManager.js] and [js/creditIntegration.js], and the properties
    of the specification that concern them.

    Conventions of the embedding.
    - JavaScript numbers that the credit code handles are integers; they are
      modelled by [Z]. Fractions, NaN and the infinities are outside the model.
    - An [async] function is a computation in the monad [M] below: it runs
      from its call to its settlement without interleaving (the code has one
      logical stream of control and no claim here depends on interleaving).
    - Everything the browser decides (IndexedDB request outcomes, the clock,
      random words, the user's answers, the behaviour of wrapped application
      functions) is read from scripts held in the environment part of the
      world; cryptographic primitives and JSON are operations of the class
      [Platform].

    The first part of the file is the embedding, module by module in the
    order of the sources; the second part states and proves the properties,
    each under the number it has in the list of claims (C1 to C10); the
    last part proves further properties of the same code (X1 onwards). *)

From Stdlib Require Import ZArith String Ascii List Bool Lia.
From stdpp Require Import gmap strings pretty sorting.
Import ListNotations.

Set Warnings "-register-all".

Local Open Scope string_scope.
Local Open Scope list_scope.
Local Open Scope Z_scope.

(* ===================================================================== *)
(** ** JavaScript values, exceptions and string primitives *)
(* ===================================================================== *)

Module Js.

(** The values that can be stored in IndexedDB or produced by [JSON.parse],
    as far as the credit code looks inside them. *)
Inductive jsval : Type :=
| JUndefined
| JNull
| JBool (b : bool)
| JNum (n : Z)
| JStr (s : string)
| JArr (elems : list jsval)
| JObj (fields : list (string * jsval)).

(** A thrown value: an [Error]-like object with its [name] and [message],
    or the bare [undefined] that [reject()] without argument produces. *)
Inductive exn : Type :=
| Exn (name message : string)
| ExnUndefined.

Definition Error (msg : string) : exn := Exn "Error" msg.
Definition TypeError (msg : string) : exn := Exn "TypeError" msg.
Definition RangeError (msg : string) : exn := Exn "RangeError" msg.

(** [error.message]; reading it off [undefined] is itself a TypeError. *)
Definition message (e : exn) : string + exn :=
  match e with
  | Exn _ m => inl m
  | ExnUndefined =>
      inr (TypeError "Cannot read properties of undefined (reading 'message')")
  end.

(** How a promise ends: fulfilled, rejected, or never settled. *)
Inductive outcome (A : Type) : Type :=
| Ok (a : A)
| Throw (e : exn)
| Pending.
Arguments Ok {A} a.
Arguments Throw {A} e.
Arguments Pending {A}.

(** ToBoolean. *)
Definition truthy (v : jsval) : bool :=
  match v with
  | JUndefined | JNull => false
  | JBool b => b
  | JNum n => negb (n =? 0)
  | JStr s => negb (String.eqb s "")
  | JArr _ | JObj _ => true
  end.

Fixpoint assoc (k : string) (fields : list (string * jsval)) : option jsval :=
  match fields with
  | [] => None
  | (k', v) :: rest => if String.eqb k k' then Some v else assoc k rest
  end.

(** [o.k] on a value that is neither [undefined] nor [null]: own data
    properties of objects, [undefined] for everything else. *)
Definition prop (k : string) (v : jsval) : jsval :=
  match v with
  | JObj fields => match assoc k fields with Some x => x | None => JUndefined end
  | _ => JUndefined
  end.

(** [o.k] as an expression: property access on [undefined] or [null] throws. *)
Definition get (k : string) (v : jsval) : outcome jsval :=
  match v with
  | JUndefined =>
      Throw (TypeError ("Cannot read properties of undefined (reading '" +:+ k +:+ "')"))
  | JNull =>
      Throw (TypeError ("Cannot read properties of null (reading '" +:+ k +:+ "')"))
  | _ => Ok (prop k v)
  end.

(** [o.k = v] on an object literal: an existing key keeps its place. *)
Fixpoint set_field (k : string) (v : jsval) (fields : list (string * jsval))
  : list (string * jsval) :=
  match fields with
  | [] => [(k, v)]
  | (k', v') :: rest =>
      if String.eqb k k' then (k, v) :: rest else (k', v') :: set_field k v rest
  end.

Definition set_prop (k : string) (v : jsval) (o : jsval) : jsval :=
  match o with
  | JObj fields => JObj (set_field k v fields)
  | _ => o
  end.

(** [{...a, k1: v1, ...}]: spreading a non-object contributes nothing. *)
Definition spread (v : jsval) : list (string * jsval) :=
  match v with
  | JObj fields => fields
  | _ => []
  end.

Definition assign (base : list (string * jsval)) (extra : list (string * jsval))
  : list (string * jsval) :=
  fold_left (fun acc kv => set_field (fst kv) (snd kv) acc) extra base.

(** *** Strings *)

Definition is_lower (c : ascii) : bool :=
  (97 <=? Z.of_N (N_of_ascii c)) && (Z.of_N (N_of_ascii c) <=? 122).

(** [toUpperCase] on the ASCII range, which is the range of every string
    the code applies it to that matters here (hexadecimal codes). *)
Definition upper_ascii (c : ascii) : ascii :=
  if is_lower c then ascii_of_N (N_of_ascii c - 32) else c.

Fixpoint toUpperCase (s : string) : string :=
  match s with
  | EmptyString => EmptyString
  | String c rest => String (upper_ascii c) (toUpperCase rest)
  end.

(** [s.substring(0, n)] *)
Fixpoint take (n : nat) (s : string) : string :=
  match n, s with
  | O, _ => EmptyString
  | S n', String c rest => String c (take n' rest)
  | S _, EmptyString => EmptyString
  end.

Fixpoint zeros (n : nat) : string :=
  match n with
  | O => EmptyString
  | S n' => String "0" (zeros n')
  end.

(** [s.padStart(width, '0')] *)
Definition padStart0 (width : nat) (s : string) : string :=
  zeros (width - String.length s) +:+ s.

Definition hex_digit (d : Z) : ascii :=
  nth (Z.to_nat d) (list_ascii_of_string "0123456789abcdef") "0"%char.

Fixpoint toString16_go (fuel : nat) (n : Z) (acc : string) : string :=
  match fuel with
  | O => acc
  | S fuel' =>
      let acc' := String (hex_digit (n mod 16)) acc in
      if n / 16 =? 0 then acc' else toString16_go fuel' (n / 16) acc'
  end.

(** [n.toString(16)] for a non-negative integer [n]. *)
Definition toString16 (n : Z) : string :=
  toString16_go (S (Z.to_nat (Z.log2 n))) n EmptyString.

Fixpoint prefix (p s : string) : bool :=
  match p, s with
  | EmptyString, _ => true
  | String a p', String b s' => Ascii.eqb a b && prefix p' s'
  | String _ _, EmptyString => false
  end.

(** [s.includes(sub)] *)
Fixpoint includes (s sub : string) : bool :=
  prefix sub s ||
  match s with
  | EmptyString => false
  | String _ rest => includes rest sub
  end.

Fixpoint string_forallb (p : ascii -> bool) (s : string) : bool :=
  match s with
  | EmptyString => true
  | String c rest => p c && string_forallb p rest
  end.

(** The character class [[A-F0-9]]. *)
Definition is_AF09 (c : ascii) : bool :=
  let n := Z.of_N (N_of_ascii c) in
  ((48 <=? n) && (n <=? 57)) || ((65 <=? n) && (n <=? 70)).

(** The character class [[a-f0-9]], what [toString(16)] emits. *)
Definition is_af09 (c : ascii) : bool :=
  let n := Z.of_N (N_of_ascii c) in
  ((48 <=? n) && (n <=? 57)) || ((97 <=? n) && (n <=? 102)).

(** [/^[A-F0-9]{16}$/.test(s)] *)
Definition matches_backup_code (s : string) : bool :=
  (String.length s =? 16)%nat && string_forallb is_AF09 s.

(** [`${n}`] for an integer. *)
Definition show (n : Z) : string := pretty n.

End Js.
Import Js.

(* ===================================================================== *)
(** ** The platform: primitives the code calls but does not define *)
(* ===================================================================== *)

(** Byte strings are lists of integers; a typed-array view wraps each
    element into its width. *)
Definition wrap8 (n : Z) : Z := n mod 256.
Definition wrap32 (n : Z) : Z := n mod 4294967296.

(** Web Crypto, the text codecs and JSON. [aes_gcm_decrypt] and [JSON_parse]
    answer [None] where the browser throws (OperationError, SyntaxError).
    [typed_array_coerce] is what [new Uint8Array(v)] does for the shapes of
    [v] whose conversion runs through string parsing or object coercion;
    [toISOString] prints an instant as [Date.prototype.toISOString] does. *)
Class Platform : Type := {
  sha256 : list Z -> list Z;
  utf8_encode : string -> list Z;
  utf8_decode : list Z -> string;
  pbkdf2_aes_key : list Z -> list Z -> Z -> Z -> list Z;
  aes_gcm_encrypt : list Z -> list Z -> list Z -> list Z;
  aes_gcm_decrypt : list Z -> list Z -> list Z -> option (list Z);
  JSON_stringify : jsval -> string;
  JSON_parse : string -> option jsval;
  typed_array_coerce : jsval -> outcome (list Z);
  toISOString : Z -> string
}.

(* ===================================================================== *)
(** ** The world: objects of the program, the database, the environment *)
(* ===================================================================== *)

(** What [generateDeviceFingerprint] reads from the browser; [canvasDataURL]
    is [None] when the canvas calls throw. *)
Record DeviceSignals : Type := {
  screen_width : Z;
  screen_height : Z;
  screen_colorDepth : Z;
  timeZone : string;
  language : string;
  platform : string;
  userAgent : string;
  canvasDataURL : option string
}.

(** Scripts of what the browser, the user and the application will answer,
    consumed from the head. An exhausted script answers with the default
    written at its reader below. *)
Record Env : Type := {
  device : DeviceSignals;
  io : list bool;                 (* IndexedDB requests: [true] = onsuccess *)
  clock : list Z;                 (* Date.now() *)
  rng : list Z;                   (* crypto.getRandomValues *)
  confirms : list (outcome bool); (* the user's answer to a cost preview *)
  calls : list (outcome jsval);   (* invocations of a wrapped function *)
  persist : option (outcome bool) (* navigator.storage.persist(), if present *)
}.

(** An instance of [CreditSecurity]: its two caches. *)
Record Security : Type := {
  cryptoKey : option (list Z);
  sec_deviceFingerprint : option string
}.

(** An instance of [CreditStorage]: [db] is the open handle or null. *)
Record Storage : Type := {
  db : bool;
  st_security : Security
}.

(** A registered balance listener: external code, known by its identity.
    What it throws is caught and logged by [notifyBalanceChange], so a call
    leaves no other trace than having been made. *)
Record Listener : Type := {
  listener_id : nat
}.

(** The [CreditManager] instance. *)
Record Manager : Type := {
  storage : Storage;
  security : Security;
  currentBalance : Z;
  deviceFingerprint : option string;
  isInitialized : bool;
  balanceChangeListeners : list Listener
}.

(** Records of the object stores. A store with a key path is a map from
    the value at the key path to the rest of the record: [credits] maps
    [id], [backupCodes] maps [code]. *)
Record CreditRecord : Type := {
  cr_data : jsval;
  cr_deviceFingerprint : option string;
  cr_timestamp : Z
}.

Record Transaction : Type := {
  tx_id : Z;
  tx_type : string;
  tx_amount : Z;
  tx_operation : string;
  tx_metadata : jsval;
  tx_timestamp : Z;
  tx_deviceFingerprint : string
}.

Record BackupCode : Type := {
  bc_created : Z;
  bc_used : bool;
  bc_usedAt : option Z
}.

(** The IndexedDB database [VoiceNotesCreditsDB]: its four object stores
    and the key generator of [transactions]. *)
Record Database : Type := {
  credits : gmap string CreditRecord;
  transactions : list Transaction;
  next_tx_id : Z;
  creditSettings : gmap string jsval;
  backupCodes : gmap string BackupCode
}.

Inductive UiEvent : Type :=
| PurchaseModalShown
| Notified (listener : nat) (balance : Z).

Record World : Type := {
  manager : Manager;
  disk : Database;
  env : Env;
  ui : list UiEvent
}.

(** *** Field updates *)

Definition set_cryptoKey (k : option (list Z)) (s : Security) : Security :=
  {| cryptoKey := k; sec_deviceFingerprint := sec_deviceFingerprint s |}.
Definition set_sec_deviceFingerprint (f : option string) (s : Security) : Security :=
  {| cryptoKey := cryptoKey s; sec_deviceFingerprint := f |}.

Definition set_db (b : bool) (s : Storage) : Storage :=
  {| db := b; st_security := st_security s |}.
Definition set_st_security (x : Security) (s : Storage) : Storage :=
  {| db := db s; st_security := x |}.

Definition set_storage (x : Storage) (m : Manager) : Manager :=
  {| storage := x; security := security m; currentBalance := currentBalance m;
     deviceFingerprint := deviceFingerprint m; isInitialized := isInitialized m;
     balanceChangeListeners := balanceChangeListeners m |}.
Definition set_security (x : Security) (m : Manager) : Manager :=
  {| storage := storage m; security := x; currentBalance := currentBalance m;
     deviceFingerprint := deviceFingerprint m; isInitialized := isInitialized m;
     balanceChangeListeners := balanceChangeListeners m |}.
Definition set_currentBalance (x : Z) (m : Manager) : Manager :=
  {| storage := storage m; security := security m; currentBalance := x;
     deviceFingerprint := deviceFingerprint m; isInitialized := isInitialized m;
     balanceChangeListeners := balanceChangeListeners m |}.
Definition set_deviceFingerprint (x : option string) (m : Manager) : Manager :=
  {| storage := storage m; security := security m; currentBalance := currentBalance m;
     deviceFingerprint := x; isInitialized := isInitialized m;
     balanceChangeListeners := balanceChangeListeners m |}.
Definition set_isInitialized (x : bool) (m : Manager) : Manager :=
  {| storage := storage m; security := security m; currentBalance := currentBalance m;
     deviceFingerprint := deviceFingerprint m; isInitialized := x;
     balanceChangeListeners := balanceChangeListeners m |}.
Definition set_listeners (x : list Listener) (m : Manager) : Manager :=
  {| storage := storage m; security := security m; currentBalance := currentBalance m;
     deviceFingerprint := deviceFingerprint m; isInitialized := isInitialized m;
     balanceChangeListeners := x |}.

Definition set_credits (x : gmap string CreditRecord) (d : Database) : Database :=
  {| credits := x; transactions := transactions d; next_tx_id := next_tx_id d;
     creditSettings := creditSettings d; backupCodes := backupCodes d |}.
Definition set_transactions (x : list Transaction) (n : Z) (d : Database) : Database :=
  {| credits := credits d; transactions := x; next_tx_id := n;
     creditSettings := creditSettings d; backupCodes := backupCodes d |}.
Definition set_creditSettings (x : gmap string jsval) (d : Database) : Database :=
  {| credits := credits d; transactions := transactions d; next_tx_id := next_tx_id d;
     creditSettings := x; backupCodes := backupCodes d |}.
Definition set_backupCodes (x : gmap string BackupCode) (d : Database) : Database :=
  {| credits := credits d; transactions := transactions d; next_tx_id := next_tx_id d;
     creditSettings := creditSettings d; backupCodes := x |}.

Definition set_io (x : list bool) (e : Env) : Env :=
  {| device := device e; io := x; clock := clock e; rng := rng e;
     confirms := confirms e; calls := calls e; persist := persist e |}.
Definition set_clock (x : list Z) (e : Env) : Env :=
  {| device := device e; io := io e; clock := x; rng := rng e;
     confirms := confirms e; calls := calls e; persist := persist e |}.
Definition set_rng (x : list Z) (e : Env) : Env :=
  {| device := device e; io := io e; clock := clock e; rng := x;
     confirms := confirms e; calls := calls e; persist := persist e |}.
Definition set_confirms (x : list (outcome bool)) (e : Env) : Env :=
  {| device := device e; io := io e; clock := clock e; rng := rng e;
     confirms := x; calls := calls e; persist := persist e |}.
Definition set_calls (x : list (outcome jsval)) (e : Env) : Env :=
  {| device := device e; io := io e; clock := clock e; rng := rng e;
     confirms := confirms e; calls := x; persist := persist e |}.

Definition set_manager (x : Manager) (w : World) : World :=
  {| manager := x; disk := disk w; env := env w; ui := ui w |}.
Definition set_disk (x : Database) (w : World) : World :=
  {| manager := manager w; disk := x; env := env w; ui := ui w |}.
Definition set_env (x : Env) (w : World) : World :=
  {| manager := manager w; disk := disk w; env := x; ui := ui w |}.
Definition set_ui (x : list UiEvent) (w : World) : World :=
  {| manager := manager w; disk := disk w; env := env w; ui := x |}.

(* ===================================================================== *)
(** ** Asynchronous computations *)
(* ===================================================================== *)

(** An [async] function body: it transforms the world and settles with a
    value, settles with an exception, or never settles. *)
Definition M (A : Type) : Type := World -> outcome A * World.

Definition ret {A} (a : A) : M A := fun w => (Ok a, w).
Definition throw {A} (e : exn) : M A := fun w => (Throw e, w).
Definition never {A} : M A := fun w => (Pending, w).
Definition lift {A} (o : outcome A) : M A := fun w => (o, w).

Definition bind {A B} (m : M A) (k : A -> M B) : M B :=
  fun w =>
    match m w with
    | (Ok a, w') => k a w'
    | (Throw e, w') => (Throw e, w')
    | (Pending, w') => (Pending, w')
    end.

(** [try { m } catch (e) { h e }] *)
Definition try_catch {A} (m : M A) (h : exn -> M A) : M A :=
  fun w =>
    match m w with
    | (Throw e, w') => h e w'
    | r => r
    end.

Definition gets {A} (f : World -> A) : M A := fun w => (Ok (f w), w).
Definition modify (f : World -> World) : M unit := fun w => (Ok tt, f w).

Notation "'let*' x ':=' m 'in' k" := (bind m (fun x => k))
  (at level 10, x name, m at level 100, k at level 200).
Notation "m ';;' k" := (bind m (fun _ => k))
  (at level 100, k at level 200, right associativity).

(** [for (const x of xs) { f x }] *)
Fixpoint for_each {A} (f : A -> M unit) (xs : list A) : M unit :=
  match xs with
  | [] => ret tt
  | x :: rest => f x;; for_each f rest
  end.

(** *** Reading the environment *)

Definition update_env (f : Env -> Env) : World -> World :=
  fun w => set_env (f (env w)) w.
Definition update_manager (f : Manager -> Manager) : World -> World :=
  fun w => set_manager (f (manager w)) w.
Definition update_disk (f : Database -> Database) : World -> World :=
  fun w => set_disk (f (disk w)) w.

(** The outcome of the next IndexedDB request. *)
Definition idb_request : M bool :=
  fun w => (Ok (hd true (io (env w))), update_env (fun e => set_io (tl (io e)) e) w).

(** [Date.now()] *)
Definition Date_now : M Z :=
  fun w => (Ok (hd 0 (clock (env w))), update_env (fun e => set_clock (tl (clock e)) e) w).

Definition random_word : M Z :=
  fun w => (Ok (hd 0 (rng (env w))), update_env (fun e => set_rng (tl (rng e)) e) w).

(** [crypto.getRandomValues(new UintNArray(n))], as the list of its elements. *)
Fixpoint getRandomValues (wrap : Z -> Z) (n : nat) : M (list Z) :=
  match n with
  | O => ret []
  | S n' =>
      let* x := random_word in
      let* rest := getRandomValues wrap n' in
      ret (wrap x :: rest)
  end.

(** *** Running a computation *)

Definition result_of {A} (r : outcome A * World) : outcome A := fst r.
Definition world_of {A} (r : outcome A * World) : World := snd r.

(* ===================================================================== *)
(** ** js/creditSecurity.js *)
(* ===================================================================== *)

(** Which [CreditSecurity] instance a method runs on: the manager's own
    ([this.security] of [CreditManager]) or the one its storage created
    ([this.security] of [CreditStorage]). *)
Inductive SecurityRef : Type := OfManager | OfStorage.

Definition read_security (self : SecurityRef) (w : World) : Security :=
  match self with
  | OfManager => security (manager w)
  | OfStorage => st_security (storage (manager w))
  end.

Definition write_security (self : SecurityRef) (s : Security) (w : World) : World :=
  match self with
  | OfManager => update_manager (set_security s) w
  | OfStorage =>
      update_manager (fun m => set_storage (set_st_security s (storage m)) m) w
  end.

(** [new Uint8Array(v)]. A number is a length (negative: RangeError; the
    engine's allocation limit is not modelled); an array of numbers is
    copied with each element wrapped to a byte; [undefined] and [null]
    give the empty array. *)
Definition is_num (v : jsval) : bool :=
  match v with JNum _ => true | _ => false end.
Definition num_or_zero (v : jsval) : Z :=
  match v with JNum n => n | _ => 0 end.

Definition new_Uint8Array `{Platform} (v : jsval) : outcome (list Z) :=
  match v with
  | JUndefined | JNull => Ok []
  | JNum n =>
      if n <? 0
      then Throw (RangeError ("Invalid typed array length: " +:+ show n))
      else Ok (repeat 0 (Z.to_nat n))
  | JArr elems =>
      if forallb is_num elems
      then Ok (map (fun x => wrap8 (num_or_zero x)) elems)
      else typed_array_coerce v
  | _ => typed_array_coerce v
  end.

Module CreditSecurity.
Section WithPlatform.
Context `{Platform}.

Definition constructor : Security :=
  {| cryptoKey := None; sec_deviceFingerprint := None |}.

(** [hashArray.map(b => b.toString(16).padStart(2, '0')).join('')] *)
Definition hex_of_bytes (bytes : list Z) : string :=
  fold_right (fun b acc => padStart0 2 (toString16 (wrap8 b)) +:+ acc)
             EmptyString bytes.

Definition simpleHash (text : string) : string :=
  hex_of_bytes (sha256 (utf8_encode text)).

(** [components.join('|')] *)
Fixpoint join_bar (components : list string) : string :=
  match components with
  | [] => EmptyString
  | [c] => c
  | c :: rest => c +:+ "|" +:+ join_bar rest
  end.

Definition fingerprint_components (d : DeviceSignals) : list string :=
  [ "screen:" +:+ show (screen_width d) +:+ "x" +:+ show (screen_height d)
      +:+ "x" +:+ show (screen_colorDepth d);
    "tz:" +:+ timeZone d;
    "lang:" +:+ language d;
    "platform:" +:+ platform d;
    "ua:" +:+ take 8 (simpleHash (userAgent d));
    match canvasDataURL d with
    | Some canvasData => "canvas:" +:+ take 8 (simpleHash canvasData)
    | None => "canvas:unavailable"
    end ].

(** The cache test [if (this.deviceFingerprint)] is a truthiness test. *)
Definition cached_fingerprint (s : Security) : option string :=
  match sec_deviceFingerprint s with
  | Some f => if String.eqb f "" then None else Some f
  | None => None
  end.

Definition generateDeviceFingerprint (self : SecurityRef) : M string :=
  let* s := gets (read_security self) in
  match cached_fingerprint s with
  | Some f => ret f
  | None =>
      let* d := gets (fun w => device (env w)) in
      let f := simpleHash (join_bar (fingerprint_components d)) in
      modify (fun w => write_security self
                (set_sec_deviceFingerprint (Some f) (read_security self w)) w);;
      ret f
  end.

Definition initializeCryptoKey (self : SecurityRef) : M (list Z) :=
  let* s := gets (read_security self) in
  match cryptoKey s with
  | Some k => ret k
  | None =>
      let* fingerprint := generateDeviceFingerprint self in
      let keyMaterial := utf8_encode (take 32 fingerprint) in
      let k := pbkdf2_aes_key keyMaterial (utf8_encode "VoiceNotes-Credits-Salt")
                              100000 256 in
      modify (fun w => write_security self
                (set_cryptoKey (Some k) (read_security self w)) w);;
      ret k
  end.

Definition byte_array (bytes : list Z) : jsval := JArr (map JNum bytes).

Definition encryptData (self : SecurityRef) (data : jsval) : M jsval :=
  let* key := initializeCryptoKey self in
  let* iv := getRandomValues wrap8 12 in
  let encodedData := utf8_encode (JSON_stringify data) in
  let encrypted := aes_gcm_encrypt key iv encodedData in
  ret (JObj [("encrypted", byte_array (map wrap8 encrypted));
             ("iv", byte_array iv)]).

(** The body of the [try] block of [decryptData]. *)
Definition decrypt_and_parse (key iv encrypted : list Z) : M jsval :=
  match aes_gcm_decrypt key iv encrypted with
  | None => throw (Exn "OperationError" "The operation failed for an operation-specific reason")
  | Some decrypted =>
      match JSON_parse (utf8_decode decrypted) with
      | None => throw (Exn "SyntaxError" "Unexpected token in JSON")
      | Some v => ret v
      end
  end.

Definition decryptData (self : SecurityRef) (encryptedData : jsval) : M jsval :=
  let* key := initializeCryptoKey self in
  let* iv_field := lift (get "iv" encryptedData) in
  let* iv := lift (new_Uint8Array iv_field) in
  let* encrypted_field := lift (get "encrypted" encryptedData) in
  let* encrypted := lift (new_Uint8Array encrypted_field) in
  try_catch (decrypt_and_parse key iv encrypted)
            (fun error => ret JNull).

(** One backup code: three random 32-bit words, each printed as eight
    hexadecimal digits, the first sixteen characters in upper case. *)
Definition backup_code_of (words : list Z) : string :=
  let code := fold_left (fun acc val => acc +:+ padStart0 8 (toString16 val))
                        words EmptyString in
  toUpperCase (take 16 code).

(** [count] is the number of rounds of the loop [for (i = 0; i < count; i++)]. *)
Fixpoint generateBackupCodes (count : nat) : M (list string) :=
  match count with
  | O => ret []
  | S count' =>
      let* words := getRandomValues wrap32 3 in
      let* codes := generateBackupCodes count' in
      ret (backup_code_of words :: codes)
  end.

Definition isValidBackupCode (code : string) : bool :=
  matches_backup_code (toUpperCase code).

Definition createIntegrityHash (self : SecurityRef) (creditData : jsval) : M string :=
  let* balance := lift (get "balance" creditData) in
  let* fingerprint := generateDeviceFingerprint self in
  let* timestamp := lift (get "timestamp" creditData) in
  let dataString := JSON_stringify (JObj [("balance", balance);
                                          ("deviceFingerprint", JStr fingerprint);
                                          ("timestamp", timestamp)]) in
  ret (simpleHash dataString).

(** [currentHash === expectedHash], the left side being a string. *)
Definition strict_eq_string (s : string) (v : jsval) : bool :=
  match v with
  | JStr s' => String.eqb s s'
  | _ => false
  end.

Definition verifyIntegrity (self : SecurityRef) (creditData expectedHash : jsval) : M bool :=
  let* currentHash := createIntegrityHash self creditData in
  ret (strict_eq_string currentHash expectedHash).

End WithPlatform.
End CreditSecurity.

(* ===================================================================== *)
(** ** js/creditStorage.js *)
(* ===================================================================== *)

Module CreditStorage.
Section WithPlatform.
Context `{Platform}.

Definition update_storage (f : Storage -> Storage) : World -> World :=
  update_manager (fun m => set_storage (f (storage m)) m).

Definition constructor : Storage :=
  {| db := false; st_security := CreditSecurity.constructor |}.

(** [indexedDB.open]: the object stores exist from the first upgrade on. *)
Definition init : M unit :=
  let* ok := idb_request in
  if ok then modify (update_storage (set_db true))
  else throw (Error "Failed to open credits database").

Definition getStore : M unit :=
  let* open := gets (fun w => db (storage (manager w))) in
  if open then ret tt else throw (Error "Database not initialized").

Definition fingerprint_value (f : option string) : jsval :=
  match f with
  | Some s => JStr s
  | None => JNull
  end.

Definition saveCreditBalance (balance : Z) (deviceFingerprint : option string) : M unit :=
  let* timestamp := Date_now in
  let creditData := JObj [("id", JStr "main");
                          ("balance", JNum balance);
                          ("deviceFingerprint", fingerprint_value deviceFingerprint);
                          ("timestamp", JNum timestamp);
                          ("lastModified", JNum timestamp)] in
  let* integrityHash := CreditSecurity.createIntegrityHash OfStorage creditData in
  let creditData := set_prop "integrityHash" (JStr integrityHash) creditData in
  let* encryptedData := CreditSecurity.encryptData OfStorage creditData in
  let encryptedCreditRecord :=
    {| cr_data := encryptedData;
       cr_deviceFingerprint := deviceFingerprint;
       cr_timestamp := timestamp |} in
  getStore;;
  let* ok := idb_request in
  if ok
  then modify (update_disk (fun d =>
                 set_credits (<["main" := encryptedCreditRecord]> (credits d)) d))
  else throw (Error "Failed to save credit balance").

(** How the promise built in [getCreditBalance] is settled from inside
    the [try] block, where [reject] is a call and not a [throw]. *)
Inductive settled : Type :=
| Resolve (v : jsval)
| Reject (e : exn).

Definition decrypt_and_verify (data : jsval) : M settled :=
  let* decryptedData := CreditSecurity.decryptData OfStorage data in
  if negb (truthy decryptedData)
  then ret (Reject (Error "Failed to decrypt credit data"))
  else
    let* isValid := CreditSecurity.verifyIntegrity OfStorage decryptedData
                      (prop "integrityHash" decryptedData) in
    if negb isValid
    then ret (Reject (Error "Credit data integrity check failed"))
    else ret (Resolve decryptedData).

(** The executor is an [async] function: an exception that escapes it
    (from [getStore], or from the [catch] block) settles nothing. *)
Definition getCreditBalance : M jsval :=
  let* open := gets (fun w => db (storage (manager w))) in
  if negb open then never
  else
    let* ok := idb_request in
    if negb ok then throw (Error "Failed to fetch credit balance")
    else
      let* result := gets (fun w => credits (disk w) !! "main") in
      match result with
      | None => ret JNull
      | Some record =>
          let* s := try_catch (decrypt_and_verify (cr_data record))
                      (fun error =>
                         match message error with
                         | inl m => ret (Reject (Error ("Failed to decrypt credit balance: " +:+ m)))
                         | inr _ => never
                         end) in
          match s with
          | Resolve v => ret v
          | Reject e => throw e
          end
      end.

Definition logTransaction (type : string) (amount : Z) (operation : string)
           (metadata : jsval) : M Z :=
  let* timestamp := Date_now in
  let* fingerprint := CreditSecurity.generateDeviceFingerprint OfStorage in
  getStore;;
  let* ok := idb_request in
  if ok
  then
    let* id := gets (fun w => next_tx_id (disk w)) in
    let transaction :=
      {| tx_id := id; tx_type := type; tx_amount := amount;
         tx_operation := operation; tx_metadata := metadata;
         tx_timestamp := timestamp; tx_deviceFingerprint := fingerprint |} in
    modify (update_disk (fun d =>
              set_transactions (transactions d ++ [transaction]) (id + 1) d));;
    ret id
  else throw (Error "Failed to log transaction").

(** [a] comes before [b] under a cursor of direction [prev] over the
    index [timestamp]: a later timestamp first, and among records of the
    same timestamp the greater primary key first. *)
Definition newer (a b : Transaction) : bool :=
  (tx_timestamp b <? tx_timestamp a) ||
  ((tx_timestamp b =? tx_timestamp a) && (tx_id b <? tx_id a)).

Fixpoint insert_newest (t : Transaction) (sorted : list Transaction)
  : list Transaction :=
  match sorted with
  | [] => [t]
  | x :: rest => if newer x t then x :: insert_newest t rest else t :: sorted
  end.

(** The records in the order in which [index.openCursor(null, 'prev')]
    visits them. *)
Definition newest_first (records : list Transaction) : list Transaction :=
  fold_right insert_newest [] records.

(** The successive success events of the cursor request: each one is a
    request outcome; [remaining] is what the cursor has not visited yet,
    [transactions] what the handler has collected. *)
Fixpoint cursor_events (limit count : Z) (remaining transactions : list Transaction)
  : M (list Transaction) :=
  let* ok := idb_request in
  if negb ok then throw (Error "Failed to fetch transaction history")
  else
    match remaining with
    | cursor :: rest =>
        if count <? limit
        then cursor_events limit (count + 1) rest (transactions ++ [cursor])
        else ret transactions
    | [] => ret transactions
    end.

Definition getTransactionHistory (limit : Z) : M (list Transaction) :=
  getStore;;
  let* records := gets (fun w => newest_first (transactions (disk w))) in
  cursor_events limit 0 records [].

(** One [store.put(record)] of [saveBackupCodes]; answers whether the
    request succeeded. *)
Definition put_backup_code (code : string) : M bool :=
  let* created := Date_now in
  let* ok := idb_request in
  if ok
  then modify (update_disk (fun d =>
                 set_backupCodes
                   (<[code := {| bc_created := created; bc_used := false;
                                 bc_usedAt := None |}]> (backupCodes d)) d));;
       ret true
  else ret false.

Fixpoint put_backup_codes (codes : list string) : M bool :=
  match codes with
  | [] => ret true
  | code :: rest =>
      let* ok := put_backup_code code in
      let* oks := put_backup_codes rest in
      ret (ok && oks)
  end.

(** Every put is issued; [Promise.all] rejects with the bare [reject()]
    of a failed one. *)
Definition saveBackupCodes (codes : list string) : M unit :=
  getStore;;
  let* all_ok := put_backup_codes codes in
  if all_ok then ret tt else throw ExnUndefined.

Definition useBackupCode (code : string) : M bool :=
  getStore;;
  let* ok := idb_request in
  if negb ok then throw (Error "Failed to verify backup code")
  else
    let key := toUpperCase code in
    let* result := gets (fun w => backupCodes (disk w) !! key) in
    match result with
    | None => ret false
    | Some record =>
        if bc_used record then ret false
        else
          let* usedAt := Date_now in
          let record' := {| bc_created := bc_created record; bc_used := true;
                            bc_usedAt := Some usedAt |} in
          let* ok := idb_request in
          if ok
          then modify (update_disk (fun d =>
                         set_backupCodes (<[key := record']> (backupCodes d)) d));;
               ret true
          else throw (Error "Failed to mark backup code as used")
    end.

(** The store [creditSettings] maps [key] to [value]; keys are strings. *)
Definition saveSetting (key : string) (value : jsval) : M unit :=
  getStore;;
  let* ok := idb_request in
  if ok
  then modify (update_disk (fun d =>
                 set_creditSettings (<[key := value]> (creditSettings d)) d))
  else throw (Error "Failed to save setting").

(** A parameter declared [defaultValue = null]: it takes its default when
    the caller passes [undefined]. *)
Definition default_null (defaultValue : jsval) : jsval :=
  match defaultValue with
  | JUndefined => JNull
  | _ => defaultValue
  end.

(** [request.onerror] resolves with the default as well. *)
Definition getSetting (key : string) (defaultValue : jsval) : M jsval :=
  let defaultValue := default_null defaultValue in
  getStore;;
  let* ok := idb_request in
  if ok
  then
    let* result := gets (fun w => creditSettings (disk w) !! key) in
    match result with
    | Some value => ret value
    | None => ret defaultValue
    end
  else ret defaultValue.

(** [store.getAll()] answers the records in the order of their keys;
    strings are ordered by their code units. *)
Definition key_le (a b : string * jsval) : Prop := String.leb (fst a) (fst b) = true.

#[export] Instance key_le_dec : RelDecision key_le :=
  fun a b => bool_eq_dec (String.leb (fst a) (fst b)) true.

Definition getAll (store : gmap string jsval) : list (string * jsval) :=
  merge_sort key_le (map_to_list store).

(** [settings[item.key] = item.value] for each record, on an object that
    starts empty (the place that the engine gives to integer-like names
    among the properties is not modelled). *)
Definition getAllSettings : M jsval :=
  getStore;;
  let* ok := idb_request in
  if ok
  then
    let* result := gets (fun w => getAll (creditSettings (disk w))) in
    ret (JObj (fold_left (fun settings item => set_field (fst item) (snd item) settings)
                         result []))
  else throw (Error "Failed to fetch settings").

(** A record of [transactions] as the value that a read answers: the key
    that the store generated is the last property. *)
Definition transaction_value (t : Transaction) : jsval :=
  JObj [("type", JStr (tx_type t));
        ("amount", JNum (tx_amount t));
        ("operation", JStr (tx_operation t));
        ("metadata", tx_metadata t);
        ("timestamp", JNum (tx_timestamp t));
        ("deviceFingerprint", JStr (tx_deviceFingerprint t));
        ("id", JNum (tx_id t))].

(** The three reads of [Promise.all], each with its [catch], run here one
    after the other; [() => {}] answers [undefined]. *)
Definition exportCreditData : M jsval :=
  let* balance := try_catch getCreditBalance (fun _ => ret JNull) in
  let* transactions := try_catch (getTransactionHistory 1000) (fun _ => ret []) in
  let* settings := try_catch getAllSettings (fun _ => ret JUndefined) in
  let* exportDate := Date_now in
  ret (JObj [("balance", balance);
             ("transactions", JArr (map transaction_value transactions));
             ("settings", settings);
             ("exportDate", JStr (toISOString exportDate));
             ("version", JStr "1.0")]).

(** One [store.clear()] of [clearAllData]: the error of a failed request. *)
Definition clear_store (storeName : string) (clear : Database -> Database)
  : M (option exn) :=
  let* ok := idb_request in
  if ok then modify (update_disk clear);; ret None
  else ret (Some (Error ("Failed to clear " +:+ storeName))).

Definition first_error (a b : option exn) : option exn :=
  match a with
  | Some e => Some e
  | None => b
  end.

(** The four clear requests are all issued; [Promise.all] rejects with
    the first failure. *)
Definition clearAllData : M unit :=
  getStore;;
  let* e1 := clear_store "credits" (set_credits ∅) in
  let* e2 := clear_store "transactions"
               (fun d => set_transactions [] (next_tx_id d) d) in
  let* e3 := clear_store "creditSettings" (set_creditSettings ∅) in
  let* e4 := clear_store "backupCodes" (set_backupCodes ∅) in
  match first_error e1 (first_error e2 (first_error e3 e4)) with
  | Some e => throw e
  | None => ret tt
  end.

Definition requestPersistentStorage : M bool :=
  let* p := gets (fun w => persist (env w)) in
  match p with
  | Some (Ok isPersistent) => ret isPersistent
  | Some (Throw _) => ret false
  | Some Pending => never
  | None => ret false
  end.

End WithPlatform.
End CreditStorage.

(* ===================================================================== *)
(** ** js/creditManager.js *)
(* ===================================================================== *)

Module CREDIT_COSTS.
Definition POLISH_TEXT : Z := 3.
Definition TRANSLATE : Z := 7.
Definition COMPLETE : Z := 10.
Definition CREDIT_TO_CENT_RATE : Z := 1.
End CREDIT_COSTS.

(** A credit package; [price] is kept in hundredths of a dollar. *)
Record CreditPackage : Type := {
  pkg_credits : Z;
  pkg_price : Z;
  pkg_label : string
}.

(** The own keys of the table [CREDIT_PACKAGES]. *)
Definition package_keys : list string := ["SMALL"; "MEDIUM"; "LARGE"; "XL"].

(** A key that names a package of the catalog. *)
Definition catalog_key (packageKey : string) : Prop := In packageKey package_keys.

(** [CREDIT_PACKAGES[packageKey]]. The table is a plain object. The
    lookup below is the lookup of the source on the own keys of the table,
    and on every name that is no property of it at all, where the source
    finds [undefined]. A name that the table inherits from
    [Object.prototype] ([constructor], [toString], ...) is outside this
    model: there the source finds a function, which passes the guard
    [!package_] of [purchaseCredits] and has neither [credits] nor [price].
    What is proved about [purchaseCredits] below is proved for keys of the
    catalog ([catalog_key]). *)
Definition CREDIT_PACKAGES (packageKey : string) : option CreditPackage :=
  if String.eqb packageKey "SMALL" then
    Some {| pkg_credits := 100; pkg_price := 100; pkg_label := "$1.00 - 100 Credits" |}
  else if String.eqb packageKey "MEDIUM" then
    Some {| pkg_credits := 250; pkg_price := 225; pkg_label := "$2.25 - 250 Credits" |}
  else if String.eqb packageKey "LARGE" then
    Some {| pkg_credits := 500; pkg_price := 400; pkg_label := "$4.00 - 500 Credits" |}
  else if String.eqb packageKey "XL" then
    Some {| pkg_credits := 1000; pkg_price := 750; pkg_label := "$7.50 - 1000 Credits" |}
  else None.

Definition package_value (p : CreditPackage) : jsval :=
  JObj [("credits", JNum (pkg_credits p));
        ("price", JNum (pkg_price p));
        ("label", JStr (pkg_label p))].

Module CreditManager.
Section WithPlatform.
Context `{Platform}.

Definition constructor : Manager :=
  {| storage := CreditStorage.constructor;
     security := CreditSecurity.constructor;
     currentBalance := 0;
     deviceFingerprint := None;
     isInitialized := false;
     balanceChangeListeners := [] |}.

Definition getBalance : M Z := gets (fun w => currentBalance (manager w)).

Definition assign_balance (b : Z) : M unit :=
  modify (update_manager (set_currentBalance b)).

(** [try { await this.storage.saveCreditBalance(...) } catch (error) { throw error }] *)
Definition saveBalance : M unit :=
  try_catch
    (let* balance := getBalance in
     let* fingerprint := gets (fun w => deviceFingerprint (manager w)) in
     CreditStorage.saveCreditBalance balance fingerprint)
    (fun error => throw error).

(** [balanceData.balance || 0]. The manager's balance is a number: a
    record that passes the integrity check with a balance of another
    type is read as [0]. *)
Definition balance_or_zero (balanceData : jsval) : Z :=
  match prop "balance" balanceData with
  | JNum n => n
  | _ => 0
  end.

Definition loadBalance : M unit :=
  try_catch
    (let* balanceData := CreditStorage.getCreditBalance in
     if truthy balanceData
     then assign_balance (balance_or_zero balanceData)
     else assign_balance 0;; saveBalance)
    (fun error => assign_balance 0;; saveBalance).

Definition initialize : M unit :=
  let* initialized := gets (fun w => isInitialized (manager w)) in
  if initialized then ret tt
  else
    try_catch
      (CreditStorage.init;;
       let* fingerprint := CreditSecurity.generateDeviceFingerprint OfManager in
       modify (update_manager (set_deviceFingerprint (Some fingerprint)));;
       loadBalance;;
       let* _ := CreditStorage.requestPersistentStorage in
       modify (update_manager (set_isInitialized true)))
      (fun error => throw error).

Definition onBalanceChange (callback : Listener) : M unit :=
  modify (update_manager (fun m =>
            set_listeners (balanceChangeListeners m ++ [callback]) m)).

(** [===] on callbacks is identity. *)
Definition same_listener (a b : Listener) : bool :=
  (listener_id a =? listener_id b)%nat.

(** [listeners.indexOf(callback)] *)
Fixpoint indexOf (callback : Listener) (listeners : list Listener) : Z :=
  match listeners with
  | [] => -1
  | l :: rest =>
      if same_listener l callback then 0
      else
        let index := indexOf callback rest in
        if index <? 0 then -1 else index + 1
  end.

(** [listeners.splice(index, 1)] for an index within the array. *)
Definition splice1 (index : nat) (listeners : list Listener) : list Listener :=
  firstn index listeners ++ skipn (S index) listeners.

Definition removeBalanceChangeListener (callback : Listener) : M unit :=
  let* listeners := gets (fun w => balanceChangeListeners (manager w)) in
  let index := indexOf callback listeners in
  if -1 <? index
  then modify (update_manager (set_listeners (splice1 (Z.to_nat index) listeners)))
  else ret tt.

(** Every listener is called with the balance; what it throws is caught. *)
Definition notifyBalanceChange : M unit :=
  let* listeners := gets (fun w => balanceChangeListeners (manager w)) in
  let* balance := getBalance in
  for_each (fun l => modify (fun w =>
              set_ui (ui w ++ [Notified (listener_id l) balance]) w))
           listeners.

Definition hasSufficientCredits (cost : Z) : M bool :=
  let* balance := getBalance in
  ret (cost <=? balance).

Definition getCost (operation : string) : outcome Z :=
  if String.eqb operation "polish" then Ok CREDIT_COSTS.POLISH_TEXT
  else if String.eqb operation "translate" then Ok CREDIT_COSTS.TRANSLATE
  else if String.eqb operation "complete" then Ok CREDIT_COSTS.COMPLETE
  else Throw (Error ("Unknown operation: " +:+ operation)).

(** [throw new Error(`${what}: ${error.message}`)] inside a [catch]. *)
Definition rethrow_with {A} (what : string) (error : exn) : M A :=
  match message error with
  | inl m => throw (Error (what +:+ ": " +:+ m))
  | inr type_error => throw type_error
  end.

Definition deductCredits (cost : Z) (operation : string) (metadata : jsval) : M jsval :=
  let* sufficient := hasSufficientCredits cost in
  if negb sufficient
  then
    let* balance := getBalance in
    throw (Error ("Insufficient credits. Required: " +:+ show cost
                    +:+ ", Available: " +:+ show balance))
  else
    let* previousBalance := getBalance in
    assign_balance (previousBalance - cost);;
    try_catch
      (saveBalance;;
       let* newBalance := getBalance in
       let* _ := CreditStorage.logTransaction "deduction" cost operation
                   (JObj (assign (spread metadata)
                            [("previousBalance", JNum previousBalance);
                             ("newBalance", JNum newBalance)])) in
       notifyBalanceChange;;
       let* newBalance := getBalance in
       ret (JObj [("success", JBool true);
                  ("previousBalance", JNum previousBalance);
                  ("newBalance", JNum newBalance);
                  ("deducted", JNum cost)]))
      (fun error =>
         assign_balance previousBalance;;
         rethrow_with "Failed to deduct credits" error).

Definition addCredits (amount : Z) (source : string) (metadata : jsval) : M jsval :=
  let* previousBalance := getBalance in
  assign_balance (previousBalance + amount);;
  try_catch
    (saveBalance;;
     let* newBalance := getBalance in
     let* _ := CreditStorage.logTransaction "purchase" amount source
                 (JObj (assign (spread metadata)
                          [("previousBalance", JNum previousBalance);
                           ("newBalance", JNum newBalance)])) in
     notifyBalanceChange;;
     let* newBalance := getBalance in
     ret (JObj [("success", JBool true);
                ("previousBalance", JNum previousBalance);
                ("newBalance", JNum newBalance);
                ("added", JNum amount)]))
    (fun error =>
       assign_balance previousBalance;;
       rethrow_with "Failed to add credits" error).

(** The demo payment: a timer, then success. *)
Definition simulatePayment (package_ : CreditPackage) : M unit := ret tt.

Definition purchaseCredits (packageKey paymentMethod : string) : M jsval :=
  match CREDIT_PACKAGES packageKey with
  | None => throw (Error ("Invalid credit package: " +:+ packageKey))
  | Some package_ =>
      try_catch
        ((if String.eqb paymentMethod "demo"
          then simulatePayment package_
          else throw (Error "Payment processing not yet implemented"));;
         let* result := addCredits (pkg_credits package_) "purchase"
                          (JObj [("package", JStr packageKey);
                                 ("price", JNum (pkg_price package_));
                                 ("paymentMethod", JStr paymentMethod)]) in
         let* date := Date_now in
         ret (JObj (assign (spread result)
                      [("package", package_value package_);
                       ("receipt",
                        JObj [("date", JStr (toISOString date));
                              ("package", JStr packageKey);
                              ("credits", JNum (pkg_credits package_));
                              ("price", JNum (pkg_price package_));
                              ("paymentMethod", JStr paymentMethod)])])))
        (fun error => throw error)
  end.

Definition generateBackupCodes : M (list string) :=
  let* codes := CreditSecurity.generateBackupCodes 5 in
  CreditStorage.saveBackupCodes codes;;
  ret codes.

Definition useBackupCode (code : string) : M bool :=
  if negb (CreditSecurity.isValidBackupCode code)
  then throw (Error "Invalid backup code format")
  else CreditStorage.useBackupCode code.

Definition resetCredits (newBalance : Z) : M jsval :=
  let* previousBalance := getBalance in
  assign_balance newBalance;;
  saveBalance;;
  let* _ := CreditStorage.logTransaction "reset" (newBalance - previousBalance)
              "admin_reset"
              (JObj [("previousBalance", JNum previousBalance);
                     ("newBalance", JNum newBalance)]) in
  notifyBalanceChange;;
  ret (JObj [("previousBalance", JNum previousBalance);
             ("newBalance", JNum newBalance)]).

Definition isRunningLow (threshold : Z) : M bool :=
  let* balance := getBalance in
  ret (balance <? threshold).

Definition getTransactionHistory (limit : Z) : M (list Transaction) :=
  CreditStorage.getTransactionHistory limit.

Definition exportData : M jsval := CreditStorage.exportCreditData.

Definition getFormattedBalance : M string :=
  let* balance := getBalance in
  ret (show balance +:+ " credits").

Definition getCostPreview (operation : string) : M jsval :=
  let* cost := lift (getCost operation) in
  let* sufficient := hasSufficientCredits cost in
  let* balance := getBalance in
  ret (JObj [("operation", JStr operation);
             ("cost", JNum cost);
             ("costInCents", JNum (cost * CREDIT_COSTS.CREDIT_TO_CENT_RATE));
             ("currentBalance", JNum balance);
             ("sufficient", JBool sufficient);
             ("balanceAfter", if sufficient then JNum (balance - cost) else JNull)]).

Definition validateOperation (operation : string) : M jsval :=
  let* preview := getCostPreview operation in
  if negb (truthy (prop "sufficient" preview))
  then
    let cost := num_or_zero (prop "cost" preview) in
    let balance := num_or_zero (prop "currentBalance" preview) in
    let deficit := cost - balance in
    throw (Error ("Insufficient credits for " +:+ operation +:+ ". "
                    +:+ "Need " +:+ show cost +:+ " credits, have " +:+ show balance
                    +:+ ". " +:+ "Short by " +:+ show deficit +:+ " credits."))
  else ret preview.

Definition clearAllData : M unit :=
  CreditStorage.clearAllData;;
  assign_balance 0;;
  notifyBalanceChange.

End WithPlatform.
End CreditManager.

(* ===================================================================== *)
(** ** The credit UI, as far as the integration layer calls it *)
(* ===================================================================== *)

Module CreditUI.

Definition showPurchaseModal : M unit :=
  modify (fun w => set_ui (ui w ++ [PurchaseModalShown]) w).

(** The promise of [getCostPreview] is settled by the user's click. *)
Definition getCostPreview (operation : string) : M bool :=
  fun w =>
    (hd (Ok false) (confirms (env w)),
     update_env (fun e => set_confirms (tl (confirms e)) e) w).

(** The totals that the history modal displays. *)
Record HistoryStats : Type := {
  totalPurchased : Z;
  totalUsed : Z
}.

(** [transactions.reduce((stats, transaction) => ..., {totalPurchased: 0,
    totalUsed: 0})] *)
Definition calculateHistoryStats (transactions : list Transaction) : HistoryStats :=
  fold_left
    (fun stats transaction =>
       if String.eqb (tx_type transaction) "purchase"
       then {| totalPurchased := totalPurchased stats + tx_amount transaction;
               totalUsed := totalUsed stats |}
       else if String.eqb (tx_type transaction) "deduction"
       then {| totalPurchased := totalPurchased stats;
               totalUsed := totalUsed stats + tx_amount transaction |}
       else stats)
    transactions
    {| totalPurchased := 0; totalUsed := 0 |}.

End CreditUI.

(* ===================================================================== *)
(** ** js/creditIntegration.js *)
(* ===================================================================== *)

Module CreditIntegration.
Section WithPlatform.
Context `{Platform}.

(** One invocation of the application function that [wrapFunction]
    saved in [originalFunctions]: external code, whose successive
    outcomes are the script [calls]. *)
Definition originalFunction : M jsval :=
  fun w =>
    (hd (Ok JUndefined) (calls (env w)),
     update_env (fun e => set_calls (tl (calls e)) e) w).

Definition is_credit_error (m : string) : bool :=
  includes m "credits" || includes m "Credits".

Definition is_nullish (v : jsval) : bool :=
  match v with
  | JUndefined | JNull => true
  | _ => false
  end.

(** The function that [wrapFunction(object, functionName, operation,
    metadata)] installs, called with [args] arguments. *)
Definition wrapFunction (operation : string) (metadata : jsval) (args : Z) : M jsval :=
  try_catch
    (let* cost := lift (CreditManager.getCost operation) in
     let* hasCredits := CreditManager.hasSufficientCredits cost in
     if negb hasCredits
     then
       CreditUI.showPurchaseModal;;
       let* balance := CreditManager.getBalance in
       throw (Error ("Insufficient credits for " +:+ operation +:+ ". Need "
                       +:+ show cost +:+ " credits, have " +:+ show balance +:+ "."))
     else
       let* confirmed := CreditUI.getCostPreview operation in
       if negb confirmed then ret JNull
       else
         let* result := originalFunction in
         (if negb (is_nullish result)
          then
            let* timestamp := Date_now in
            let* _ := CreditManager.deductCredits cost operation
                        (JObj (assign (spread metadata)
                                 [("timestamp", JNum timestamp);
                                  ("args", JNum args);
                                  ("success", JBool true)])) in
            ret tt
          else ret tt);;
         ret result)
    (fun error =>
       match message error with
       | inr type_error => throw type_error
       | inl m =>
           if is_credit_error m then throw error
           else try_catch originalFunction (fun originalError => throw originalError)
       end).

Definition wrapTranslationFunction : Z -> M jsval :=
  wrapFunction "translate"
    (JObj [("type", JStr "translation"); ("source", JStr "user_text")]).

Definition wrapPolishingFunction : Z -> M jsval :=
  wrapFunction "polish"
    (JObj [("type", JStr "polishing"); ("source", JStr "voice_input")]).

(** The function that [wrapCompleteWorkflowFunction(app, functionName)]
    installs, called with [args] arguments. *)
Definition wrapCompleteWorkflowFunction (args : Z) : M jsval :=
  try_catch
    (let* cost := lift (CreditManager.getCost "complete") in
     let* hasCredits := CreditManager.hasSufficientCredits cost in
     if negb hasCredits
     then
       CreditUI.showPurchaseModal;;
       let* balance := CreditManager.getBalance in
       throw (Error ("Insufficient credits for complete workflow. Need "
                       +:+ show cost +:+ " credits, have " +:+ show balance +:+ "."))
     else
       let* confirmed := CreditUI.getCostPreview "complete" in
       if negb confirmed then ret JNull
       else
         let* result := originalFunction in
         (if negb (is_nullish result)
          then
            let* timestamp := Date_now in
            let* _ := CreditManager.deductCredits cost "complete"
                        (JObj [("type", JStr "complete_workflow");
                               ("source", JStr "voice_to_translation");
                               ("timestamp", JNum timestamp);
                               ("args", JNum args);
                               ("success", JBool true)]) in
            ret tt
          else ret tt);;
         ret result)
    (fun error =>
       match message error with
       | inr type_error => throw type_error
       | inl m =>
           if is_credit_error m then throw error
           else try_catch originalFunction (fun originalError => throw originalError)
       end).

(** One invocation of the handler [originalOnClick] that the button had:
    application code again, answered by the same script. *)
Definition originalOnClick : M jsval := originalFunction.

(** [result !== false] *)
Definition is_false (v : jsval) : bool :=
  match v with
  | JBool false => true
  | _ => false
  end.

(** The handler that [createCreditAwareTranslationButton(language,
    originalOnClick)] returns, called on an event. *)
Definition createCreditAwareTranslationButton (language : string) : M jsval :=
  try_catch
    (let* cost := lift (CreditManager.getCost "translate") in
     let* hasCredits := CreditManager.hasSufficientCredits cost in
     if negb hasCredits
     then CreditUI.showPurchaseModal;; ret JUndefined
     else
       let* confirmed := CreditUI.getCostPreview "translate" in
       if negb confirmed then ret JUndefined
       else
         let* result := originalOnClick in
         (if negb (is_false result)
          then
            let* timestamp := Date_now in
            let* _ := CreditManager.deductCredits cost "translate"
                        (JObj [("language", JStr language);
                               ("type", JStr "individual_translation");
                               ("timestamp", JNum timestamp)]) in
            ret tt
          else ret tt);;
         ret result)
    (fun error => throw error).

End WithPlatform.
End CreditIntegration.

(* ===================================================================== *)
(** ** Sequences of manager operations *)
(* ===================================================================== *)

Inductive Operation : Type :=
| DeductCredits (cost : Z) (operation : string) (metadata : jsval)
| AddCredits (amount : Z) (source : string) (metadata : jsval)
| ResetCredits (newBalance : Z)
| PurchaseCredits (packageKey paymentMethod : string)
| ClearAllData.

Section Runs.
Context `{Platform}.

Definition run_operation (o : Operation) : M jsval :=
  match o with
  | DeductCredits cost operation metadata =>
      CreditManager.deductCredits cost operation metadata
  | AddCredits amount source metadata =>
      CreditManager.addCredits amount source metadata
  | ResetCredits newBalance => CreditManager.resetCredits newBalance
  | PurchaseCredits packageKey paymentMethod =>
      CreditManager.purchaseCredits packageKey paymentMethod
  | ClearAllData => CreditManager.clearAllData;; ret JUndefined
  end.

(** The worlds reached after each operation of a sequence, whatever the
    way each operation ended. *)
Fixpoint run_trace (ops : list Operation) (w : World) : list World :=
  match ops with
  | [] => []
  | o :: rest =>
      let w' := world_of (run_operation o w) in
      w' :: run_trace rest w'
  end.

End Runs.

(** An operation whose argument cannot by itself name a negative balance:
    a non-negative amount to add, a non-negative balance to reset to, a
    package of the catalog to purchase (its credits are the amount that
    [purchaseCredits] adds). *)
Definition nonnegative_argument (o : Operation) : Prop :=
  match o with
  | AddCredits amount _ _ => 0 <= amount
  | ResetCredits newBalance => 0 <= newBalance
  | PurchaseCredits packageKey _ => catalog_key packageKey
  | DeductCredits _ _ _ | ClearAllData => True
  end.

Definition nonnegative_balance (w : World) : Prop := 0 <= currentBalance (manager w).

(** The next [n] IndexedDB requests succeed. *)
Definition requests_succeed (n : nat) (w : World) : Prop :=
  forallb (fun ok => ok) (firstn n (io (env w))) = true.

(** What the program owns, as opposed to what the environment will answer. *)
Definition same_state (w w' : World) : Prop :=
  manager w = manager w' /\ disk w = disk w' /\ ui w = ui w'.

(* ===================================================================== *)
(** ** Vocabulary of the properties *)
(* ===================================================================== *)

(** The number that a string of lower-case hexadecimal digits denotes. *)
Definition digit_value (c : ascii) : Z :=
  let n := Z.of_N (N_of_ascii c) in
  if n <? 58 then n - 48 else n - 87.

Fixpoint hex_value (s : string) (acc : Z) : Z :=
  match s with
  | EmptyString => acc
  | String c rest => hex_value rest (16 * acc + digit_value c)
  end.

Definition consume_request (w : World) : World :=
  update_env (fun e => set_io (tl (io e)) e) w.
Definition consume_clock (w : World) : World :=
  update_env (fun e => set_clock (tl (clock e)) e) w.

Definition consume_confirm (w : World) : World :=
  update_env (fun e => set_confirms (tl (confirms e)) e) w.
Definition consume_call (w : World) : World :=
  update_env (fun e => set_calls (tl (calls e)) e) w.

Definition mark_used (usedAt : Z) (record : BackupCode) : BackupCode :=
  {| bc_created := bc_created record; bc_used := true; bc_usedAt := Some usedAt |}.

Definition after_first_use (code : string) (record : BackupCode) (w : World) : World :=
  update_disk (fun d =>
    set_backupCodes
      (<[toUpperCase code := mark_used (hd 0 (clock (env w))) record]> (backupCodes d)) d)
    (consume_request (consume_clock (consume_request w))).

Definition well_formed_code (code : string) : Prop := matches_backup_code code = true.

(** The first [n] answers of a script of numbers, and what is left of it. *)
Fixpoint draw (wrap : Z -> Z) (n : nat) (script : list Z) : list Z :=
  match n with
  | O => []
  | S n' => wrap (hd 0 script) :: draw wrap n' (tl script)
  end.

Fixpoint drop (n : nat) (script : list Z) : list Z :=
  match n with
  | O => script
  | S n' => drop n' (tl script)
  end.

Definition consume_rng (n : nat) (w : World) : World :=
  update_env (fun e => set_rng (drop n (rng e)) e) w.

(** A computation [m] relates every world to the world it leaves by [R]. *)
Definition respects (R : World -> World -> Prop) {A} (m : M A) : Prop :=
  forall w, R w (world_of (m w)).

(** The balance in memory is the same in both worlds. *)
Definition balance_kept (w w' : World) : Prop :=
  currentBalance (manager w') = currentBalance (manager w).

(** The [credits] store is the same in both worlds. *)
Definition credits_kept (w w' : World) : Prop := credits (disk w') = credits (disk w).

(** Two records that agree on every field but [deviceFingerprint]. *)
Definition differ_only_in_fingerprint (r1 r2 : jsval) : Prop :=
  exists f1 f2,
    r1 = JObj f1 /\ r2 = JObj f2 /\
    forall k, k <> "deviceFingerprint" -> assoc k f1 = assoc k f2.

Section Vocabulary.
Context `{Platform}.

Definition fresh_fingerprint (w : World) : string :=
  CreditSecurity.simpleHash
    (CreditSecurity.join_bar (CreditSecurity.fingerprint_components (device (env w)))).

(** The fingerprint that [generateDeviceFingerprint] answers in [w]. *)
Definition fingerprint_of (self : SecurityRef) (w : World) : string :=
  match CreditSecurity.cached_fingerprint (read_security self w) with
  | Some f => f
  | None => fresh_fingerprint w
  end.

(** The key that [initializeCryptoKey] answers in [w]. *)
Definition key_of (self : SecurityRef) (w : World) : list Z :=
  match cryptoKey (read_security self w) with
  | Some k => k
  | None =>
      pbkdf2_aes_key (utf8_encode (take 32 (fingerprint_of self w)))
                     (utf8_encode "VoiceNotes-Credits-Salt") 100000 256
  end.

Definition cache_fingerprint (self : SecurityRef) (w : World) : World :=
  match CreditSecurity.cached_fingerprint (read_security self w) with
  | Some _ => w
  | None =>
      write_security self
        (set_sec_deviceFingerprint (Some (fresh_fingerprint w)) (read_security self w)) w
  end.

Definition cache_key (self : SecurityRef) (w : World) : World :=
  match cryptoKey (read_security self w) with
  | Some _ => w
  | None =>
      write_security self
        (set_cryptoKey (Some (key_of self w))
                       (read_security self (cache_fingerprint self w)))
        (cache_fingerprint self w)
  end.

(** [w'] differs from [w] at most in what the security instances cache,
    and the caches answer the same in both. *)
Record caches_only (w w' : World) : Prop := {
  co_disk : disk w' = disk w;
  co_env : env w' = env w;
  co_ui : ui w' = ui w;
  co_balance : currentBalance (manager w') = currentBalance (manager w);
  co_fingerprint : deviceFingerprint (manager w') = deviceFingerprint (manager w);
  co_initialized : isInitialized (manager w') = isInitialized (manager w);
  co_listeners : balanceChangeListeners (manager w') = balanceChangeListeners (manager w);
  co_db : db (storage (manager w')) = db (storage (manager w));
  co_fingerprint_of : forall self, fingerprint_of self w' = fingerprint_of self w;
  co_key_of : forall self, key_of self w' = key_of self w
}.

(** What the [try] block of [decryptData] and its [catch] yield together. *)
Definition open_sealed (key iv encrypted : list Z) : jsval :=
  match aes_gcm_decrypt key iv encrypted with
  | None => JNull
  | Some decrypted =>
      match JSON_parse (utf8_decode decrypted) with
      | None => JNull
      | Some v => v
      end
  end.

(** The settlement of [decryptData(encryptedData)] under a key. *)
Definition decrypt_outcome (key : list Z) (encryptedData : jsval) : outcome jsval :=
  match get "iv" encryptedData with
  | Ok iv_field =>
      match new_Uint8Array iv_field with
      | Ok iv =>
          match get "encrypted" encryptedData with
          | Ok encrypted_field =>
              match new_Uint8Array encrypted_field with
              | Ok encrypted => Ok (open_sealed key iv encrypted)
              | Throw e => Throw e
              | Pending => Pending
              end
          | Throw e => Throw e
          | Pending => Pending
          end
      | Throw e => Throw e
      | Pending => Pending
      end
  | Throw e => Throw e
  | Pending => Pending
  end.

(** Stored data of the shape that [encryptData] writes: an object whose
    [iv] and [encrypted] are arrays of numbers. *)
Definition sealed_shape (data : jsval) (iv encrypted : list Z) : Prop :=
  (exists fields, data = JObj fields) /\
  prop "iv" data = CreditSecurity.byte_array iv /\
  prop "encrypted" data = CreditSecurity.byte_array encrypted.

(** The digest that [createIntegrityHash] computes for [creditData] in [w]. *)
Definition expected_digest (self : SecurityRef) (w : World) (creditData : jsval) : string :=
  CreditSecurity.simpleHash
    (JSON_stringify (JObj [("balance", prop "balance" creditData);
                           ("deviceFingerprint", JStr (fingerprint_of self w));
                           ("timestamp", prop "timestamp" creditData)])).

Inductive ReadCondition : Type :=
| Absent
| DecryptionFailed
| IntegrityMismatch.

(** What is stored under ["main"] has the shape that [encryptData] writes. *)
Definition stored_sealed (w : World) (iv encrypted : list Z) : Prop :=
  exists record,
    credits (disk w) !! "main" = Some record /\
    sealed_shape (cr_data record) iv encrypted.

Definition condition_holds (c : ReadCondition) (w : World) : Prop :=
  match c with
  | Absent => credits (disk w) !! "main" = None
  | DecryptionFailed =>
      exists iv encrypted,
        stored_sealed w iv encrypted /\
        aes_gcm_decrypt (key_of OfStorage w) (map wrap8 iv) (map wrap8 encrypted) = None
  | IntegrityMismatch =>
      exists iv encrypted decrypted creditData,
        stored_sealed w iv encrypted /\
        aes_gcm_decrypt (key_of OfStorage w) (map wrap8 iv) (map wrap8 encrypted)
        = Some decrypted /\
        JSON_parse (utf8_decode decrypted) = Some creditData /\
        truthy creditData = true /\
        CreditSecurity.strict_eq_string (expected_digest OfStorage w creditData)
                                        (prop "integrityHash" creditData) = false
  end.

(** How [getCreditBalance] settles in each condition. *)
Definition signal (c : ReadCondition) : outcome jsval :=
  match c with
  | Absent => Ok JNull
  | DecryptionFailed => Throw (Error "Failed to decrypt credit data")
  | IntegrityMismatch => Throw (Error "Credit data integrity check failed")
  end.

(** The part of [getCreditBalance] that runs on a record that was found. *)
Definition settle_record (record : CreditRecord) : M jsval :=
  let* s := try_catch (CreditStorage.decrypt_and_verify (cr_data record))
              (fun error =>
                 match message error with
                 | inl m => ret (CreditStorage.Reject
                                   (Error ("Failed to decrypt credit balance: " +:+ m)))
                 | inr _ => never
                 end) in
  match s with
  | CreditStorage.Resolve v => ret v
  | CreditStorage.Reject e => throw e
  end.

(** The record that [saveCreditBalance] builds before it computes the hash. *)
Definition credit_data (balance : Z) (fingerprint : option string) (timestamp : Z) : jsval :=
  JObj [("id", JStr "main");
        ("balance", JNum balance);
        ("deviceFingerprint", CreditStorage.fingerprint_value fingerprint);
        ("timestamp", JNum timestamp);
        ("lastModified", JNum timestamp)].

(** What [encryptData] returns for [data] under [key] and nonce [iv]. *)
Definition sealed (key iv : list Z) (data : jsval) : jsval :=
  JObj [("encrypted",
         CreditSecurity.byte_array
           (map wrap8 (aes_gcm_encrypt key iv (utf8_encode (JSON_stringify data)))));
        ("iv", CreditSecurity.byte_array iv)].

(** The record that [saveCreditBalance(balance, fingerprint)] puts in [w]. *)
Definition saved_record (balance : Z) (fingerprint : option string) (w : World)
  : CreditRecord :=
  let timestamp := hd 0 (clock (env w)) in
  let creditData := credit_data balance fingerprint timestamp in
  {| cr_data :=
       sealed (key_of OfStorage w) (draw wrap8 12 (rng (env w)))
              (set_prop "integrityHash"
                 (JStr (expected_digest OfStorage w creditData)) creditData);
     cr_deviceFingerprint := fingerprint;
     cr_timestamp := timestamp |}.

(** The world when the put request of [saveCreditBalance] has been answered. *)
Definition save_attempted (w : World) : World :=
  consume_request
    (consume_rng 12
       (cache_key OfStorage (cache_fingerprint OfStorage (consume_clock w)))).

(** The world after a [saveBalance()] whose put request succeeded. *)
Definition after_save (w : World) : World :=
  update_disk (fun d =>
    set_credits
      (<["main" := saved_record (currentBalance (manager w))
                                (deviceFingerprint (manager w)) w]> (credits d)) d)
    (save_attempted w).

(** The world when the add request of [logTransaction] has been answered. *)
Definition log_attempted (w : World) : World :=
  consume_request (cache_fingerprint OfStorage (consume_clock w)).

(** The stored balance record is the encryption of a credit record whose
    balance is [b]. *)
Definition persists_balance (w : World) (b : Z) : Prop :=
  exists record key iv creditData,
    credits (disk w) !! "main" = Some record /\
    cr_data record = sealed key iv creditData /\
    prop "balance" creditData = JNum b.

(** Whatever balance record is stored is the encryption of a credit record
    with a non-negative balance. *)
Definition stored_nonnegative (w : World) : Prop :=
  forall record,
    credits (disk w) !! "main" = Some record ->
    exists key iv creditData b,
      cr_data record = sealed key iv creditData /\
      prop "balance" creditData = JNum b /\
      0 <= b.

End Vocabulary.

(* ===================================================================== *)
(** ** A small executable platform, to run the code on examples *)
(* ===================================================================== *)

Module Model.

Definition bytes_of_string (s : string) : list Z :=
  map (fun c => Z.of_N (N_of_ascii c)) (list_ascii_of_string s).
Definition string_of_bytes (bytes : list Z) : string :=
  string_of_list_ascii (map (fun b => ascii_of_N (Z.to_N (wrap8 b))) bytes).

(** A 32-bit polynomial checksum in place of SHA-256. *)
Definition checksum (bytes : list Z) : Z :=
  fold_left (fun acc b => wrap32 (acc * 131 + b)) bytes 7.
Definition digest (bytes : list Z) : list Z :=
  let h := checksum bytes in
  [wrap8 (h / 16777216); wrap8 (h / 65536); wrap8 (h / 256); wrap8 h].

(** A shift cipher with a one-byte tag over key, nonce and plaintext. *)
Definition tag (key iv plaintext : list Z) : Z :=
  wrap8 (checksum (key ++ iv ++ plaintext)).
Definition seal (key iv plaintext : list Z) : list Z :=
  tag key iv plaintext :: map (fun b => wrap8 (b + 1)) plaintext.
Definition unseal (key iv ciphertext : list Z) : option (list Z) :=
  match ciphertext with
  | [] => None
  | t :: body =>
      let plaintext := map (fun b => wrap8 (b - 1)) body in
      if t =? tag key iv plaintext then Some plaintext else None
  end.

(** A stand-in for JSON on credit records: the text keeps the four
    fields that the credit code reads back. *)
Definition text_of (v : jsval) : string :=
  match v with
  | JStr s => s
  | JNum n => show n
  | _ => EmptyString
  end.
Definition stringify (v : jsval) : string :=
  text_of (prop "balance" v) +:+ "|" +:+ text_of (prop "timestamp" v) +:+ "|"
    +:+ text_of (prop "integrityHash" v) +:+ "|"
    +:+ text_of (prop "deviceFingerprint" v).

Fixpoint split_bar (s : string) (cur : string) : list string :=
  match s with
  | EmptyString => [cur]
  | String c rest =>
      if Ascii.eqb c "|"%char then cur :: split_bar rest EmptyString
      else split_bar rest (cur +:+ String c EmptyString)
  end.

Fixpoint digits (s : string) (acc : Z) : option Z :=
  match s with
  | EmptyString => Some acc
  | String c rest =>
      let d := Z.of_N (N_of_ascii c) - 48 in
      if (0 <=? d) && (d <=? 9) then digits rest (10 * acc + d) else None
  end.
Definition integer (s : string) : option Z :=
  match s with
  | EmptyString => None
  | String "-" rest => option_map Z.opp (digits rest 0)
  | _ => digits s 0
  end.

Definition parse (s : string) : option jsval :=
  match split_bar s EmptyString with
  | [b; t; h; f] =>
      match integer b, integer t with
      | Some b', Some t' =>
          Some (JObj [("balance", JNum b'); ("timestamp", JNum t');
                      ("integrityHash", JStr h); ("deviceFingerprint", JStr f)])
      | _, _ => None
      end
  | _ => None
  end.

#[export] Instance browser : Platform := {|
  sha256 := digest;
  utf8_encode := bytes_of_string;
  utf8_decode := string_of_bytes;
  pbkdf2_aes_key := fun password salt iterations bits => password ++ salt;
  aes_gcm_encrypt := seal;
  aes_gcm_decrypt := unseal;
  JSON_stringify := stringify;
  JSON_parse := parse;
  typed_array_coerce := fun _ => Ok [];
  toISOString := show
|}.

Definition laptop : DeviceSignals :=
  {| screen_width := 1920; screen_height := 1080; screen_colorDepth := 24;
     timeZone := "Europe/Paris"; language := "fr-FR"; platform := "Linux x86_64";
     userAgent := "Mozilla/5.0"; canvasDataURL := Some "data:image/png;base64,AAAA" |}.

Definition quiet : Env :=
  {| device := laptop; io := [];
     clock := [1000; 2000; 3000; 4000; 5000; 6000; 7000; 8000; 9000; 10000];
     rng := [1; 2; 3; 4; 5; 6; 7; 8; 9; 10; 11; 12; 3735928559; 43981; 0;
             4294967295; 4294967296; 17; 5; 6; 7; 8; 9; 10; 11; 12; 13; 14; 15];
     confirms := []; calls := []; persist := None |}.

Definition no_security : Security :=
  {| cryptoKey := None; sec_deviceFingerprint := None |}.

(** [new CreditManager()] on an origin with an empty database. *)
Definition fresh : World :=
  {| manager :=
       {| storage := {| db := false; st_security := no_security |};
          security := no_security;
          currentBalance := 0;
          deviceFingerprint := None;
          isInitialized := false;
          balanceChangeListeners := [] |};
     disk := {| credits := ∅; transactions := []; next_tx_id := 1;
                creditSettings := ∅; backupCodes := ∅ |};
     env := quiet;
     ui := [] |}.

(** The world after [initialize()]. *)
Definition ready : World := world_of (CreditManager.initialize fresh).

(** The world after [initialize()] and [addCredits(b)]. *)
Definition funded (b : Z) : World :=
  world_of (CreditManager.addCredits b "purchase" (JObj []) ready).

(** The world after [initialize()] and [generateBackupCodes()]; the
    first code stored is [DEADBEEF0000ABCD]. *)
Definition coded : World := world_of (CreditManager.generateBackupCodes ready).

(** The world after [storage.init()] alone: an open, empty database. *)
Definition opened : World := world_of (CreditStorage.init fresh).

Definition nonce : list Z := [1; 2; 3; 4; 5; 6; 7; 8; 9; 10; 11; 12].

Definition store_data (iv encrypted : list Z) (w : World) : World :=
  update_disk (set_credits
    (<["main" := {| cr_data := JObj [("encrypted", CreditSecurity.byte_array encrypted);
                                     ("iv", CreditSecurity.byte_array iv)];
                    cr_deviceFingerprint := deviceFingerprint (manager w);
                    cr_timestamp := 1000 |}]> ∅)) w.

(** [ready], with the stored ciphertext overwritten by four bytes. *)
Definition garbage : list Z := [0; 1; 2; 3].
Definition corrupted : World := store_data nonce garbage ready.

(** [ready], with stored data whose [iv] is a negative number. *)
Definition malformed : World :=
  update_disk (set_credits
    (<["main" := {| cr_data := JObj [("encrypted", JArr []); ("iv", JNum (-1))];
                    cr_deviceFingerprint := deviceFingerprint (manager ready);
                    cr_timestamp := 1000 |}]> ∅)) ready.

(** [ready], with a record sealed under the device key that claims 999
    credits and carries a hash that was not computed from it. *)
Definition forged_text : list Z := bytes_of_string "999|1000|00000000|a697b407".
Definition forged_ciphertext : list Z := seal (key_of OfStorage ready) nonce forged_text.
Definition forged : World := store_data nonce forged_ciphertext ready.

Definition with_io (script : list bool) (w : World) : World :=
  update_env (set_io script) w.
Definition with_calls (script : list (outcome jsval)) (w : World) : World :=
  update_env (set_calls script) w.
Definition with_confirms (script : list (outcome bool)) (w : World) : World :=
  update_env (set_confirms script) w.

End Model.

(* ===================================================================== *)
(** ** Vocabulary of the further properties *)
(* ===================================================================== *)

(** The bytes that a string of pairs of hexadecimal digits denotes. *)
Fixpoint bytes_of_hex (s : string) : list Z :=
  match s with
  | String a (String b rest) => (16 * digit_value a + digit_value b) :: bytes_of_hex rest
  | _ => []
  end.

(** The two digits of a byte denote it; checked on each of the 256 bytes. *)
Definition hex_pair_ok (n : nat) : bool :=
  match padStart0 2 (toString16 (Z.of_nat n)) with
  | String a (String b EmptyString) =>
      (16 * digit_value a + digit_value b =? Z.of_nat n) && is_af09 a && is_af09 b
  | _ => false
  end.

(** A backup code that is stored and has not been used. *)
Definition stored_unused (code : string) (w : World) : Prop :=
  exists record, backupCodes (disk w) !! code = Some record /\ bc_used record = false.

Definition keeps_unused (code : string) (w w' : World) : Prop :=
  stored_unused code w -> stored_unused code w'.

(** The database handle is the same in both worlds. *)
Definition db_kept (w w' : World) : Prop :=
  db (storage (manager w')) = db (storage (manager w)).

(** [a] is at least as recent as [b]. *)
Definition not_older (a b : Transaction) : Prop := tx_timestamp b <= tx_timestamp a.

(** Each record of a log comes, in the order of the index [timestamp],
    before the records that were logged after it. *)
Definition chronological (log : list Transaction) : Prop :=
  StronglySorted (fun a b => CreditStorage.newer b a = true) log.

(** A computation that settles in every world. *)
Definition settles {A} (m : M A) : Prop := forall w, result_of (m w) <> Pending.

(** A computation that succeeds in every world. *)
Definition succeeds {A} (m : M A) : Prop := forall w, exists a, result_of (m w) = Ok a.

(** The balance in memory, the log and its key generator are the same in
    both worlds. *)
Definition ledger_kept (w w' : World) : Prop :=
  (currentBalance (manager w'), transactions (disk w'), next_tx_id (disk w'))
  = (currentBalance (manager w), transactions (disk w), next_tx_id (disk w)).

(** What the totals of the history modal amount to: credits purchased
    less credits used. *)
Definition net_purchased (log : list Transaction) : Z :=
  CreditUI.totalPurchased (CreditUI.calculateHistoryStats log)
  - CreditUI.totalUsed (CreditUI.calculateHistoryStats log).

(** The part of the balance in memory that the log does not account for. *)
Definition unaccounted (w : World) : Z :=
  currentBalance (manager w) - net_purchased (transactions (disk w)).

Definition accounted (w w' : World) : Prop := unaccounted w' = unaccounted w.


(** The operations that charge or credit the balance. *)
Definition metered (o : Operation) : Prop :=
  match o with
  | DeductCredits _ _ _ | AddCredits _ _ _ => True
  | PurchaseCredits packageKey _ => catalog_key packageKey
  | ResetCredits _ | ClearAllData => False
  end.

(** The keys of the log increase along it and lie below the next key that
    the store will generate. *)
Definition log_ordered (w : World) : Prop :=
  StronglySorted Z.lt (map tx_id (transactions (disk w))) /\
  Forall (fun t => tx_id t < next_tx_id (disk w)) (transactions (disk w)).

Definition keeps_log_ordered (w w' : World) : Prop := log_ordered w -> log_ordered w'.

(** [m] adds one record of the given type and amount to the log when it
    succeeds, none when it fails, and leaves the balance in memory alone. *)
Definition logs_once {A} (type : string) (amount : Z) (m : M A) : Prop :=
  forall w,
    currentBalance (manager (world_of (m w))) = currentBalance (manager w) /\
    match result_of (m w) with
    | Ok _ =>
        exists t, transactions (disk (world_of (m w))) = transactions (disk w) ++ [t] /\
                  tx_type t = type /\ tx_amount t = amount /\
                  tx_id t = next_tx_id (disk w) /\
                  next_tx_id (disk (world_of (m w))) = next_tx_id (disk w) + 1
    | Throw _ => transactions (disk (world_of (m w))) = transactions (disk w) /\
                 next_tx_id (disk (world_of (m w))) = next_tx_id (disk w)
    | Pending => False
    end.

(** The calls that [notifyBalanceChange] makes in [w]: each registered
    listener once, in the order of registration, with the balance. *)
Definition notifications (w : World) : list UiEvent :=
  map (fun l => Notified (listener_id l) (currentBalance (manager w)))
      (balanceChangeListeners (manager w)).

(** The database after the four clear requests of [clearAllData] were
    answered by [a1] to [a4]: a store is emptied when its request succeeds. *)
Definition cleared (a1 a2 a3 a4 : bool) (d : Database) : Database :=
  {| credits := if a1 then ∅ else credits d;
     transactions := if a2 then [] else transactions d;
     next_tx_id := next_tx_id d;
     creditSettings := if a3 then ∅ else creditSettings d;
     backupCodes := if a4 then ∅ else backupCodes d |}.

Section FurtherVocabulary.
Context `{Platform}.

(** The record that [logTransaction] adds in [w]. *)
Definition logged (type : string) (amount : Z) (operation : string) (metadata : jsval)
           (w : World) : Transaction :=
  {| tx_id := next_tx_id (disk w); tx_type := type; tx_amount := amount;
     tx_operation := operation; tx_metadata := metadata;
     tx_timestamp := hd 0 (clock (env w));
     tx_deviceFingerprint := fingerprint_of OfStorage w |}.

End FurtherVocabulary.

(** The world after [initialize()], [addCredits(10)] and
    [deductCredits(7, 'translate')]: two records in the log. *)
Definition spent : World :=
  world_of (@CreditManager.deductCredits Model.browser 7 "translate" (JObj [])
              (Model.funded 10)).


(** A computation that does not reject. *)
Definition never_rejects {A} (m : M A) : Prop := forall w e, result_of (m w) <> Throw e.

(** The scripts of the user's answers and of the application function are
    the same in both worlds: nothing was asked and nothing was invoked. *)
Definition scripts_kept (w w' : World) : Prop :=
  (calls (env w'), confirms (env w')) = (calls (env w), confirms (env w)).

(** What a computation throws is an error with a message. *)
Definition throws_errors {A} (m : M A) : Prop :=
  forall w w', m w <> (Throw ExnUndefined, w').

(* ===================================================================== *)
(** * Properties *)
(* ===================================================================== *)

(** ** The string primitives on examples *)

Example toString16_255 : toString16 255 = "ff".
Proof. reflexivity. Qed.
Example toString16_0 : toString16 0 = "0".
Proof. reflexivity. Qed.
Example toString16_max : toString16 4294967295 = "ffffffff".
Proof. reflexivity. Qed.
Example padStart0_short : padStart0 8 (toString16 2748) = "00000abc".
Proof. reflexivity. Qed.
Example includes_credits :
  includes "Insufficient credits. Required: 7, Available: 3" "credits" = true.
Proof. reflexivity. Qed.
Example show_neg : show (-5) = "-5".
Proof. reflexivity. Qed.

Lemma take_substring (n : nat) (s : string) : take n s = substring 0 n s.
Proof.
  revert s. induction n as [|n IH]; intros [|c s]; simpl; try reflexivity.
  now rewrite IH.
Qed.

Lemma prefix_spec (p s : string) :
  prefix p s = true <-> exists t, s = p +:+ t.
Proof.
  revert s. induction p as [|a p IH]; intros s; simpl.
  - split; [intros _; now exists s | reflexivity].
  - destruct s as [|b s]; [split; [discriminate | intros [t Ht]; discriminate]|].
    rewrite andb_true_iff, IH. split.
    + intros [Hab [t ->]]. apply Ascii.eqb_eq in Hab as ->. now exists t.
    + intros [t [= -> ->]]. split; [apply Ascii.eqb_refl | now exists t].
Qed.

(** [includes] is containment as a substring. *)
Lemma includes_spec (s sub : string) :
  includes s sub = true <-> exists before after, s = before +:+ sub +:+ after.
Proof.
  induction s as [|c s IH]; simpl.
  - rewrite orb_false_r, prefix_spec. split.
    + intros [t Ht]. now exists EmptyString, t.
    + intros ([|b before] & after & Hs); [now exists after | discriminate].
  - rewrite orb_true_iff, prefix_spec, IH. split.
    + intros [[t Ht] | (before & after & ->)].
      * now exists EmptyString, t.
      * now exists (String c before), after.
    + intros ([|b before] & after & Hs).
      * left. now exists after.
      * right. injection Hs as -> ->. now exists before, after.
Qed.

(** ** Equations of the monad

    Each equation is used by rewriting, so that no proof depends on how far
    a computation unfolds. *)

Lemma bind_ok {A B} (m : M A) (k : A -> M B) w a w' :
  m w = (Ok a, w') -> bind m k w = k a w'.
Proof. intros E. unfold bind. now rewrite E. Qed.

Lemma bind_throw {A B} (m : M A) (k : A -> M B) w e w' :
  m w = (Throw e, w') -> bind m k w = (Throw e, w').
Proof. intros E. unfold bind. now rewrite E. Qed.

Lemma bind_pending {A B} (m : M A) (k : A -> M B) w w' :
  m w = (Pending, w') -> bind m k w = (Pending, w').
Proof. intros E. unfold bind. now rewrite E. Qed.

Lemma bind_ok_inv {A B} (m : M A) (k : A -> M B) w b w' :
  bind m k w = (Ok b, w') ->
  exists a w1, m w = (Ok a, w1) /\ k a w1 = (Ok b, w').
Proof.
  unfold bind. destruct (m w) as [[a|e|] w1]; intros E; try discriminate.
  now exists a, w1.
Qed.

Lemma try_catch_ok {A} (m : M A) (h : exn -> M A) w a w' :
  m w = (Ok a, w') -> try_catch m h w = (Ok a, w').
Proof. intros E. unfold try_catch. now rewrite E. Qed.

Lemma try_catch_throw {A} (m : M A) (h : exn -> M A) w e w' :
  m w = (Throw e, w') -> try_catch m h w = h e w'.
Proof. intros E. unfold try_catch. now rewrite E. Qed.

Lemma try_catch_pending {A} (m : M A) (h : exn -> M A) w w' :
  m w = (Pending, w') -> try_catch m h w = (Pending, w').
Proof. intros E. unfold try_catch. now rewrite E. Qed.

(** A [catch] block that rethrows lets nothing else through. *)
Lemma try_catch_rethrow {A} (m : M A) w :
  try_catch m (fun error => throw error) w = m w.
Proof. unfold try_catch, throw. now destruct (m w) as [[a|e|] w1]. Qed.

(** ** Hexadecimal printing *)

Lemma length_append (s t : string) :
  String.length (s +:+ t) = (String.length s + String.length t)%nat.
Proof. induction s as [|c s IH]; simpl; [reflexivity | now rewrite IH]. Qed.

Lemma string_forallb_append p (s t : string) :
  string_forallb p (s +:+ t) = string_forallb p s && string_forallb p t.
Proof.
  induction s as [|c s IH]; simpl; [reflexivity|].
  now rewrite IH, andb_assoc.
Qed.

Lemma hex_digit_af09 (n : Z) : is_af09 (hex_digit (n mod 16)) = true.
Proof.
  assert (Hr : 0 <= n mod 16 < 16) by (apply Z.mod_pos_bound; lia).
  assert (Hc : n mod 16 = 0 \/ n mod 16 = 1 \/ n mod 16 = 2 \/ n mod 16 = 3 \/
               n mod 16 = 4 \/ n mod 16 = 5 \/ n mod 16 = 6 \/ n mod 16 = 7 \/
               n mod 16 = 8 \/ n mod 16 = 9 \/ n mod 16 = 10 \/ n mod 16 = 11 \/
               n mod 16 = 12 \/ n mod 16 = 13 \/ n mod 16 = 14 \/ n mod 16 = 15)
    by lia.
  repeat (destruct Hc as [Hc | Hc]; [rewrite Hc; reflexivity|]).
  rewrite Hc; reflexivity.
Qed.

Lemma toString16_go_af09 fuel : forall n acc,
  string_forallb is_af09 acc = true ->
  string_forallb is_af09 (toString16_go fuel n acc) = true.
Proof.
  induction fuel as [|fuel IH]; intros n acc Hacc; simpl; [exact Hacc|].
  assert (Hacc' : string_forallb is_af09 (String (hex_digit (n mod 16)) acc) = true)
    by (simpl; now rewrite hex_digit_af09).
  destruct (n / 16 =? 0); [exact Hacc' | now apply IH].
Qed.

Lemma toString16_go_length fuel : forall (k : nat) n acc,
  (1 <= k)%nat -> 0 <= n < 16 ^ Z.of_nat k ->
  (String.length (toString16_go fuel n acc) <= String.length acc + k)%nat.
Proof.
  induction fuel as [|fuel IH]; intros k n acc Hk Hn; simpl; [lia|].
  destruct (Z.eqb_spec (n / 16) 0) as [Hq|Hq]; simpl; [lia|].
  destruct k as [|[|k]]; [lia | |].
  - exfalso. apply Hq. apply Z.div_small. simpl in Hn. lia.
  - specialize (IH (S k) (n / 16) (String (hex_digit (n mod 16)) acc)).
    simpl String.length in IH.
    assert (Hb : 0 <= n / 16 < 16 ^ Z.of_nat (S k)).
    { split; [apply Z.div_pos; lia|].
      apply Z.div_lt_upper_bound; [lia|].
      replace (Z.of_nat (S (S k))) with (1 + Z.of_nat (S k)) in Hn by lia.
      rewrite Z.pow_add_r in Hn by lia. simpl (16 ^ 1) in Hn. lia. }
    assert (Hk' : (1 <= S k)%nat) by lia.
    specialize (IH Hk' Hb). lia.
Qed.

Lemma digit_value_hex_digit (d : Z) : 0 <= d < 16 -> digit_value (hex_digit d) = d.
Proof.
  intros Hd.
  assert (Hc : d = 0 \/ d = 1 \/ d = 2 \/ d = 3 \/ d = 4 \/ d = 5 \/ d = 6 \/ d = 7 \/
               d = 8 \/ d = 9 \/ d = 10 \/ d = 11 \/ d = 12 \/ d = 13 \/ d = 14 \/ d = 15)
    by lia.
  repeat (destruct Hc as [-> | Hc]; [reflexivity|]).
  subst d. reflexivity.
Qed.

Lemma toString16_go_value (fuel : nat) : forall n acc,
  0 <= n < 16 ^ Z.of_nat fuel ->
  hex_value (toString16_go fuel n acc) 0 = hex_value acc n.
Proof.
  induction fuel as [|fuel IH]; intros n acc Hn.
  - simpl in *. now replace n with 0 by lia.
  - assert (Hm : 0 <= n mod 16 < 16) by (apply Z.mod_pos_bound; lia).
    pose proof (Z.div_mod n 16 ltac:(lia)) as Hdm.
    simpl toString16_go.
    destruct (Z.eqb_spec (n / 16) 0) as [Hq|Hq].
    + simpl. rewrite digit_value_hex_digit by exact Hm.
      f_equal. lia.
    + rewrite IH.
      * simpl. rewrite digit_value_hex_digit by exact Hm. f_equal. lia.
      * split; [apply Z.div_pos; lia|].
        apply Z.div_lt_upper_bound; [lia|].
        replace (Z.of_nat (S fuel)) with (1 + Z.of_nat fuel) in Hn by lia.
        rewrite Z.pow_add_r in Hn by lia. simpl (16 ^ 1) in Hn. lia.
Qed.

(** [toString16] prints the whole number: its fuel is never what stops it. *)
Lemma toString16_value (n : Z) : 0 <= n -> hex_value (toString16 n) 0 = n.
Proof.
  intros Hn. unfold toString16. rewrite toString16_go_value; [reflexivity|].
  split; [exact Hn|].
  destruct (Z.eq_dec n 0) as [->|Hnz]; [reflexivity|].
  pose proof (Z.log2_spec n ltac:(lia)) as [_ Hlt].
  pose proof (Z.log2_nonneg n) as Hl.
  replace (Z.of_nat (S (Z.to_nat (Z.log2 n)))) with (Z.succ (Z.log2 n)) by lia.
  eapply Z.lt_le_trans; [exact Hlt|].
  apply Z.pow_le_mono_l. lia.
Qed.

Lemma toString16_af09 (n : Z) : string_forallb is_af09 (toString16 n) = true.
Proof. unfold toString16. now apply toString16_go_af09. Qed.

Lemma toString16_word_length (n : Z) :
  0 <= n < 4294967296 -> (String.length (toString16 n) <= 8)%nat.
Proof.
  intros Hn. unfold toString16.
  assert (Hb : 0 <= n < 16 ^ Z.of_nat 8)
    by (change (16 ^ Z.of_nat 8) with 4294967296; exact Hn).
  assert (Hk : (1 <= 8)%nat) by lia.
  pose proof (toString16_go_length (S (Z.to_nat (Z.log2 n))) 8 n EmptyString
                Hk Hb) as Hl.
  exact Hl.
Qed.

Lemma length_zeros (n : nat) : String.length (zeros n) = n.
Proof. induction n; simpl; congruence. Qed.

Lemma zeros_af09 (n : nat) : string_forallb is_af09 (zeros n) = true.
Proof. induction n; simpl; [reflexivity | exact IHn]. Qed.

Lemma padStart0_length (width : nat) (s : string) :
  (String.length s <= width)%nat -> String.length (padStart0 width s) = width.
Proof. intros Hs. unfold padStart0. rewrite length_append, length_zeros. lia. Qed.

Lemma padStart0_af09 (width : nat) (s : string) :
  string_forallb is_af09 s = true ->
  string_forallb is_af09 (padStart0 width s) = true.
Proof.
  intros Hs. unfold padStart0.
  now rewrite string_forallb_append, zeros_af09, Hs.
Qed.

Lemma length_take (n : nat) : forall s,
  (n <= String.length s)%nat -> String.length (take n s) = n.
Proof.
  induction n as [|n IH]; intros [|c s] Hs; simpl in *; try lia.
  now rewrite IH by lia.
Qed.

Lemma take_forallb p (n : nat) : forall s,
  string_forallb p s = true -> string_forallb p (take n s) = true.
Proof.
  induction n as [|n IH]; intros [|c s] Hs; simpl in *; try reflexivity.
  apply andb_true_iff in Hs as [Hc Hs]. now rewrite Hc, IH.
Qed.

Lemma length_toUpperCase (s : string) :
  String.length (toUpperCase s) = String.length s.
Proof. induction s; simpl; congruence. Qed.

Lemma upper_ascii_hex (c : ascii) : is_af09 c = true -> is_AF09 (upper_ascii c) = true.
Proof.
  destruct c as [[] [] [] [] [] [] [] []]; vm_compute; congruence.
Qed.

Lemma toUpperCase_hex (s : string) :
  string_forallb is_af09 s = true -> string_forallb is_AF09 (toUpperCase s) = true.
Proof.
  induction s as [|c s IH]; simpl; [reflexivity|].
  intros Hs. apply andb_true_iff in Hs as [Hc Hs].
  now rewrite (upper_ascii_hex c Hc), IH.
Qed.

Lemma wrap32_range (n : Z) : 0 <= wrap32 n < 4294967296.
Proof. unfold wrap32. apply Z.mod_pos_bound. lia. Qed.

Lemma wrap8_range (n : Z) : 0 <= wrap8 n < 256.
Proof. unfold wrap8. apply Z.mod_pos_bound. lia. Qed.

Lemma upper_ascii_AF09 (c : ascii) : is_AF09 c = true -> upper_ascii c = c.
Proof.
  destruct c as [[] [] [] [] [] [] [] []]; vm_compute; congruence.
Qed.

(** A code of the shape [^[A-F0-9]{16}$] is its own upper-case form: the
    codes that [generateBackupCodes] stores are found under the key that
    [useBackupCode] looks up. *)
Lemma toUpperCase_backup_code (code : string) :
  matches_backup_code code = true -> toUpperCase code = code.
Proof.
  unfold matches_backup_code. intros Hm. apply andb_true_iff in Hm as [_ Hall].
  induction code as [|c code IH]; simpl in *; [reflexivity|].
  apply andb_true_iff in Hall as [Hc Hall].
  now rewrite (upper_ascii_AF09 c Hc), IH.
Qed.

(** A code built from three 32-bit words has the shape of a backup code. *)
Lemma backup_code_of_words (a b c : Z) :
  0 <= a < 4294967296 -> 0 <= b < 4294967296 -> 0 <= c < 4294967296 ->
  matches_backup_code (CreditSecurity.backup_code_of [a; b; c]) = true.
Proof.
  intros Ha Hb Hc. unfold CreditSecurity.backup_code_of. simpl fold_left.
  set (pa := padStart0 8 (toString16 a)).
  set (pb := padStart0 8 (toString16 b)).
  set (pc := padStart0 8 (toString16 c)).
  assert (La : String.length pa = 8%nat)
    by (apply padStart0_length; now apply toString16_word_length).
  assert (Lb : String.length pb = 8%nat)
    by (apply padStart0_length; now apply toString16_word_length).
  assert (Lc : String.length pc = 8%nat)
    by (apply padStart0_length; now apply toString16_word_length).
  assert (Fa : string_forallb is_af09 pa = true)
    by (apply padStart0_af09, toString16_af09).
  assert (Fb : string_forallb is_af09 pb = true)
    by (apply padStart0_af09, toString16_af09).
  assert (Fc : string_forallb is_af09 pc = true)
    by (apply padStart0_af09, toString16_af09).
  unfold matches_backup_code. apply andb_true_iff. split.
  - apply Nat.eqb_eq. rewrite length_toUpperCase, length_take; [reflexivity|].
    rewrite !length_append. simpl. lia.
  - apply toUpperCase_hex, take_forallb.
    rewrite !string_forallb_append. simpl. now rewrite Fa, Fb, Fc.
Qed.

(** ** Reading the scripts *)

Lemma requests_succeed_head (n : nat) (w : World) :
  requests_succeed (S n) w -> hd true (io (env w)) = true.
Proof.
  unfold requests_succeed. destruct (io (env w)) as [|b rest]; simpl; [reflexivity|].
  intros Hs. now apply andb_true_iff in Hs.
Qed.

Lemma requests_succeed_tail (n : nat) (w w' : World) :
  io (env w') = tl (io (env w)) ->
  requests_succeed (S n) w -> requests_succeed n w'.
Proof.
  unfold requests_succeed. intros ->.
  destruct (io (env w)) as [|b rest]; simpl.
  - now destruct n.
  - intros Hs. now apply andb_true_iff in Hs.
Qed.

Lemma requests_succeed_same (n : nat) (w w' : World) :
  io (env w') = io (env w) -> requests_succeed n w -> requests_succeed n w'.
Proof. unfold requests_succeed. now intros ->. Qed.

Lemma requests_succeed_fewer (n : nat) (w : World) :
  requests_succeed (S n) w -> requests_succeed n w.
Proof.
  unfold requests_succeed. revert n. generalize (io (env w)).
  induction l as [|b rest IH]; intros [|n]; simpl; try reflexivity.
  intros Hs. apply andb_true_iff in Hs as [-> Hs]. simpl. now apply IH.
Qed.

Lemma idb_request_ok (n : nat) (w : World) :
  requests_succeed (S n) w ->
  idb_request w = (Ok true, update_env (fun e => set_io (tl (io e)) e) w).
Proof.
  intros Hs. unfold idb_request. now rewrite (requests_succeed_head n w Hs).
Qed.

(** ** C9: backup codes *)

Section BackupCodes.

Lemma generateBackupCodes_total (n : nat) : forall w,
  exists codes w',
    CreditSecurity.generateBackupCodes n w = (Ok codes, w') /\
    length codes = n /\
    Forall well_formed_code codes /\
    same_state w w' /\ io (env w') = io (env w).
Proof.
  induction n as [|n IH]; intros w.
  - exists [], w. repeat split; constructor.
  - set (w1 := world_of (getRandomValues wrap32 3 w)).
    destruct (IH w1) as (codes & w' & Hrun & Hlen & Hall & (Hm & Hd & Hu) & Hio).
    eexists (_ :: codes), w'.
    split; [|split; [|split; [|split]]].
    + change (CreditSecurity.generateBackupCodes (S n) w)
        with (bind (CreditSecurity.generateBackupCodes n)
                (fun codes0 => ret (CreditSecurity.backup_code_of
                   [wrap32 (hd 0 (rng (env w)));
                    wrap32 (hd 0 (tl (rng (env w))));
                    wrap32 (hd 0 (tl (tl (rng (env w)))))] :: codes0)) w1).
      rewrite (bind_ok _ _ _ _ _ Hrun). reflexivity.
    + simpl. now rewrite Hlen.
    + constructor; [|exact Hall].
      apply backup_code_of_words; apply wrap32_range.
    + repeat split; [rewrite <- Hm | rewrite <- Hd | rewrite <- Hu]; reflexivity.
    + rewrite Hio. reflexivity.
Qed.

Lemma put_backup_codes_ok (codes : list string) : forall w,
  requests_succeed (length codes) w ->
  exists w', CreditStorage.put_backup_codes codes w = (Ok true, w').
Proof.
  induction codes as [|code rest IH]; intros w Hs.
  - now exists w.
  - simpl length in Hs.
    set (w0 := update_env (fun e => set_clock (tl (clock e)) e) w).
    assert (Hs0 : requests_succeed (S (length rest)) w0)
      by (apply (requests_succeed_same _ w); [reflexivity | exact Hs]).
    pose proof (idb_request_ok _ _ Hs0) as Hreq.
    set (w1 := update_env (fun e => set_io (tl (io e)) e) w0) in Hreq.
    set (w2 := update_disk (fun d =>
                 set_backupCodes
                   (<[code := {| bc_created := hd 0 (clock (env w));
                                 bc_used := false; bc_usedAt := None |}]>
                      (backupCodes d)) d) w1).
    assert (Hput : CreditStorage.put_backup_code code w = (Ok true, w2)).
    { unfold CreditStorage.put_backup_code.
      change (bind Date_now ?k w) with (k (hd 0 (clock (env w))) w0).
      cbv beta. rewrite (bind_ok _ _ _ _ _ Hreq). reflexivity. }
    destruct (IH w2) as [w' Hrest].
    { apply (requests_succeed_tail _ w0); [reflexivity | exact Hs0]. }
    exists w'. simpl.
    rewrite (bind_ok _ _ _ _ _ Hput), (bind_ok _ _ _ _ _ Hrest). reflexivity.
Qed.

Lemma getStore_open (w : World) :
  db (storage (manager w)) = true -> CreditStorage.getStore w = (Ok tt, w).
Proof.
  intros Hdb. unfold CreditStorage.getStore, bind, gets. now rewrite Hdb.
Qed.

Lemma getStore_closed (w : World) :
  db (storage (manager w)) = false ->
  CreditStorage.getStore w = (Throw (Error "Database not initialized"), w).
Proof.
  intros Hdb. unfold CreditStorage.getStore, bind, gets. now rewrite Hdb.
Qed.

Lemma manager_generateBackupCodes_eq (w : World) :
  CreditManager.generateBackupCodes w =
  bind (CreditSecurity.generateBackupCodes 5)
       (fun codes => bind (CreditStorage.saveBackupCodes codes) (fun _ => ret codes)) w.
Proof. reflexivity. Qed.

Lemma saveBackupCodes_eq (codes : list string) (w : World) :
  CreditStorage.saveBackupCodes codes w =
  bind CreditStorage.getStore
       (fun _ => bind (CreditStorage.put_backup_codes codes)
                   (fun all_ok => if all_ok then ret tt else throw ExnUndefined)) w.
Proof. reflexivity. Qed.

(** C9. [generateBackupCodes(n)] of the crypto provider returns exactly
    [n] codes, each matching [^[A-F0-9]{16}$]; the manager's
    [generateBackupCodes()] returns five such codes: whenever it returns,
    and it does return when the database is open and the five writes of
    the codes succeed. *)
Theorem generateBackupCodes_well_formed :
  (forall (n : nat) (w : World),
      exists codes w',
        CreditSecurity.generateBackupCodes n w = (Ok codes, w') /\
        length codes = n /\ Forall well_formed_code codes) /\
  (forall (w : World) codes w',
      CreditManager.generateBackupCodes w = (Ok codes, w') ->
      length codes = 5%nat /\ Forall well_formed_code codes) /\
  (forall w : World,
      db (storage (manager w)) = true -> requests_succeed 5 w ->
      exists codes w',
        CreditManager.generateBackupCodes w = (Ok codes, w') /\
        length codes = 5%nat /\ Forall well_formed_code codes).
Proof.
  split; [|split].
  - intros n w.
    destruct (generateBackupCodes_total n w) as (codes & w' & Hrun & Hlen & Hall & _).
    now exists codes, w'.
  - intros w codes w' Hrun.
    destruct (generateBackupCodes_total 5 w) as (codes0 & w0 & Hgen & Hlen & Hall & _).
    rewrite manager_generateBackupCodes_eq, (bind_ok _ _ _ _ _ Hgen) in Hrun.
    destruct (CreditStorage.saveBackupCodes codes0 w0) as [[[]|e|] w1] eqn:Hsave.
    + rewrite (bind_ok _ _ _ _ _ Hsave) in Hrun.
      injection Hrun as <- _. now split.
    + rewrite (bind_throw _ _ _ _ _ Hsave) in Hrun. discriminate.
    + rewrite (bind_pending _ _ _ _ Hsave) in Hrun. discriminate.
  - intros w Hdb Hs.
    destruct (generateBackupCodes_total 5 w)
      as (codes & w0 & Hgen & Hlen & Hall & (Hm & _) & Hio).
    assert (Hs0 : requests_succeed (length codes) w0)
      by (rewrite Hlen; now apply (requests_succeed_same _ w)).
    destruct (put_backup_codes_ok codes w0 Hs0) as [w1 Hput].
    exists codes, w1. split; [|now split].
    assert (Hdb0 : db (storage (manager w0)) = true) by now rewrite <- Hm.
    assert (Hsave : CreditStorage.saveBackupCodes codes w0 = (Ok tt, w1)).
    { rewrite saveBackupCodes_eq, (bind_ok _ _ _ _ _ (getStore_open w0 Hdb0)).
      now rewrite (bind_ok _ _ _ _ _ Hput). }
    rewrite manager_generateBackupCodes_eq, (bind_ok _ _ _ _ _ Hgen).
    now rewrite (bind_ok _ _ _ _ _ Hsave).
Qed.

End BackupCodes.

Lemma generateBackupCodes_well_formed_witness :
  exists codes w',
    CreditManager.generateBackupCodes Model.ready = (Ok codes, w') /\
    length codes = 5%nat /\ Forall well_formed_code codes.
Proof.
  apply (proj2 (proj2 generateBackupCodes_well_formed)).
  - vm_compute. reflexivity.
  - vm_compute. reflexivity.
Defined.

(** ** C4: a deduction that the balance does not cover *)

Section Insufficient.
Context `{Platform}.

Lemma hasSufficientCredits_eq (cost : Z) (w : World) :
  CreditManager.hasSufficientCredits cost w
  = (Ok (cost <=? currentBalance (manager w)), w).
Proof. reflexivity. Qed.

Lemma deductCredits_eq (cost : Z) (operation : string) (metadata : jsval) (w : World) :
  CreditManager.deductCredits cost operation metadata w =
  if cost <=? currentBalance (manager w)
  then
    try_catch
      (CreditManager.saveBalance;;
       let* newBalance := CreditManager.getBalance in
       let* _ := CreditStorage.logTransaction "deduction" cost operation
                   (JObj (assign (spread metadata)
                            [("previousBalance", JNum (currentBalance (manager w)));
                             ("newBalance", JNum newBalance)])) in
       CreditManager.notifyBalanceChange;;
       let* newBalance := CreditManager.getBalance in
       ret (JObj [("success", JBool true);
                  ("previousBalance", JNum (currentBalance (manager w)));
                  ("newBalance", JNum newBalance);
                  ("deducted", JNum cost)]))
      (fun error =>
         CreditManager.assign_balance (currentBalance (manager w));;
         CreditManager.rethrow_with "Failed to deduct credits" error)
      (update_manager (set_currentBalance (currentBalance (manager w) - cost)) w)
  else
    (Throw (Error ("Insufficient credits. Required: " +:+ show cost
                     +:+ ", Available: " +:+ show (currentBalance (manager w)))), w).
Proof.
  unfold CreditManager.deductCredits.
  rewrite (bind_ok _ _ _ _ _ (hasSufficientCredits_eq cost w)).
  now destruct (cost <=? currentBalance (manager w)).
Qed.

Lemma deductCredits_insufficient_unchanged cost operation metadata (w : World) :
  currentBalance (manager w) < cost ->
  CreditManager.deductCredits cost operation metadata w =
  (Throw (Error ("Insufficient credits. Required: " +:+ show cost
                   +:+ ", Available: " +:+ show (currentBalance (manager w)))), w).
Proof.
  intros Hlt. rewrite deductCredits_eq.
  destruct (Z.leb_spec cost (currentBalance (manager w))); [lia | reflexivity].
Qed.

(** C4. When [hasSufficientCredits(cost)] is false, [deductCredits]
    fails with the insufficiency error and the world it leaves is the
    world it found: same balance in memory, same stored record, no
    transaction added. *)
Theorem deductCredits_insufficient_no_change
        (cost : Z) (operation : string) (metadata : jsval) (w : World) :
  result_of (CreditManager.hasSufficientCredits cost w) = Ok false ->
  CreditManager.deductCredits cost operation metadata w =
  (Throw (Error ("Insufficient credits. Required: " +:+ show cost
                   +:+ ", Available: " +:+ show (currentBalance (manager w)))), w).
Proof.
  rewrite hasSufficientCredits_eq. unfold result_of. simpl fst.
  intros Hs. apply deductCredits_insufficient_unchanged.
  injection Hs as Hs. apply Z.leb_gt in Hs. exact Hs.
Qed.

End Insufficient.

Lemma deductCredits_insufficient_no_change_witness :
  let w := Model.funded 3 in
  currentBalance (manager w) = 3 /\
  @CreditManager.deductCredits Model.browser 7 "translate" (JObj []) w =
  (Throw (Error "Insufficient credits. Required: 7, Available: 3"), w).
Proof.
  intros w. split; [reflexivity|].
  apply (@deductCredits_insufficient_no_change Model.browser 7 "translate" (JObj []) w).
  vm_compute. reflexivity.
Defined.

(** ** C8: initializing twice *)

Section Initialize.
Context `{Platform}.

Lemma initialize_eq (w : World) :
  CreditManager.initialize w =
  if isInitialized (manager w) then (Ok tt, w)
  else
    (CreditStorage.init;;
     let* fingerprint := CreditSecurity.generateDeviceFingerprint OfManager in
     modify (update_manager (set_deviceFingerprint (Some fingerprint)));;
     CreditManager.loadBalance;;
     let* _ := CreditStorage.requestPersistentStorage in
     modify (update_manager (set_isInitialized true))) w.
Proof.
  unfold CreditManager.initialize.
  unfold bind at 1. unfold gets at 1.
  destruct (isInitialized (manager w)); [reflexivity|].
  apply try_catch_rethrow.
Qed.

Lemma initialize_when_initialized (w : World) :
  isInitialized (manager w) = true -> CreditManager.initialize w = (Ok tt, w).
Proof. intros Hi. rewrite initialize_eq. now rewrite Hi. Qed.

(** A successful [initialize()] leaves the flag set. *)
Lemma initialize_sets_flag (w w' : World) :
  CreditManager.initialize w = (Ok tt, w') -> isInitialized (manager w') = true.
Proof.
  rewrite initialize_eq.
  destruct (isInitialized (manager w)) eqn:Hi.
  - intros E. injection E as <-. exact Hi.
  - intros E.
    apply bind_ok_inv in E as (? & w1 & _ & E).
    apply bind_ok_inv in E as (? & w2 & _ & E).
    apply bind_ok_inv in E as (? & w3 & _ & E).
    apply bind_ok_inv in E as (? & w4 & _ & E).
    apply bind_ok_inv in E as (? & w5 & _ & E).
    unfold modify in E. injection E as <-. reflexivity.
Qed.

(** C8. After [initialize()] has completed, calling it again returns at
    once and leaves the world as it is: same balance, no storage request
    issued, nothing persisted a second time. *)
Theorem initialize_idempotent (w w' : World) :
  CreditManager.initialize w = (Ok tt, w') ->
  CreditManager.initialize w' = (Ok tt, w').
Proof.
  intros E. apply initialize_when_initialized.
  exact (initialize_sets_flag w w' E).
Qed.

End Initialize.

Lemma initialize_idempotent_witness :
  @CreditManager.initialize Model.browser Model.fresh = (Ok tt, Model.ready) /\
  @CreditManager.initialize Model.browser Model.ready = (Ok tt, Model.ready).
Proof.
  assert (E : @CreditManager.initialize Model.browser Model.fresh = (Ok tt, Model.ready))
    by (vm_compute; reflexivity).
  split; [exact E|].
  exact (@initialize_idempotent Model.browser Model.fresh Model.ready E).
Defined.

(** ** C10: the integrity hash and the stored fingerprint *)

Section Integrity.
Context `{Platform}.

Lemma createIntegrityHash_object (self : SecurityRef) fields (w : World) :
  CreditSecurity.createIntegrityHash self (JObj fields) w =
  (let* fingerprint := CreditSecurity.generateDeviceFingerprint self in
   ret (CreditSecurity.simpleHash
          (JSON_stringify (JObj [("balance", prop "balance" (JObj fields));
                                 ("deviceFingerprint", JStr fingerprint);
                                 ("timestamp", prop "timestamp" (JObj fields))])))) w.
Proof. reflexivity. Qed.

Lemma verifyIntegrity_eq (self : SecurityRef) creditData expectedHash (w : World) :
  CreditSecurity.verifyIntegrity self creditData expectedHash w =
  (let* currentHash := CreditSecurity.createIntegrityHash self creditData in
   ret (CreditSecurity.strict_eq_string currentHash expectedHash)) w.
Proof. reflexivity. Qed.

(** C10. [createIntegrityHash] and [verifyIntegrity] do not read the
    [deviceFingerprint] field of the record: on two records that differ
    only there they compute the same digest and the same verdict, the
    fingerprint hashed being the one of the running device. *)
Theorem integrity_ignores_stored_fingerprint
        (self : SecurityRef) (r1 r2 : jsval) (w : World) :
  differ_only_in_fingerprint r1 r2 ->
  CreditSecurity.createIntegrityHash self r1 w
  = CreditSecurity.createIntegrityHash self r2 w /\
  forall expectedHash,
    CreditSecurity.verifyIntegrity self r1 expectedHash w
    = CreditSecurity.verifyIntegrity self r2 expectedHash w.
Proof.
  intros (f1 & f2 & -> & -> & Hsame).
  assert (Hhash : CreditSecurity.createIntegrityHash self (JObj f1) w
                  = CreditSecurity.createIntegrityHash self (JObj f2) w).
  { rewrite !createIntegrityHash_object. unfold prop.
    rewrite (Hsame "balance") by discriminate.
    rewrite (Hsame "timestamp") by discriminate.
    reflexivity. }
  split; [exact Hhash|].
  intros expectedHash. rewrite !verifyIntegrity_eq.
  unfold bind. now rewrite Hhash.
Qed.

End Integrity.

Lemma integrity_ignores_stored_fingerprint_witness :
  let r1 := JObj [("balance", JNum 10); ("deviceFingerprint", JStr "a697b407");
                  ("timestamp", JNum 2000)] in
  let r2 := JObj [("balance", JNum 10); ("deviceFingerprint", JStr "another-device");
                  ("timestamp", JNum 2000)] in
  @CreditSecurity.createIntegrityHash Model.browser OfStorage r1 Model.ready
  = @CreditSecurity.createIntegrityHash Model.browser OfStorage r2 Model.ready /\
  forall expectedHash,
    @CreditSecurity.verifyIntegrity Model.browser OfStorage r1 expectedHash Model.ready
    = @CreditSecurity.verifyIntegrity Model.browser OfStorage r2 expectedHash Model.ready.
Proof.
  intros r1 r2.
  apply (@integrity_ignores_stored_fingerprint Model.browser OfStorage r1 r2 Model.ready).
  eexists _, _. split; [reflexivity | split; [reflexivity|]].
  intros k Hk. simpl.
  destruct (String.eqb_spec k "balance") as [->|_]; [reflexivity|].
  destruct (String.eqb_spec k "deviceFingerprint") as [->|_]; [contradiction|].
  reflexivity.
Defined.

(** ** C7: using a backup code *)

Section UseBackupCode.

Lemma useBackupCode_lookup (code : string) (w : World) :
  db (storage (manager w)) = true ->
  requests_succeed 1 w ->
  CreditStorage.useBackupCode code w =
  match backupCodes (disk w) !! toUpperCase code with
  | None => (Ok false, consume_request w)
  | Some record =>
      if bc_used record then (Ok false, consume_request w)
      else
        (let* usedAt := Date_now in
         let* ok := idb_request in
         if ok
         then modify (update_disk (fun d =>
                        set_backupCodes
                          (<[toUpperCase code := mark_used usedAt record]>
                             (backupCodes d)) d));;
              ret true
         else throw (Error "Failed to mark backup code as used"))
          (consume_request w)
  end.
Proof.
  intros Hdb Hs. unfold CreditStorage.useBackupCode.
  rewrite (bind_ok _ _ _ _ _ (getStore_open w Hdb)).
  rewrite (bind_ok _ _ _ _ _ (idb_request_ok 0 w Hs)).
  cbv beta. change (negb true) with false. cbv iota.
  unfold bind at 1. unfold gets at 1.
  change (disk (update_env (fun e => set_io (tl (io e)) e) w)) with (disk w).
  destruct (backupCodes (disk w) !! toUpperCase code) as [record|]; [|reflexivity].
  destruct (bc_used record); reflexivity.
Qed.

Lemma useBackupCode_absent (code : string) (w : World) :
  db (storage (manager w)) = true ->
  requests_succeed 1 w ->
  backupCodes (disk w) !! toUpperCase code = None ->
  CreditStorage.useBackupCode code w = (Ok false, consume_request w).
Proof. intros Hdb Hs Hl. rewrite useBackupCode_lookup by assumption. now rewrite Hl. Qed.

Lemma useBackupCode_used (code : string) (w : World) record :
  db (storage (manager w)) = true ->
  requests_succeed 1 w ->
  backupCodes (disk w) !! toUpperCase code = Some record ->
  bc_used record = true ->
  CreditStorage.useBackupCode code w = (Ok false, consume_request w).
Proof.
  intros Hdb Hs Hl Hu. rewrite useBackupCode_lookup by assumption.
  now rewrite Hl, Hu.
Qed.

Lemma useBackupCode_unused (code : string) (w : World) record :
  db (storage (manager w)) = true ->
  requests_succeed 2 w ->
  backupCodes (disk w) !! toUpperCase code = Some record ->
  bc_used record = false ->
  CreditStorage.useBackupCode code w = (Ok true, after_first_use code record w).
Proof.
  intros Hdb Hs Hl Hu.
  rewrite useBackupCode_lookup by (try apply requests_succeed_fewer; assumption).
  rewrite Hl, Hu.
  assert (Hs1 : requests_succeed 1 (consume_clock (consume_request w)))
    by (apply (requests_succeed_tail 1 w); [reflexivity | exact Hs]).
  change (bind Date_now ?k (consume_request w))
    with (k (hd 0 (clock (env w))) (consume_clock (consume_request w))).
  cbv beta.
  rewrite (bind_ok _ _ _ _ _ (idb_request_ok 0 _ Hs1)).
  reflexivity.
Qed.

(** C7. [useBackupCode(code)] looks the code up under its upper-case
    form. With the database open and its requests succeeding: on a stored,
    unused code it returns [true] and stores the record with [used] set
    and [usedAt] recorded, changing nothing else; a further attempt on
    that code returns [false]; so does any attempt on a used code and any
    attempt on an absent code, each without an exception and leaving
    manager, database and UI as they were. *)
Theorem useBackupCode_once (code : string) (w : World) :
  db (storage (manager w)) = true ->
  (forall record,
      backupCodes (disk w) !! toUpperCase code = Some record ->
      bc_used record = false ->
      requests_succeed 3 w ->
      exists w1 w2,
        CreditStorage.useBackupCode code w = (Ok true, w1) /\
        backupCodes (disk w1)
        = <[toUpperCase code := mark_used (hd 0 (clock (env w))) record]>
            (backupCodes (disk w)) /\
        credits (disk w1) = credits (disk w) /\
        transactions (disk w1) = transactions (disk w) /\
        creditSettings (disk w1) = creditSettings (disk w) /\
        manager w1 = manager w /\
        CreditStorage.useBackupCode code w1 = (Ok false, w2) /\
        same_state w1 w2) /\
  (forall record,
      backupCodes (disk w) !! toUpperCase code = Some record ->
      bc_used record = true ->
      requests_succeed 1 w ->
      exists w', CreditStorage.useBackupCode code w = (Ok false, w') /\ same_state w w') /\
  (backupCodes (disk w) !! toUpperCase code = None ->
   requests_succeed 1 w ->
   exists w', CreditStorage.useBackupCode code w = (Ok false, w') /\ same_state w w').
Proof.
  intros Hdb. split; [|split].
  - intros record Hl Hu Hs.
    set (w1 := after_first_use code record w).
    exists w1, (consume_request w1).
    assert (Hfirst : CreditStorage.useBackupCode code w = (Ok true, w1))
      by (apply useBackupCode_unused; try assumption;
          now apply requests_succeed_fewer).
    repeat split; try exact Hfirst.
    apply (useBackupCode_used code w1 (mark_used (hd 0 (clock (env w))) record)).
    + exact Hdb.
    + apply (requests_succeed_tail 1 (consume_clock (consume_request w)));
        [reflexivity|].
      apply (requests_succeed_tail 2 w); [reflexivity | exact Hs].
    + apply lookup_insert_eq.
    + reflexivity.
  - intros record Hl Hu Hs. exists (consume_request w).
    split; [now apply (useBackupCode_used code w record) | now repeat split].
  - intros Hl Hs. exists (consume_request w).
    split; [now apply useBackupCode_absent | now repeat split].
Qed.

End UseBackupCode.

Lemma useBackupCode_once_witness :
  exists w1 w2,
    CreditStorage.useBackupCode "deadbeef0000abcd" Model.coded = (Ok true, w1) /\
    backupCodes (disk w1) !! "DEADBEEF0000ABCD"
    = Some {| bc_created := 2000; bc_used := true; bc_usedAt := Some 7000 |} /\
    CreditStorage.useBackupCode "deadbeef0000abcd" w1 = (Ok false, w2) /\
    same_state w1 w2.
Proof.
  destruct (proj1 (useBackupCode_once "deadbeef0000abcd" Model.coded eq_refl)
              {| bc_created := 2000; bc_used := false; bc_usedAt := None |})
    as (w1 & w2 & Hfirst & Hcodes & _ & _ & _ & _ & Hsecond & Hsame).
  - vm_compute. reflexivity.
  - reflexivity.
  - vm_compute. reflexivity.
  - exists w1, w2. repeat split; try assumption; try apply Hsame.
    rewrite Hcodes. apply lookup_insert_eq.
Defined.

(** ** The caches of a security instance *)

Section Caches.
Context `{Platform}.

Lemma caches_only_refl (w : World) : caches_only w w.
Proof. now constructor. Qed.

Lemma caches_only_trans (w1 w2 w3 : World) :
  caches_only w1 w2 -> caches_only w2 w3 -> caches_only w1 w3.
Proof.
  intros [] []. constructor; congruence.
Qed.

Lemma cached_fingerprint_set (f : string) (s : Security) :
  CreditSecurity.cached_fingerprint (set_sec_deviceFingerprint (Some f) s)
  = if String.eqb f "" then None else Some f.
Proof. reflexivity. Qed.

Lemma cache_fingerprint_only (self : SecurityRef) (w : World) :
  caches_only w (cache_fingerprint self w).
Proof.
  unfold cache_fingerprint.
  destruct (CreditSecurity.cached_fingerprint (read_security self w)) eqn:Hc;
    [apply caches_only_refl|].
  assert (Hfp : forall self', fingerprint_of self'
      (write_security self
         (set_sec_deviceFingerprint (Some (fresh_fingerprint w)) (read_security self w)) w)
      = fingerprint_of self' w).
  { intros self'. unfold fingerprint_of.
    destruct self, self'; simpl in *;
      rewrite ?cached_fingerprint_set, ?Hc;
      try reflexivity;
      destruct (String.eqb (fresh_fingerprint w) ""); reflexivity. }
  constructor; try (destruct self; reflexivity); [exact Hfp|].
  intros self'. unfold key_of. rewrite Hfp.
  destruct self, self'; reflexivity.
Qed.

Lemma generateDeviceFingerprint_eq (self : SecurityRef) (w : World) :
  CreditSecurity.generateDeviceFingerprint self w
  = (Ok (fingerprint_of self w), cache_fingerprint self w).
Proof.
  unfold CreditSecurity.generateDeviceFingerprint, fingerprint_of, cache_fingerprint.
  unfold bind at 1. unfold gets at 1.
  destruct (CreditSecurity.cached_fingerprint (read_security self w)); reflexivity.
Qed.

Lemma key_of_cached (self : SecurityRef) (k : list Z) (s : Security) (w : World) :
  key_of self (write_security self (set_cryptoKey (Some k) s) w) = k.
Proof. destruct self; reflexivity. Qed.

Lemma cache_key_only (self : SecurityRef) (w : World) :
  caches_only w (cache_key self w).
Proof.
  unfold cache_key.
  destruct (cryptoKey (read_security self w)) eqn:Hk; [apply caches_only_refl|].
  apply (caches_only_trans _ (cache_fingerprint self w)); [apply cache_fingerprint_only|].
  set (w1 := cache_fingerprint self w).
  assert (Hk1 : cryptoKey (read_security self w1) = None).
  { unfold w1, cache_fingerprint.
    destruct (CreditSecurity.cached_fingerprint (read_security self w)); [exact Hk|].
    destruct self; simpl in *; exact Hk. }
  assert (Hkey : key_of self w = key_of self w1)
    by (symmetry; apply (co_key_of _ _ (cache_fingerprint_only self w))).
  rewrite Hkey.
  constructor; try (destruct self; reflexivity).
  - intros self'. unfold fingerprint_of. destruct self, self'; reflexivity.
  - intros self'. destruct self, self'; try reflexivity;
      unfold key_of at 1; simpl; reflexivity.
Qed.

Lemma initializeCryptoKey_eq (self : SecurityRef) (w : World) :
  CreditSecurity.initializeCryptoKey self w = (Ok (key_of self w), cache_key self w).
Proof.
  unfold CreditSecurity.initializeCryptoKey, cache_key.
  unfold bind at 1. unfold gets at 1. unfold key_of.
  destruct (cryptoKey (read_security self w)) eqn:Hk; [reflexivity|].
  rewrite (bind_ok _ _ _ _ _ (generateDeviceFingerprint_eq self w)).
  reflexivity.
Qed.

End Caches.

(** ** C6: what [decryptData] lets through *)

Section Decrypt.
Context `{Platform}.

Lemma try_decrypt_and_parse (key iv encrypted : list Z) (w : World) :
  try_catch (CreditSecurity.decrypt_and_parse key iv encrypted)
            (fun error => ret JNull) w
  = (Ok (open_sealed key iv encrypted), w).
Proof.
  unfold try_catch, CreditSecurity.decrypt_and_parse, open_sealed.
  destruct (aes_gcm_decrypt key iv encrypted) as [decrypted|]; [|reflexivity].
  destruct (JSON_parse (utf8_decode decrypted)); reflexivity.
Qed.

Lemma decryptData_eq (self : SecurityRef) (encryptedData : jsval) (w : World) :
  CreditSecurity.decryptData self encryptedData w
  = (decrypt_outcome (key_of self w) encryptedData, cache_key self w).
Proof.
  unfold CreditSecurity.decryptData.
  rewrite (bind_ok _ _ _ _ _ (initializeCryptoKey_eq self w)).
  unfold decrypt_outcome, bind, lift.
  destruct (get "iv" encryptedData) as [iv_field|e|]; try reflexivity.
  destruct (new_Uint8Array iv_field) as [iv|e|]; try reflexivity.
  destruct (get "encrypted" encryptedData) as [encrypted_field|e|]; try reflexivity.
  destruct (new_Uint8Array encrypted_field) as [encrypted|e|]; try reflexivity.
  apply try_decrypt_and_parse.
Qed.

Lemma new_Uint8Array_bytes (bytes : list Z) :
  new_Uint8Array (CreditSecurity.byte_array bytes) = Ok (map wrap8 bytes).
Proof.
  unfold new_Uint8Array, CreditSecurity.byte_array.
  assert (Hn : forallb is_num (map JNum bytes) = true)
    by (induction bytes; simpl; auto).
  rewrite Hn, map_map. reflexivity.
Qed.

(** On data of that shape [decryptData] always returns: the decrypted
    value, or [null] when decryption or parsing fails. *)
Lemma decryptData_sealed (self : SecurityRef) data iv encrypted (w : World) :
  sealed_shape data iv encrypted ->
  CreditSecurity.decryptData self data w
  = (Ok (open_sealed (key_of self w) (map wrap8 iv) (map wrap8 encrypted)),
     cache_key self w).
Proof.
  intros ([fields ->] & Hiv & Henc). rewrite decryptData_eq.
  unfold decrypt_outcome, get. rewrite Hiv, Henc, !new_Uint8Array_bytes.
  reflexivity.
Qed.

(** C6, where the code departs from it. [decryptData] reads the fields of
    its argument and builds the two typed arrays before its [try] block:
    on [undefined] (a stored record without [data]) the property access
    throws a TypeError, and on a negative [iv] the typed-array constructor
    throws a RangeError; both leave [decryptData] as exceptions where the
    specification has it return [null]. *)
Theorem decryptData_throws_on_malformed (self : SecurityRef) (w : World) :
  CreditSecurity.decryptData self JUndefined w
  = (Throw (TypeError "Cannot read properties of undefined (reading 'iv')"),
     cache_key self w) /\
  CreditSecurity.decryptData self (JObj [("encrypted", JArr []); ("iv", JNum (-1))]) w
  = (Throw (RangeError "Invalid typed array length: -1"), cache_key self w).
Proof.
  split; rewrite decryptData_eq; reflexivity.
Qed.

End Decrypt.

(** ** C5: the three answers of [getCreditBalance] *)

Section ReadBalance.
Context `{Platform}.

Lemma getCreditBalance_eq (w : World) :
  db (storage (manager w)) = true ->
  requests_succeed 1 w ->
  CreditStorage.getCreditBalance w =
  match credits (disk w) !! "main" with
  | None => (Ok JNull, consume_request w)
  | Some record => settle_record record (consume_request w)
  end.
Proof.
  intros Hdb Hs. unfold CreditStorage.getCreditBalance.
  unfold bind at 1. unfold gets at 1. rewrite Hdb.
  change (negb true) with false. cbv iota.
  rewrite (bind_ok _ _ _ _ _ (idb_request_ok 0 w Hs)).
  cbv beta. change (negb true) with false. cbv iota.
  unfold bind at 1. unfold gets at 1.
  change (disk (update_env (fun e => set_io (tl (io e)) e) w)) with (disk w).
  destruct (credits (disk w) !! "main"); reflexivity.
Qed.

Lemma truthy_get (k : string) (v : jsval) :
  truthy v = true -> get k v = Ok (prop k v).
Proof. destruct v; simpl; intros; try discriminate; reflexivity. Qed.

Lemma createIntegrityHash_truthy (self : SecurityRef) creditData (w : World) :
  truthy creditData = true ->
  CreditSecurity.createIntegrityHash self creditData w
  = (Ok (expected_digest self w creditData), cache_fingerprint self w).
Proof.
  intros Ht. unfold CreditSecurity.createIntegrityHash.
  rewrite !(truthy_get _ _ Ht).
  unfold bind at 1. unfold lift at 1.
  rewrite (bind_ok _ _ _ _ _ (generateDeviceFingerprint_eq self w)).
  reflexivity.
Qed.

Lemma verifyIntegrity_truthy (self : SecurityRef) creditData expectedHash (w : World) :
  truthy creditData = true ->
  CreditSecurity.verifyIntegrity self creditData expectedHash w
  = (Ok (CreditSecurity.strict_eq_string (expected_digest self w creditData) expectedHash),
     cache_fingerprint self w).
Proof.
  intros Ht. rewrite verifyIntegrity_eq.
  now rewrite (bind_ok _ _ _ _ _ (createIntegrityHash_truthy _ _ _ Ht)).
Qed.

Lemma decrypt_and_verify_eq (data : jsval) (w : World) creditData :
  CreditSecurity.decryptData OfStorage data w = (Ok creditData, cache_key OfStorage w) ->
  CreditStorage.decrypt_and_verify data w =
  if truthy creditData
  then
    if CreditSecurity.strict_eq_string (expected_digest OfStorage w creditData)
                                       (prop "integrityHash" creditData)
    then (Ok (CreditStorage.Resolve creditData),
          cache_fingerprint OfStorage (cache_key OfStorage w))
    else (Ok (CreditStorage.Reject (Error "Credit data integrity check failed")),
          cache_fingerprint OfStorage (cache_key OfStorage w))
  else (Ok (CreditStorage.Reject (Error "Failed to decrypt credit data")),
        cache_key OfStorage w).
Proof.
  intros Hd. unfold CreditStorage.decrypt_and_verify.
  rewrite (bind_ok _ _ _ _ _ Hd).
  destruct (truthy creditData) eqn:Ht; [|reflexivity].
  change (negb true) with false. cbv iota.
  rewrite (bind_ok _ _ _ _ _ (verifyIntegrity_truthy _ _ _ _ Ht)).
  unfold expected_digest.
  rewrite (co_fingerprint_of _ _ (cache_key_only OfStorage w)).
  destruct (CreditSecurity.strict_eq_string _ _); reflexivity.
Qed.

Lemma signal_injective (c c' : ReadCondition) : signal c = signal c' -> c = c'.
Proof. destruct c, c'; simpl; intros E; try reflexivity; discriminate E. Qed.

(** C5. With the database open and the read request succeeding,
    [getCreditBalance] resolves with [null] when no record is stored,
    rejects with "Failed to decrypt credit data" when the stored
    ciphertext does not decrypt, and rejects with "Credit data integrity
    check failed" when the record decrypts and its recomputed hash differs
    from the stored one; the three settlements are pairwise different. *)
Theorem getCreditBalance_distinguishes (w : World) :
  db (storage (manager w)) = true ->
  requests_succeed 1 w ->
  (forall c, condition_holds c w ->
             result_of (CreditStorage.getCreditBalance w) = signal c) /\
  (forall c c', signal c = signal c' -> c = c').
Proof.
  intros Hdb Hs. split; [|exact signal_injective].
  intros c Hc. rewrite (getCreditBalance_eq w Hdb Hs).
  set (w1 := consume_request w).
  assert (Hkey : key_of OfStorage w1 = key_of OfStorage w) by reflexivity.
  assert (Hfp : fingerprint_of OfStorage w1 = fingerprint_of OfStorage w) by reflexivity.
  destruct c; simpl in Hc.
  - now rewrite Hc.
  - destruct Hc as (iv & encrypted & (record & Hrec & Hshape) & Hfail).
    rewrite Hrec. unfold settle_record.
    pose proof (decryptData_sealed OfStorage _ _ _ w1 Hshape) as Hd.
    unfold open_sealed in Hd. rewrite Hkey, Hfail in Hd.
    pose proof (decrypt_and_verify_eq _ _ _ Hd) as Hv. simpl in Hv.
    rewrite (bind_ok _ _ _ _ _ (try_catch_ok _ _ _ _ _ Hv)). reflexivity.
  - destruct Hc as (iv & encrypted & decrypted & creditData
                    & (record & Hrec & Hshape) & Hdec & Hparse & Ht & Hneq).
    rewrite Hrec. unfold settle_record.
    pose proof (decryptData_sealed OfStorage _ _ _ w1 Hshape) as Hd.
    unfold open_sealed in Hd. rewrite Hkey, Hdec, Hparse in Hd.
    pose proof (decrypt_and_verify_eq _ _ _ Hd) as Hv.
    unfold expected_digest in Hv. rewrite Hfp in Hv.
    fold (expected_digest OfStorage w creditData) in Hv.
    rewrite Ht, Hneq in Hv.
    rewrite (bind_ok _ _ _ _ _ (try_catch_ok _ _ _ _ _ Hv)). reflexivity.
Qed.

End ReadBalance.

Lemma getCreditBalance_distinguishes_witness :
  result_of (@CreditStorage.getCreditBalance Model.browser Model.opened) = Ok JNull /\
  result_of (@CreditStorage.getCreditBalance Model.browser Model.corrupted)
  = Throw (Error "Failed to decrypt credit data") /\
  result_of (@CreditStorage.getCreditBalance Model.browser Model.forged)
  = Throw (Error "Credit data integrity check failed").
Proof.
  split; [|split].
  - apply (proj1 (@getCreditBalance_distinguishes Model.browser Model.opened
                    eq_refl eq_refl) Absent).
    vm_compute. reflexivity.
  - apply (proj1 (@getCreditBalance_distinguishes Model.browser Model.corrupted
                    eq_refl eq_refl) DecryptionFailed).
    exists Model.nonce, Model.garbage. split; [|vm_compute; reflexivity].
    eexists. split; [vm_compute; reflexivity|].
    split; [eexists; reflexivity | split; reflexivity].
  - apply (proj1 (@getCreditBalance_distinguishes Model.browser Model.forged
                    eq_refl eq_refl) IntegrityMismatch).
    exists Model.nonce, Model.forged_ciphertext, Model.forged_text.
    exists (JObj [("balance", JNum 999); ("timestamp", JNum 1000);
                  ("integrityHash", JStr "00000000");
                  ("deviceFingerprint", JStr "a697b407")]).
    split; [|repeat split; vm_compute; reflexivity].
    eexists. split; [vm_compute; reflexivity|].
    split; [eexists; reflexivity | split; reflexivity].
Defined.

(** What escapes [decryptData] (C6) is caught by [getCreditBalance] and
    rejected under a fourth message, still apart from the other three. *)
Example getCreditBalance_malformed :
  result_of (@CreditStorage.getCreditBalance Model.browser Model.malformed)
  = Throw (Error "Failed to decrypt credit balance: Invalid typed array length: -1").
Proof. vm_compute. reflexivity. Qed.

(** ** Frames: what a computation leaves alone *)

Section Frame.
Variable R : World -> World -> Prop.
Context `{!PreOrder R}.

Lemma respects_ret {A} (a : A) : respects R (ret a).
Proof. intros w. reflexivity. Qed.

Lemma respects_throw {A} (e : exn) : respects R (@throw A e).
Proof. intros w. reflexivity. Qed.

Lemma respects_never {A} : respects R (@never A).
Proof. intros w. reflexivity. Qed.

Lemma respects_lift {A} (o : outcome A) : respects R (lift o).
Proof. intros w. reflexivity. Qed.

Lemma respects_gets {A} (f : World -> A) : respects R (gets f).
Proof. intros w. reflexivity. Qed.

Lemma respects_modify (f : World -> World) :
  (forall w, R w (f w)) -> respects R (modify f).
Proof. intros Hf w. apply Hf. Qed.

Lemma respects_bind {A B} (m : M A) (k : A -> M B) :
  respects R m -> (forall a, respects R (k a)) -> respects R (bind m k).
Proof.
  intros Hm Hk w. unfold world_of, bind.
  specialize (Hm w). unfold world_of in Hm.
  destruct (m w) as [[a|e|] w1]; simpl in *; try exact Hm.
  etransitivity; [exact Hm | apply Hk].
Qed.

Lemma respects_try_catch {A} (m : M A) (h : exn -> M A) :
  respects R m -> (forall e, respects R (h e)) -> respects R (try_catch m h).
Proof.
  intros Hm Hh w. unfold world_of, try_catch.
  specialize (Hm w). unfold world_of in Hm.
  destruct (m w) as [[a|e|] w1]; simpl in *; try exact Hm.
  etransitivity; [exact Hm | apply Hh].
Qed.

Lemma respects_for_each {A} (f : A -> M unit) (xs : list A) :
  (forall x, respects R (f x)) -> respects R (for_each f xs).
Proof.
  intros Hf. induction xs as [|x xs IH]; simpl.
  - apply respects_ret.
  - apply respects_bind; [apply Hf | intros _; exact IH].
Qed.

End Frame.

#[local] Instance balance_kept_preorder : PreOrder balance_kept.
Proof.
  split; [intros w; reflexivity|].
  intros w1 w2 w3 H12 H23. unfold balance_kept in *. congruence.
Qed.

#[local] Instance credits_kept_preorder : PreOrder credits_kept.
Proof.
  split; [intros w; reflexivity|].
  intros w1 w2 w3 H12 H23. unfold credits_kept in *. congruence.
Qed.

(** Steps of a frame proof: split sequencing and handlers, decide branches,
    and close the leaves that do not touch the world. *)
Ltac frame_step :=
  first
    [ match goal with |- forall _, _ => intros ? end
    | match goal with |- PreOrder _ => typeclasses eauto end
    | match goal with H : _ |- respects _ _ => simple apply H end
    | simple apply respects_ret | simple apply respects_throw
    | simple apply respects_never
    | simple apply respects_lift | simple apply respects_gets
    | simple apply respects_bind
    | simple apply respects_try_catch
    | simple apply respects_for_each
    | simple apply respects_modify;
      match goal with
      | |- PreOrder _ => typeclasses eauto
      | |- _ => intros ?; first [reflexivity | hnf; reflexivity]
      end
    | match goal with
      | |- respects _ (if ?b then _ else _) => destruct b
      | |- respects _ (match ?x with _ => _ end) => destruct x
      end ].
Ltac frame := repeat frame_step.

Lemma getRandomValues_eq (wrap : Z -> Z) (n : nat) : forall w,
  getRandomValues wrap n w = (Ok (draw wrap n (rng (env w))), consume_rng n w).
Proof.
  induction n as [|n IH]; intros w.
  - destruct w as [m d [] u]. reflexivity.
  - change (getRandomValues wrap (S n) w)
      with (bind (getRandomValues wrap n)
              (fun rest => ret (wrap (hd 0 (rng (env w))) :: rest))
              (update_env (fun e => set_rng (tl (rng e)) e) w)).
    rewrite (bind_ok _ _ _ _ _ (IH _)). reflexivity.
Qed.

Section Frames.
Context `{Platform}.
Variable R : World -> World -> Prop.
Context `{!PreOrder R}.

(** Relations that do not look at the environment or at the caches. *)
Hypothesis R_env : forall w f, R w (update_env f w).
Hypothesis R_security : forall w self s, R w (write_security self s w).

Lemma respects_idb_request : respects R idb_request.
Proof. intros w. apply R_env. Qed.

Lemma respects_Date_now : respects R Date_now.
Proof. intros w. apply R_env. Qed.

Lemma respects_random_word : respects R random_word.
Proof. intros w. apply R_env. Qed.

Lemma respects_getRandomValues wrap n : respects R (getRandomValues wrap n).
Proof. intros w. rewrite getRandomValues_eq. apply R_env. Qed.

Lemma respects_generateDeviceFingerprint self :
  respects R (CreditSecurity.generateDeviceFingerprint self).
Proof.
  intros w. rewrite generateDeviceFingerprint_eq. unfold world_of, cache_fingerprint.
  simpl. destruct (CreditSecurity.cached_fingerprint _); [reflexivity | apply R_security].
Qed.

Lemma respects_initializeCryptoKey self :
  respects R (CreditSecurity.initializeCryptoKey self).
Proof.
  intros w. rewrite initializeCryptoKey_eq. unfold world_of, cache_key. simpl.
  destruct (cryptoKey _); [reflexivity|].
  etransitivity; [|apply R_security].
  pose proof (respects_generateDeviceFingerprint self w) as Hg.
  rewrite generateDeviceFingerprint_eq in Hg. exact Hg.
Qed.

Lemma respects_createIntegrityHash self creditData :
  respects R (CreditSecurity.createIntegrityHash self creditData).
Proof.
  unfold CreditSecurity.createIntegrityHash.
  pose proof (respects_generateDeviceFingerprint self). frame.
Qed.

Lemma respects_encryptData self data :
  respects R (CreditSecurity.encryptData self data).
Proof.
  unfold CreditSecurity.encryptData.
  pose proof (respects_initializeCryptoKey self).
  pose proof (respects_getRandomValues wrap8 12). frame.
Qed.

Lemma respects_getStore : respects R CreditStorage.getStore.
Proof. unfold CreditStorage.getStore. frame. Qed.

Lemma respects_requestPersistentStorage :
  respects R CreditStorage.requestPersistentStorage.
Proof. unfold CreditStorage.requestPersistentStorage. frame. Qed.

(** Relations that do not look at the object stores or at the UI either. *)
Hypothesis R_disk : forall w f, R w (update_disk f w).
Hypothesis R_ui : forall w u, R w (set_ui u w).

Lemma respects_saveCreditBalance balance fingerprint :
  respects R (CreditStorage.saveCreditBalance balance fingerprint).
Proof.
  unfold CreditStorage.saveCreditBalance.
  pose proof respects_Date_now. pose proof respects_idb_request.
  pose proof respects_getStore.
  pose proof (respects_createIntegrityHash OfStorage).
  pose proof (respects_encryptData OfStorage).
  frame; apply respects_modify; intros ?; apply R_disk.
Qed.

Lemma respects_logTransaction type amount operation metadata :
  respects R (CreditStorage.logTransaction type amount operation metadata).
Proof.
  unfold CreditStorage.logTransaction.
  pose proof respects_Date_now. pose proof respects_idb_request.
  pose proof respects_getStore.
  pose proof (respects_generateDeviceFingerprint OfStorage).
  frame; apply respects_modify; intros ?; apply R_disk.
Qed.

Lemma respects_clear_store storeName clear :
  respects R (CreditStorage.clear_store storeName clear).
Proof.
  unfold CreditStorage.clear_store. pose proof respects_idb_request.
  frame; apply respects_modify; intros ?; apply R_disk.
Qed.

Lemma respects_storage_clearAllData : respects R CreditStorage.clearAllData.
Proof.
  unfold CreditStorage.clearAllData.
  pose proof respects_getStore. pose proof respects_clear_store.
  frame.
Qed.

Lemma respects_saveBalance : respects R CreditManager.saveBalance.
Proof.
  unfold CreditManager.saveBalance, CreditManager.getBalance.
  pose proof respects_saveCreditBalance. frame.
Qed.

Lemma respects_notifyBalanceChange : respects R CreditManager.notifyBalanceChange.
Proof.
  unfold CreditManager.notifyBalanceChange, CreditManager.getBalance.
  frame; apply respects_modify; intros ?; apply R_ui.
Qed.

End Frames.

Lemma balance_kept_env (w : World) (f : Env -> Env) : balance_kept w (update_env f w).
Proof. reflexivity. Qed.

Lemma balance_kept_security (w : World) self s : balance_kept w (write_security self s w).
Proof. destruct self; reflexivity. Qed.

Lemma balance_kept_disk (w : World) (f : Database -> Database) :
  balance_kept w (update_disk f w).
Proof. reflexivity. Qed.

Lemma balance_kept_ui (w : World) u : balance_kept w (set_ui u w).
Proof. reflexivity. Qed.

(** ** C2: the sign of the balance *)

Section Balance.
Context `{Platform}.

Lemma saveBalance_keeps_balance : respects balance_kept CreditManager.saveBalance.
Proof.
  apply respects_saveBalance; try typeclasses eauto;
    auto using balance_kept_env, balance_kept_security, balance_kept_disk.
Qed.

Lemma logTransaction_keeps_balance type amount operation metadata :
  respects balance_kept (CreditStorage.logTransaction type amount operation metadata).
Proof.
  apply respects_logTransaction; try typeclasses eauto;
    auto using balance_kept_env, balance_kept_security, balance_kept_disk.
Qed.

Lemma notifyBalanceChange_keeps_balance :
  respects balance_kept CreditManager.notifyBalanceChange.
Proof.
  apply respects_notifyBalanceChange; try typeclasses eauto;
    auto using balance_kept_ui.
Qed.

Lemma storage_clearAllData_keeps_balance : respects balance_kept CreditStorage.clearAllData.
Proof.
  apply respects_storage_clearAllData; try typeclasses eauto;
    auto using balance_kept_env, balance_kept_disk.
Qed.

(** The [catch] block of [deductCredits] and [addCredits]. *)
Lemma rollback_balance (previousBalance : Z) (what : string) (error : exn) (w : World) :
  currentBalance (manager (world_of
    ((CreditManager.assign_balance previousBalance;;
      @CreditManager.rethrow_with jsval what error) w))) = previousBalance.
Proof.
  unfold CreditManager.rethrow_with. destruct (message error); reflexivity.
Qed.

(** A mutation that sets the balance to [b], runs a body that keeps it, and
    rolls back to [previousBalance] when the body throws, ends with one of
    the two. *)
Lemma commit_or_rollback (body : M jsval) (what : string) (previousBalance b : Z) (w : World) :
  respects balance_kept body ->
  currentBalance (manager w) = b ->
  let w' := world_of (try_catch body
                        (fun error =>
                           CreditManager.assign_balance previousBalance;;
                           CreditManager.rethrow_with what error) w) in
  currentBalance (manager w') = b \/ currentBalance (manager w') = previousBalance.
Proof.
  intros Hbody Hb. specialize (Hbody w). unfold world_of, balance_kept in Hbody.
  unfold try_catch. cbv zeta.
  destruct (body w) as [[a|e|] w1]; simpl in Hbody.
  - left. simpl. congruence.
  - right. apply rollback_balance.
  - left. simpl. congruence.
Qed.

Lemma deductCredits_body_keeps_balance cost operation metadata previousBalance :
  respects balance_kept
    (CreditManager.saveBalance;;
     let* newBalance := CreditManager.getBalance in
     let* _ := CreditStorage.logTransaction "deduction" cost operation
                 (JObj (assign (spread metadata)
                          [("previousBalance", JNum previousBalance);
                           ("newBalance", JNum newBalance)])) in
     CreditManager.notifyBalanceChange;;
     let* newBalance := CreditManager.getBalance in
     ret (JObj [("success", JBool true);
                ("previousBalance", JNum previousBalance);
                ("newBalance", JNum newBalance);
                ("deducted", JNum cost)])).
Proof.
  pose proof saveBalance_keeps_balance.
  pose proof logTransaction_keeps_balance.
  pose proof notifyBalanceChange_keeps_balance.
  unfold CreditManager.getBalance. frame.
Qed.

Lemma deductCredits_balance cost operation metadata (w : World) :
  let w' := world_of (CreditManager.deductCredits cost operation metadata w) in
  currentBalance (manager w') = currentBalance (manager w) \/
  (cost <= currentBalance (manager w) /\
   currentBalance (manager w') = currentBalance (manager w) - cost).
Proof.
  cbv zeta. rewrite deductCredits_eq.
  destruct (Z.leb_spec cost (currentBalance (manager w))) as [Hle|Hlt];
    [|left; reflexivity].
  destruct (commit_or_rollback _ "Failed to deduct credits"
              (currentBalance (manager w)) (currentBalance (manager w) - cost)
              (update_manager (set_currentBalance (currentBalance (manager w) - cost)) w)
              (deductCredits_body_keeps_balance cost operation metadata
                 (currentBalance (manager w))) eq_refl)
    as [Hc|Hr].
  - right. split; [exact Hle | exact Hc].
  - left. exact Hr.
Qed.

Lemma addCredits_eq (amount : Z) (source : string) (metadata : jsval) (w : World) :
  CreditManager.addCredits amount source metadata w =
  try_catch
    (CreditManager.saveBalance;;
     let* newBalance := CreditManager.getBalance in
     let* _ := CreditStorage.logTransaction "purchase" amount source
                 (JObj (assign (spread metadata)
                          [("previousBalance", JNum (currentBalance (manager w)));
                           ("newBalance", JNum newBalance)])) in
     CreditManager.notifyBalanceChange;;
     let* newBalance := CreditManager.getBalance in
     ret (JObj [("success", JBool true);
                ("previousBalance", JNum (currentBalance (manager w)));
                ("newBalance", JNum newBalance);
                ("added", JNum amount)]))
    (fun error =>
       CreditManager.assign_balance (currentBalance (manager w));;
       CreditManager.rethrow_with "Failed to add credits" error)
    (update_manager (set_currentBalance (currentBalance (manager w) + amount)) w).
Proof. reflexivity. Qed.

Lemma addCredits_body_keeps_balance amount source metadata previousBalance :
  respects balance_kept
    (CreditManager.saveBalance;;
     let* newBalance := CreditManager.getBalance in
     let* _ := CreditStorage.logTransaction "purchase" amount source
                 (JObj (assign (spread metadata)
                          [("previousBalance", JNum previousBalance);
                           ("newBalance", JNum newBalance)])) in
     CreditManager.notifyBalanceChange;;
     let* newBalance := CreditManager.getBalance in
     ret (JObj [("success", JBool true);
                ("previousBalance", JNum previousBalance);
                ("newBalance", JNum newBalance);
                ("added", JNum amount)])).
Proof.
  pose proof saveBalance_keeps_balance.
  pose proof logTransaction_keeps_balance.
  pose proof notifyBalanceChange_keeps_balance.
  unfold CreditManager.getBalance. frame.
Qed.

Lemma addCredits_balance amount source metadata (w : World) :
  let w' := world_of (CreditManager.addCredits amount source metadata w) in
  currentBalance (manager w') = currentBalance (manager w) \/
  currentBalance (manager w') = currentBalance (manager w) + amount.
Proof.
  cbv zeta. rewrite addCredits_eq.
  destruct (commit_or_rollback _ "Failed to add credits"
              (currentBalance (manager w)) (currentBalance (manager w) + amount)
              (update_manager (set_currentBalance (currentBalance (manager w) + amount)) w)
              (addCredits_body_keeps_balance amount source metadata
                 (currentBalance (manager w))) eq_refl)
    as [Hc|Hr]; [right; exact Hc | left; exact Hr].
Qed.

End Balance.

Section BalanceSign.
Context `{Platform}.

Lemma resetCredits_eq (newBalance : Z) (w : World) :
  CreditManager.resetCredits newBalance w =
  (CreditManager.saveBalance;;
   let* _ := CreditStorage.logTransaction "reset"
               (newBalance - currentBalance (manager w)) "admin_reset"
               (JObj [("previousBalance", JNum (currentBalance (manager w)));
                      ("newBalance", JNum newBalance)]) in
   CreditManager.notifyBalanceChange;;
   ret (JObj [("previousBalance", JNum (currentBalance (manager w)));
              ("newBalance", JNum newBalance)]))
    (update_manager (set_currentBalance newBalance) w).
Proof. reflexivity. Qed.

(** [resetCredits] assigns before it saves and has no rollback. *)
Lemma resetCredits_balance (newBalance : Z) (w : World) :
  currentBalance (manager (world_of (CreditManager.resetCredits newBalance w)))
  = newBalance.
Proof.
  rewrite resetCredits_eq.
  set (w0 := update_manager (set_currentBalance newBalance) w).
  match goal with |- context [world_of (?rest w0)] =>
    assert (Hrest : respects balance_kept rest)
  end.
  { pose proof saveBalance_keeps_balance.
    pose proof logTransaction_keeps_balance.
    pose proof notifyBalanceChange_keeps_balance.
    frame. }
  exact (Hrest w0).
Qed.

(** On a key of the catalog the lookup finds a package, and the package
    holds a non-negative number of credits. *)
Lemma catalog_key_package (packageKey : string) :
  catalog_key packageKey ->
  exists package_,
    CREDIT_PACKAGES packageKey = Some package_ /\ 0 <= pkg_credits package_.
Proof.
  unfold catalog_key, package_keys. cbn [In].
  intros [<-|[<-|[<-|[<-|[]]]]]; eexists; (split; [reflexivity | cbn; lia]).
Qed.

Lemma Date_now_keeps_balance : respects balance_kept Date_now.
Proof. intros w. reflexivity. Qed.

(** A continuation that keeps the balance leaves the balance of its head. *)
Lemma bind_balance {A B} (m : M A) (k : A -> M B) (w : World) :
  (forall a, respects balance_kept (k a)) ->
  currentBalance (manager (world_of (bind m k w)))
  = currentBalance (manager (world_of (m w))).
Proof.
  intros Hk. unfold world_of, bind.
  destruct (m w) as [[a|e|] w1]; simpl; try reflexivity. apply Hk.
Qed.

Lemma purchaseCredits_balance packageKey paymentMethod (w : World) :
  catalog_key packageKey ->
  let w' := world_of (CreditManager.purchaseCredits packageKey paymentMethod w) in
  currentBalance (manager w') = currentBalance (manager w) \/
  exists package_,
    CREDIT_PACKAGES packageKey = Some package_ /\
    0 <= pkg_credits package_ /\
    currentBalance (manager w') = currentBalance (manager w) + pkg_credits package_.
Proof.
  intros Hkey. destruct (catalog_key_package _ Hkey) as (package_ & Hp & Hcredits).
  cbv zeta. unfold CreditManager.purchaseCredits. rewrite Hp.
  rewrite try_catch_rethrow.
  destruct (String.eqb paymentMethod "demo"); [|left; reflexivity].
  change (bind (CreditManager.simulatePayment package_) ?k w) with (k tt w).
  cbv beta.
  pose proof (addCredits_balance (pkg_credits package_) "purchase"
                (JObj [("package", JStr packageKey);
                       ("price", JNum (pkg_price package_));
                       ("paymentMethod", JStr paymentMethod)]) w) as Hadd.
  cbv zeta in Hadd. rewrite bind_balance.
  - destruct Hadd as [Hadd|Hadd]; [left; exact Hadd | right; now exists package_].
  - intros result. pose proof Date_now_keeps_balance. frame.
Qed.

Lemma clearAllData_balance (w : World) :
  let w' := world_of (CreditManager.clearAllData w) in
  currentBalance (manager w') = currentBalance (manager w) \/
  currentBalance (manager w') = 0.
Proof.
  cbv zeta. unfold CreditManager.clearAllData.
  pose proof (storage_clearAllData_keeps_balance w) as Hclear.
  unfold world_of, balance_kept in Hclear.
  destruct (CreditStorage.clearAllData w) as [[[]|e|] w1] eqn:E; simpl in Hclear.
  - rewrite (bind_ok _ _ _ _ _ E). right.
    exact (notifyBalanceChange_keeps_balance (update_manager (set_currentBalance 0) w1)).
  - rewrite (bind_throw _ _ _ _ _ E). left. exact Hclear.
  - rewrite (bind_pending _ _ _ _ E). left. exact Hclear.
Qed.

Lemma run_operation_nonnegative (o : Operation) (w : World) :
  nonnegative_argument o -> nonnegative_balance w ->
  nonnegative_balance (world_of (run_operation o w)).
Proof.
  unfold nonnegative_balance. intros Harg Hw. destruct o; simpl in Harg.
  - destruct (deductCredits_balance cost operation metadata w) as [E|[Hle E]];
      simpl; unfold world_of in *; lia.
  - destruct (addCredits_balance amount source metadata w) as [E|E];
      simpl; unfold world_of in *; lia.
  - simpl. rewrite resetCredits_balance. exact Harg.
  - destruct (purchaseCredits_balance packageKey paymentMethod w Harg)
      as [E|(package_ & Hp & Hcredits & E)]; simpl; unfold world_of in *; lia.
  - pose proof (clearAllData_balance w) as Hc. cbv zeta in Hc.
    change (world_of (run_operation ClearAllData w))
      with (world_of ((CreditManager.clearAllData;; ret JUndefined) w)).
    rewrite bind_balance by (intros []; apply respects_ret; typeclasses eauto).
    lia.
Qed.

End BalanceSign.

(** ** C1: the balance in memory and the balance on disk *)

Section Persist.
Context `{Platform}.

Lemma Date_now_eq (w : World) :
  Date_now w = (Ok (hd 0 (clock (env w))), consume_clock w).
Proof. reflexivity. Qed.

Lemma idb_request_eq (w : World) :
  idb_request w = (Ok (hd true (io (env w))), consume_request w).
Proof. reflexivity. Qed.

Lemma encryptData_eq (self : SecurityRef) (data : jsval) (w : World) :
  CreditSecurity.encryptData self data w
  = (Ok (sealed (key_of self w) (draw wrap8 12 (rng (env w))) data),
     consume_rng 12 (cache_key self w)).
Proof.
  unfold CreditSecurity.encryptData.
  rewrite (bind_ok _ _ _ _ _ (initializeCryptoKey_eq self w)).
  rewrite (bind_ok _ _ _ _ _ (getRandomValues_eq wrap8 12 (cache_key self w))).
  rewrite (co_env _ _ (cache_key_only self w)). reflexivity.
Qed.

Lemma saveCreditBalance_eq (balance : Z) (fingerprint : option string) (w : World) :
  db (storage (manager w)) = true ->
  CreditStorage.saveCreditBalance balance fingerprint w =
  if hd true (io (env w))
  then (Ok tt,
        update_disk (fun d =>
          set_credits (<["main" := saved_record balance fingerprint w]> (credits d)) d)
          (save_attempted w))
  else (Throw (Error "Failed to save credit balance"), save_attempted w).
Proof.
  intros Hdb. unfold CreditStorage.saveCreditBalance.
  rewrite (bind_ok _ _ _ _ _ (Date_now_eq w)).
  set (timestamp := hd 0 (clock (env w))).
  set (w1 := consume_clock w).
  fold (credit_data balance fingerprint timestamp).
  assert (Ht : truthy (credit_data balance fingerprint timestamp) = true) by reflexivity.
  rewrite (bind_ok _ _ _ _ _ (createIntegrityHash_truthy OfStorage _ w1 Ht)).
  set (w2 := cache_fingerprint OfStorage w1).
  rewrite (bind_ok _ _ _ _ _ (encryptData_eq OfStorage _ w2)).
  set (w3 := consume_rng 12 (cache_key OfStorage w2)).
  assert (C12 : caches_only w1 w2) by apply cache_fingerprint_only.
  assert (C23 : caches_only w2 (cache_key OfStorage w2)) by apply cache_key_only.
  assert (Hdb3 : db (storage (manager w3)) = true).
  { change (db (storage (manager (cache_key OfStorage w2))) = true).
    rewrite (co_db _ _ C23), (co_db _ _ C12). exact Hdb. }
  rewrite (bind_ok _ _ _ _ _ (getStore_open w3 Hdb3)).
  rewrite (bind_ok _ _ _ _ _ (idb_request_eq w3)).
  assert (Hio : io (env w3) = io (env w)).
  { change (io (env (cache_key OfStorage w2)) = io (env w)).
    rewrite (co_env _ _ C23), (co_env _ _ C12). reflexivity. }
  assert (Hrng : rng (env w2) = rng (env w))
    by (rewrite (co_env _ _ C12); reflexivity).
  assert (Hkey : key_of OfStorage w2 = key_of OfStorage w)
    by (rewrite (co_key_of _ _ C12); reflexivity).
  assert (Hdig : expected_digest OfStorage w1 (credit_data balance fingerprint timestamp)
                 = expected_digest OfStorage w (credit_data balance fingerprint timestamp))
    by reflexivity.
  rewrite Hio, Hrng, Hkey, Hdig.
  destruct (hd true (io (env w))); reflexivity.
Qed.

Lemma logTransaction_eq type amount operation metadata (w : World) :
  db (storage (manager w)) = true ->
  CreditStorage.logTransaction type amount operation metadata w =
  if hd true (io (env w))
  then
    (Ok (next_tx_id (disk w)),
     update_disk (fun d =>
       set_transactions
         (transactions d ++
            [{| tx_id := next_tx_id (disk w); tx_type := type; tx_amount := amount;
                tx_operation := operation; tx_metadata := metadata;
                tx_timestamp := hd 0 (clock (env w));
                tx_deviceFingerprint := fingerprint_of OfStorage w |}])
         (next_tx_id (disk w) + 1) d)
       (log_attempted w))
  else (Throw (Error "Failed to log transaction"), log_attempted w).
Proof.
  intros Hdb. unfold CreditStorage.logTransaction.
  rewrite (bind_ok _ _ _ _ _ (Date_now_eq w)).
  set (w1 := consume_clock w).
  rewrite (bind_ok _ _ _ _ _ (generateDeviceFingerprint_eq OfStorage w1)).
  set (w2 := cache_fingerprint OfStorage w1).
  assert (C12 : caches_only w1 w2) by apply cache_fingerprint_only.
  assert (Hdb2 : db (storage (manager w2)) = true)
    by (rewrite (co_db _ _ C12); exact Hdb).
  rewrite (bind_ok _ _ _ _ _ (getStore_open w2 Hdb2)).
  rewrite (bind_ok _ _ _ _ _ (idb_request_eq w2)).
  assert (Hio : io (env w2) = io (env w))
    by (rewrite (co_env _ _ C12); reflexivity).
  assert (Hdisk : disk (consume_request w2) = disk w)
    by (change (disk w2 = disk w); rewrite (co_disk _ _ C12); reflexivity).
  rewrite Hio.
  destruct (hd true (io (env w))); [|reflexivity].
  unfold bind at 1. unfold gets at 1. rewrite Hdisk.
  reflexivity.
Qed.

End Persist.

Section Divergence.
Context `{Platform}.

Lemma saveBalance_eq (w : World) :
  db (storage (manager w)) = true ->
  CreditManager.saveBalance w =
  if hd true (io (env w))
  then (Ok tt, after_save w)
  else (Throw (Error "Failed to save credit balance"), save_attempted w).
Proof.
  intros Hdb. unfold CreditManager.saveBalance. rewrite try_catch_rethrow.
  transitivity (CreditStorage.saveCreditBalance (currentBalance (manager w))
                  (deviceFingerprint (manager w)) w); [reflexivity|].
  rewrite saveCreditBalance_eq by exact Hdb. reflexivity.
Qed.

Lemma save_attempted_caches (w : World) :
  caches_only (consume_clock w)
    (cache_key OfStorage (cache_fingerprint OfStorage (consume_clock w))).
Proof.
  eapply caches_only_trans; [apply cache_fingerprint_only | apply cache_key_only].
Qed.

Lemma after_save_balance (w : World) :
  currentBalance (manager (after_save w)) = currentBalance (manager w).
Proof.
  change (currentBalance (manager (cache_key OfStorage
            (cache_fingerprint OfStorage (consume_clock w))))
          = currentBalance (manager (consume_clock w))).
  apply (co_balance _ _ (save_attempted_caches w)).
Qed.

Lemma after_save_db (w : World) :
  db (storage (manager (after_save w))) = db (storage (manager w)).
Proof.
  change (db (storage (manager (cache_key OfStorage
            (cache_fingerprint OfStorage (consume_clock w)))))
          = db (storage (manager (consume_clock w)))).
  apply (co_db _ _ (save_attempted_caches w)).
Qed.

Lemma after_save_io (w : World) : io (env (after_save w)) = tl (io (env w)).
Proof.
  change (tl (io (env (cache_key OfStorage
            (cache_fingerprint OfStorage (consume_clock w))))) = tl (io (env w))).
  now rewrite (co_env _ _ (save_attempted_caches w)).
Qed.

Lemma after_save_persists (w : World) :
  persists_balance (after_save w) (currentBalance (manager w)).
Proof.
  unfold persists_balance, after_save.
  eexists _, _, _, _. split; [apply lookup_insert_eq|].
  split; reflexivity.
Qed.

Lemma log_attempted_balance (w : World) :
  currentBalance (manager (log_attempted w)) = currentBalance (manager w).
Proof.
  change (currentBalance (manager (cache_fingerprint OfStorage (consume_clock w)))
          = currentBalance (manager (consume_clock w))).
  apply (co_balance _ _ (cache_fingerprint_only OfStorage (consume_clock w))).
Qed.

Lemma log_attempted_disk (w : World) : disk (log_attempted w) = disk w.
Proof.
  change (disk (cache_fingerprint OfStorage (consume_clock w)) = disk (consume_clock w)).
  apply (co_disk _ _ (cache_fingerprint_only OfStorage (consume_clock w))).
Qed.

Lemma persists_balance_credits (w w' : World) (b : Z) :
  credits (disk w') = credits (disk w) -> persists_balance w b -> persists_balance w' b.
Proof. unfold persists_balance. now intros ->. Qed.

(** The body shared by [deductCredits] and [addCredits], when the balance
    put succeeds and the transaction add fails. *)
Lemma save_then_log_failure (type operation : string) (amount : Z)
      (metadata_of : Z -> jsval) (k : M jsval) (w : World) (rest : list bool) :
  db (storage (manager w)) = true ->
  io (env w) = true :: false :: rest ->
  (CreditManager.saveBalance;;
   let* newBalance := CreditManager.getBalance in
   let* _ := CreditStorage.logTransaction type amount operation (metadata_of newBalance) in
   k) w
  = (Throw (Error "Failed to log transaction"), log_attempted (after_save w)).
Proof.
  intros Hdb Hio.
  pose proof (saveBalance_eq w Hdb) as Hsave. rewrite Hio in Hsave. simpl hd in Hsave.
  rewrite (bind_ok _ _ _ _ _ Hsave).
  unfold bind at 1. unfold CreditManager.getBalance at 1. unfold gets at 1.
  assert (Hdb1 : db (storage (manager (after_save w))) = true)
    by (rewrite after_save_db; exact Hdb).
  pose proof (logTransaction_eq type amount operation
                (metadata_of (currentBalance (manager (after_save w))))
                (after_save w) Hdb1) as Hlog.
  rewrite after_save_io, Hio in Hlog. simpl hd in Hlog.
  now rewrite (bind_throw _ _ _ _ _ Hlog).
Qed.

Lemma save_attempted_disk (w : World) : disk (save_attempted w) = disk w.
Proof.
  change (disk (cache_key OfStorage (cache_fingerprint OfStorage (consume_clock w)))
          = disk (consume_clock w)).
  apply (co_disk _ _ (save_attempted_caches w)).
Qed.

Lemma notifyBalanceChange_total (w : World) :
  exists w', CreditManager.notifyBalanceChange w = (Ok tt, w') /\
             currentBalance (manager w') = currentBalance (manager w) /\
             disk w' = disk w.
Proof.
  unfold CreditManager.notifyBalanceChange.
  unfold bind at 1. unfold gets at 1.
  unfold bind at 1. unfold CreditManager.getBalance at 1. unfold gets at 1.
  generalize (currentBalance (manager w)) at 1 as balance.
  generalize (balanceChangeListeners (manager w)) as listeners.
  intros listeners. revert w.
  induction listeners as [|l listeners IH]; intros w balance.
  - exists w. now repeat split.
  - destruct (IH (set_ui (ui w ++ [Notified (listener_id l) balance]) w) balance)
      as (w' & Hrun & Hb & Hd).
    exists w'. split; [|split; [exact Hb | exact Hd]].
    simpl for_each.
    change (bind (modify ?f) ?k w) with (k tt (f w)). exact Hrun.
Qed.

(** Where the discipline of the specification does hold: when the put of
    the balance record fails, [deductCredits] restores the balance in
    memory and the object stores are as before. *)
Lemma deductCredits_save_failure_rolls_back cost operation metadata
      (w : World) (rest : list bool) :
  db (storage (manager w)) = true ->
  io (env w) = false :: rest ->
  cost <= currentBalance (manager w) ->
  exists w',
    CreditManager.deductCredits cost operation metadata w
    = (Throw (Error "Failed to deduct credits: Failed to save credit balance"), w') /\
    currentBalance (manager w') = currentBalance (manager w) /\
    disk w' = disk w.
Proof.
  intros Hdb Hio Hle.
  set (w0 := update_manager (set_currentBalance (currentBalance (manager w) - cost)) w).
  exists (update_manager (set_currentBalance (currentBalance (manager w)))
            (save_attempted w0)).
  split; [|split].
  - rewrite deductCredits_eq.
    destruct (Z.leb_spec cost (currentBalance (manager w))); [|lia].
    fold w0.
    pose proof (saveBalance_eq w0 Hdb) as Hsave.
    change (io (env w0)) with (io (env w)) in Hsave.
    rewrite Hio in Hsave. simpl hd in Hsave.
    erewrite try_catch_throw; [|exact (bind_throw _ _ _ _ _ Hsave)].
    reflexivity.
  - reflexivity.
  - change (disk (save_attempted w0) = disk w0). apply save_attempted_disk.
Qed.

(** And when both requests succeed the two balances agree on the new value. *)
Lemma deductCredits_success_agrees cost operation metadata
      (w : World) (rest : list bool) :
  db (storage (manager w)) = true ->
  io (env w) = true :: true :: rest ->
  cost <= currentBalance (manager w) ->
  exists r w',
    CreditManager.deductCredits cost operation metadata w = (Ok r, w') /\
    currentBalance (manager w') = currentBalance (manager w) - cost /\
    persists_balance w' (currentBalance (manager w) - cost).
Proof.
  intros Hdb Hio Hle.
  set (w0 := update_manager (set_currentBalance (currentBalance (manager w) - cost)) w).
  pose proof (saveBalance_eq w0 Hdb) as Hsave.
  change (io (env w0)) with (io (env w)) in Hsave.
  rewrite Hio in Hsave. simpl hd in Hsave.
  assert (Hdb1 : db (storage (manager (after_save w0))) = true)
    by (rewrite after_save_db; exact Hdb).
  pose proof (logTransaction_eq "deduction" cost operation
                (JObj (assign (spread metadata)
                         [("previousBalance", JNum (currentBalance (manager w)));
                          ("newBalance", JNum (currentBalance (manager (after_save w0))))]))
                (after_save w0) Hdb1) as Hlog.
  rewrite after_save_io in Hlog.
  change (io (env w0)) with (io (env w)) in Hlog.
  rewrite Hio in Hlog.
  change (hd true (tl (true :: true :: rest))) with true in Hlog. cbv iota in Hlog.
  match type of Hlog with _ = (_, ?x) => set (w2 := x) in Hlog end.
  destruct (notifyBalanceChange_total w2) as (w3 & Hnotify & Hb3 & Hd3).
  assert (Hb2 : currentBalance (manager w2) = currentBalance (manager w) - cost).
  { change (currentBalance (manager (log_attempted (after_save w0)))
            = currentBalance (manager w0)).
    now rewrite log_attempted_balance, after_save_balance. }
  assert (Hc2 : credits (disk w2) = credits (disk (after_save w0))).
  { change (credits (disk (log_attempted (after_save w0)))
            = credits (disk (after_save w0))).
    now rewrite log_attempted_disk. }
  eexists _, w3. split; [|split].
  - rewrite deductCredits_eq.
    destruct (Z.leb_spec cost (currentBalance (manager w))); [|lia].
    fold w0. apply try_catch_ok.
    rewrite (bind_ok _ _ _ _ _ Hsave).
    unfold bind at 1. unfold CreditManager.getBalance at 1. unfold gets at 1.
    rewrite (bind_ok _ _ _ _ _ Hlog).
    rewrite (bind_ok _ _ _ _ _ Hnotify).
    reflexivity.
  - now rewrite Hb3.
  - apply (persists_balance_credits (after_save w0)).
    + now rewrite Hd3.
    + apply (after_save_persists w0).
Qed.

(** C1, where the code departs from it. When the balance record is saved
    and the append to the transaction log then fails, [deductCredits] and
    [addCredits] restore the balance in memory to its previous value and
    rethrow, while the record they saved stays stored: the stored record
    holds the new balance and the balance in memory the old one. *)
Theorem log_failure_leaves_memory_behind_disk (w : World) (rest : list bool) :
  db (storage (manager w)) = true ->
  io (env w) = true :: false :: rest ->
  (forall cost operation metadata,
      cost <= currentBalance (manager w) ->
      exists w',
        CreditManager.deductCredits cost operation metadata w
        = (Throw (Error "Failed to deduct credits: Failed to log transaction"), w') /\
        currentBalance (manager w') = currentBalance (manager w) /\
        persists_balance w' (currentBalance (manager w) - cost)) /\
  (forall amount source metadata,
      exists w',
        CreditManager.addCredits amount source metadata w
        = (Throw (Error "Failed to add credits: Failed to log transaction"), w') /\
        currentBalance (manager w') = currentBalance (manager w) /\
        persists_balance w' (currentBalance (manager w) + amount)).
Proof.
  intros Hdb Hio. split.
  - intros cost operation metadata Hle.
    set (w0 := update_manager (set_currentBalance (currentBalance (manager w) - cost)) w).
    exists (update_manager (set_currentBalance (currentBalance (manager w)))
              (log_attempted (after_save w0))).
    split; [|split].
    + rewrite deductCredits_eq.
      destruct (Z.leb_spec cost (currentBalance (manager w))); [|lia].
      fold w0.
      erewrite try_catch_throw;
        [|apply (save_then_log_failure "deduction" operation cost
                   (fun newBalance =>
                      JObj (assign (spread metadata)
                              [("previousBalance", JNum (currentBalance (manager w)));
                               ("newBalance", JNum newBalance)]))
                   _ w0 rest Hdb Hio)].
      reflexivity.
    + reflexivity.
    + apply (persists_balance_credits (after_save w0)).
      * change (credits (disk (log_attempted (after_save w0)))
                = credits (disk (after_save w0))).
        now rewrite log_attempted_disk.
      * apply (after_save_persists w0).
  - intros amount source metadata.
    set (w0 := update_manager (set_currentBalance (currentBalance (manager w) + amount)) w).
    exists (update_manager (set_currentBalance (currentBalance (manager w)))
              (log_attempted (after_save w0))).
    split; [|split].
    + rewrite addCredits_eq. fold w0.
      erewrite try_catch_throw;
        [|apply (save_then_log_failure "purchase" source amount
                   (fun newBalance =>
                      JObj (assign (spread metadata)
                              [("previousBalance", JNum (currentBalance (manager w)));
                               ("newBalance", JNum newBalance)]))
                   _ w0 rest Hdb Hio)].
      reflexivity.
    + reflexivity.
    + apply (persists_balance_credits (after_save w0)).
      * change (credits (disk (log_attempted (after_save w0)))
                = credits (disk (after_save w0))).
        now rewrite log_attempted_disk.
      * apply (after_save_persists w0).
Qed.

End Divergence.

Lemma log_failure_leaves_memory_behind_disk_witness :
  let w := Model.with_io [true; false] (Model.funded 10) in
  exists w',
    @CreditManager.deductCredits Model.browser 7 "translate" (JObj []) w
    = (Throw (Error "Failed to deduct credits: Failed to log transaction"), w') /\
    currentBalance (manager w') = 10 /\
    @persists_balance Model.browser w' 3.
Proof.
  intros w.
  assert (Hdb : db (storage (manager w)) = true) by (vm_compute; reflexivity).
  assert (Hio : io (env w) = [true; false]) by reflexivity.
  assert (Hb : currentBalance (manager w) = 10) by (vm_compute; reflexivity).
  destruct (proj1 (@log_failure_leaves_memory_behind_disk Model.browser w [] Hdb Hio)
              7 "translate" (JObj [])) as (w' & Hrun & Hbal & Hper).
  - rewrite Hb. lia.
  - rewrite Hb in Hbal, Hper. exists w'. repeat split; assumption.
Defined.

(** The same run, read back: from a balance of 10, [deductCredits(7)]
    whose log append fails leaves 10 in memory, and [getCreditBalance]
    then reads a valid record with balance 3. *)
Example log_failure_read_back :
  let w := Model.with_io [true; false] (Model.funded 10) in
  let r := @CreditManager.deductCredits Model.browser 7 "translate" (JObj []) w in
  result_of r = Throw (Error "Failed to deduct credits: Failed to log transaction") /\
  currentBalance (manager (world_of r)) = 10 /\
  exists stored,
    result_of (@CreditStorage.getCreditBalance Model.browser (world_of r)) = Ok stored /\
    prop "balance" stored = JNum 3.
Proof.
  cbv zeta. split; [vm_compute; reflexivity|].
  split; [vm_compute; reflexivity|].
  eexists. split; vm_compute; reflexivity.
Qed.

(** ** C3: a wrapped function that throws *)

Section Wrap.
Context `{Platform}.

Lemma getCostPreview_eq (operation : string) (w : World) :
  CreditUI.getCostPreview operation w
  = (hd (Ok false) (confirms (env w)), consume_confirm w).
Proof. reflexivity. Qed.

Lemma originalFunction_eq (w : World) :
  CreditIntegration.originalFunction w
  = (hd (Ok JUndefined) (calls (env w)), consume_call w).
Proof. reflexivity. Qed.

(** The [try] block of the wrapper, up to a first invocation that throws. *)
Lemma wrapped_call_throws (operation : string) (metadata : jsval) (args cost : Z)
      (w : World) (error : exn) (later : list (outcome jsval)) :
  CreditManager.getCost operation = Ok cost ->
  cost <= currentBalance (manager w) ->
  hd (Ok false) (confirms (env w)) = Ok true ->
  calls (env w) = Throw error :: later ->
  (let* cost := lift (CreditManager.getCost operation) in
   let* hasCredits := CreditManager.hasSufficientCredits cost in
   if negb hasCredits
   then
     CreditUI.showPurchaseModal;;
     let* balance := CreditManager.getBalance in
     throw (Error ("Insufficient credits for " +:+ operation +:+ ". Need "
                     +:+ show cost +:+ " credits, have " +:+ show balance +:+ "."))
   else
     let* confirmed := CreditUI.getCostPreview operation in
     if negb confirmed then ret JNull
     else
       let* result := CreditIntegration.originalFunction in
       (if negb (CreditIntegration.is_nullish result)
        then
          let* timestamp := Date_now in
          let* _ := CreditManager.deductCredits cost operation
                      (JObj (assign (spread metadata)
                               [("timestamp", JNum timestamp);
                                ("args", JNum args);
                                ("success", JBool true)])) in
          ret tt
        else ret tt);;
       ret result) w
  = (Throw error, consume_call (consume_confirm w)).
Proof.
  intros Hcost Hle Hconfirm Hcalls.
  rewrite Hcost. unfold bind at 1. unfold lift at 1.
  rewrite (bind_ok _ _ _ _ _ (hasSufficientCredits_eq cost w)).
  destruct (Z.leb_spec cost (currentBalance (manager w))); [|lia].
  change (negb true) with false. cbv iota.
  pose proof (getCostPreview_eq operation w) as Hpreview.
  rewrite Hconfirm in Hpreview.
  rewrite (bind_ok _ _ _ _ _ Hpreview).
  change (negb true) with false. cbv iota.
  pose proof (originalFunction_eq (consume_confirm w)) as Hcall.
  change (calls (env (consume_confirm w))) with (calls (env w)) in Hcall.
  rewrite Hcalls in Hcall. simpl hd in Hcall.
  now rewrite (bind_throw _ _ _ _ _ Hcall).
Qed.

(** C3, as the code has it. When the wrapped function is invoked (the
    operation is known, the balance covers its cost, the user confirms) and
    throws an error with a message: if the message contains "credits" or
    "Credits" the wrapper rethrows that error; otherwise the wrapper
    invokes the function a second time and settles as that second
    invocation does. In both cases nothing is deducted: manager, database
    and UI are as before the call. *)
Theorem wrapFunction_on_failure (operation : string) (metadata : jsval) (args cost : Z)
        (w : World) (name m : string) (later : list (outcome jsval)) :
  CreditManager.getCost operation = Ok cost ->
  cost <= currentBalance (manager w) ->
  hd (Ok false) (confirms (env w)) = Ok true ->
  calls (env w) = Throw (Exn name m) :: later ->
  exists w',
    CreditIntegration.wrapFunction operation metadata args w
    = (if CreditIntegration.is_credit_error m
       then Throw (Exn name m)
       else hd (Ok JUndefined) later, w') /\
    same_state w w'.
Proof.
  intros Hcost Hle Hconfirm Hcalls.
  pose proof (wrapped_call_throws operation metadata args cost w (Exn name m) later
                Hcost Hle Hconfirm Hcalls) as Hmain.
  unfold CreditIntegration.wrapFunction.
  rewrite (try_catch_throw _ _ _ _ _ Hmain).
  unfold message. cbv beta iota.
  destruct (CreditIntegration.is_credit_error m).
  - exists (consume_call (consume_confirm w)). split; [reflexivity|].
    repeat split.
  - rewrite try_catch_rethrow, originalFunction_eq.
    change (calls (env (consume_call (consume_confirm w)))) with (tl (calls (env w))).
    rewrite Hcalls. simpl tl.
    exists (consume_call (consume_call (consume_confirm w))). split; [reflexivity|].
    repeat split.
Qed.

End Wrap.

Lemma wrapFunction_on_failure_witness :
  let w := Model.with_confirms [Ok true]
             (Model.with_calls [Throw (Error "quota: no credits left upstream");
                                Ok (JStr "bonjour")]
                (Model.funded 10)) in
  exists w',
    @CreditIntegration.wrapFunction Model.browser "translate" (JObj []) 1 w
    = (Throw (Error "quota: no credits left upstream"), w') /\
    same_state w w'.
Proof.
  intros w.
  apply (@wrapFunction_on_failure Model.browser "translate" (JObj []) 1 7 w
           "Error" "quota: no credits left upstream" [Ok (JStr "bonjour")]).
  - reflexivity.
  - vm_compute. discriminate.
  - reflexivity.
  - reflexivity.
Defined.

(** C3, as the specification states it, fails: an error of the wrapped
    function whose message does not mention credits is caught and the
    function is run again. Here the first invocation throws, the second
    returns, and the wrapper returns that result to its caller: the
    failure is not propagated (and nothing is deducted for the result). *)
Lemma wrapFunction_swallows_failure_counterexample :
  let w := Model.with_confirms [Ok true]
             (Model.with_calls [Throw (Error "network down"); Ok (JStr "bonjour")]
                (Model.funded 10)) in
  let r := @CreditIntegration.wrapFunction Model.browser "translate" (JObj []) 1 w in
  hd (Ok JUndefined) (calls (env w)) = Throw (Error "network down") /\
  result_of r = Ok (JStr "bonjour") /\
  currentBalance (manager (world_of r)) = 10 /\
  calls (env (world_of r)) = [].
Proof.
  cbv zeta. repeat split; vm_compute; reflexivity.
Qed.

(** ** C2, continued: the sign of the stored balance *)

Lemma world_of_bind_tail (R : World -> World -> Prop) `{!PreOrder R}
      {A B} (m : M A) (k : A -> M B) (w : World) :
  (forall a, respects R (k a)) -> R (world_of (m w)) (world_of (bind m k w)).
Proof.
  intros Hk. unfold world_of, bind.
  destruct (m w) as [[a|e|] w1]; simpl; try reflexivity. apply Hk.
Qed.

Lemma world_of_try_catch_handler (R : World -> World -> Prop) `{!PreOrder R}
      {A} (m : M A) (h : exn -> M A) (w : World) :
  (forall e, respects R (h e)) -> R (world_of (m w)) (world_of (try_catch m h w)).
Proof.
  intros Hh. unfold world_of, try_catch.
  destruct (m w) as [[a|e|] w1]; simpl; try reflexivity. apply Hh.
Qed.

Lemma credits_kept_env (w : World) (f : Env -> Env) : credits_kept w (update_env f w).
Proof. reflexivity. Qed.

Lemma credits_kept_security (w : World) self s : credits_kept w (write_security self s w).
Proof. destruct self; reflexivity. Qed.

Lemma credits_kept_ui (w : World) u : credits_kept w (set_ui u w).
Proof. reflexivity. Qed.

Section StoredSign.
Context `{Platform}.

Lemma logTransaction_keeps_credits type amount operation metadata :
  respects credits_kept (CreditStorage.logTransaction type amount operation metadata).
Proof.
  unfold CreditStorage.logTransaction.
  assert (respects credits_kept Date_now) by (intros w; reflexivity).
  assert (respects credits_kept idb_request) by (intros w; reflexivity).
  assert (respects credits_kept CreditStorage.getStore)
    by (apply respects_getStore; typeclasses eauto).
  assert (respects credits_kept (CreditSecurity.generateDeviceFingerprint OfStorage))
    by (apply respects_generateDeviceFingerprint; try typeclasses eauto;
        auto using credits_kept_env, credits_kept_security).
  frame.
Qed.

Lemma notifyBalanceChange_keeps_credits :
  respects credits_kept CreditManager.notifyBalanceChange.
Proof.
  apply respects_notifyBalanceChange; try typeclasses eauto;
    auto using credits_kept_ui.
Qed.

Lemma rollback_keeps_credits (previousBalance : Z) (what : string) (error : exn) :
  respects credits_kept
    (CreditManager.assign_balance previousBalance;;
     @CreditManager.rethrow_with jsval what error).
Proof.
  unfold CreditManager.assign_balance, CreditManager.rethrow_with. frame.
Qed.

Lemma stored_nonnegative_credits (w w' : World) :
  credits (disk w') = credits (disk w) -> stored_nonnegative w -> stored_nonnegative w'.
Proof. unfold stored_nonnegative. now intros ->. Qed.

Lemma saveCreditBalance_closed (balance : Z) (fingerprint : option string) (w : World) :
  db (storage (manager w)) = false ->
  disk (world_of (CreditStorage.saveCreditBalance balance fingerprint w)) = disk w.
Proof.
  intros Hdb. unfold CreditStorage.saveCreditBalance.
  rewrite (bind_ok _ _ _ _ _ (Date_now_eq w)).
  set (timestamp := hd 0 (clock (env w))).
  set (w1 := consume_clock w).
  fold (credit_data balance fingerprint timestamp).
  assert (Ht : truthy (credit_data balance fingerprint timestamp) = true) by reflexivity.
  rewrite (bind_ok _ _ _ _ _ (createIntegrityHash_truthy OfStorage _ w1 Ht)).
  set (w2 := cache_fingerprint OfStorage w1).
  rewrite (bind_ok _ _ _ _ _ (encryptData_eq OfStorage _ w2)).
  set (w3 := consume_rng 12 (cache_key OfStorage w2)).
  assert (C12 : caches_only w1 w2) by apply cache_fingerprint_only.
  assert (C23 : caches_only w2 (cache_key OfStorage w2)) by apply cache_key_only.
  assert (Hdb3 : db (storage (manager w3)) = false).
  { change (db (storage (manager (cache_key OfStorage w2))) = false).
    rewrite (co_db _ _ C23), (co_db _ _ C12). exact Hdb. }
  rewrite (bind_throw _ _ _ _ _ (getStore_closed w3 Hdb3)).
  change (disk (cache_key OfStorage w2) = disk w1).
  now rewrite (co_disk _ _ C23), (co_disk _ _ C12).
Qed.

(** [saveBalance] leaves the [credits] store as it is or puts the record
    of the balance in memory under ["main"]. *)
Lemma saveBalance_credits (w : World) :
  let w' := world_of (CreditManager.saveBalance w) in
  credits (disk w') = credits (disk w) \/
  credits (disk w')
  = <["main" := saved_record (currentBalance (manager w))
                             (deviceFingerprint (manager w)) w]> (credits (disk w)).
Proof.
  cbv zeta. destruct (db (storage (manager w))) eqn:Hdb.
  - rewrite (saveBalance_eq w Hdb).
    destruct (hd true (io (env w))).
    + right. change (<["main" := saved_record (currentBalance (manager w))
                                   (deviceFingerprint (manager w)) w]>
                       (credits (disk (save_attempted w))) = 
                     <["main" := saved_record (currentBalance (manager w))
                                   (deviceFingerprint (manager w)) w]>
                       (credits (disk w))).
      now rewrite save_attempted_disk.
    + left. change (credits (disk (save_attempted w)) = credits (disk w)).
      now rewrite save_attempted_disk.
  - left. unfold CreditManager.saveBalance. rewrite try_catch_rethrow.
    change (credits (disk (world_of
              (CreditStorage.saveCreditBalance (currentBalance (manager w))
                 (deviceFingerprint (manager w)) w))) = credits (disk w)).
    now rewrite saveCreditBalance_closed.
Qed.

Lemma saveBalance_stored_nonnegative (w : World) :
  nonnegative_balance w -> stored_nonnegative w ->
  stored_nonnegative (world_of (CreditManager.saveBalance w)).
Proof.
  intros Hb Hs. destruct (saveBalance_credits w) as [E|E].
  - exact (stored_nonnegative_credits _ _ E Hs).
  - intros record. rewrite E, lookup_insert_eq. intros [= <-].
    eexists _, _, _, (currentBalance (manager w)).
    split; [reflexivity | split; [reflexivity | exact Hb]].
Qed.

(** What a mutation of the form save, log, notify, with rollback, leaves
    in the [credits] store is what its [saveBalance] left there. *)
Lemma mutation_credits (rest : M jsval) (what : string) (previousBalance : Z) (w : World) :
  respects credits_kept rest ->
  credits (disk (world_of
    (try_catch (CreditManager.saveBalance;; rest)
       (fun error =>
          CreditManager.assign_balance previousBalance;;
          CreditManager.rethrow_with what error) w)))
  = credits (disk (world_of (CreditManager.saveBalance w))).
Proof.
  intros Hrest.
  pose proof (world_of_try_catch_handler credits_kept
                (CreditManager.saveBalance;; rest)
                (fun error =>
                   CreditManager.assign_balance previousBalance;;
                   CreditManager.rethrow_with what error) w
                (rollback_keeps_credits previousBalance what)) as H1.
  pose proof (world_of_bind_tail credits_kept CreditManager.saveBalance
                (fun _ => rest) w (fun _ => Hrest)) as H2.
  unfold credits_kept in *. congruence.
Qed.

End StoredSign.

Section StoredSignOperations.
Context `{Platform}.

Lemma assigned_stored_nonnegative (b : Z) (w : World) :
  stored_nonnegative w ->
  stored_nonnegative (update_manager (set_currentBalance b) w).
Proof. apply stored_nonnegative_credits. reflexivity. Qed.

Lemma deductCredits_stored cost operation metadata (w : World) :
  stored_nonnegative w ->
  stored_nonnegative (world_of (CreditManager.deductCredits cost operation metadata w)).
Proof.
  intros Hs. rewrite deductCredits_eq.
  destruct (Z.leb_spec cost (currentBalance (manager w))) as [Hle|Hlt]; [|exact Hs].
  set (w0 := update_manager (set_currentBalance (currentBalance (manager w) - cost)) w).
  apply (stored_nonnegative_credits (world_of (CreditManager.saveBalance w0))).
  - apply mutation_credits.
    pose proof logTransaction_keeps_credits.
    pose proof notifyBalanceChange_keeps_credits.
    unfold CreditManager.getBalance. frame.
  - apply saveBalance_stored_nonnegative.
    + unfold nonnegative_balance. simpl. lia.
    + now apply assigned_stored_nonnegative.
Qed.

Lemma addCredits_stored amount source metadata (w : World) :
  0 <= amount -> nonnegative_balance w -> stored_nonnegative w ->
  stored_nonnegative (world_of (CreditManager.addCredits amount source metadata w)).
Proof.
  intros Ha Hb Hs. rewrite addCredits_eq.
  set (w0 := update_manager (set_currentBalance (currentBalance (manager w) + amount)) w).
  apply (stored_nonnegative_credits (world_of (CreditManager.saveBalance w0))).
  - apply mutation_credits.
    pose proof logTransaction_keeps_credits.
    pose proof notifyBalanceChange_keeps_credits.
    unfold CreditManager.getBalance. frame.
  - apply saveBalance_stored_nonnegative.
    + unfold nonnegative_balance in *. simpl. lia.
    + now apply assigned_stored_nonnegative.
Qed.

Lemma resetCredits_stored newBalance (w : World) :
  0 <= newBalance -> stored_nonnegative w ->
  stored_nonnegative (world_of (CreditManager.resetCredits newBalance w)).
Proof.
  intros Hn Hs. rewrite resetCredits_eq.
  set (w0 := update_manager (set_currentBalance newBalance) w).
  apply (stored_nonnegative_credits (world_of (CreditManager.saveBalance w0))).
  - apply (world_of_bind_tail credits_kept CreditManager.saveBalance).
    intros _.
    pose proof logTransaction_keeps_credits.
    pose proof notifyBalanceChange_keeps_credits.
    frame.
  - apply saveBalance_stored_nonnegative.
    + exact Hn.
    + now apply assigned_stored_nonnegative.
Qed.

Lemma purchaseCredits_stored packageKey paymentMethod (w : World) :
  catalog_key packageKey ->
  nonnegative_balance w -> stored_nonnegative w ->
  stored_nonnegative (world_of (CreditManager.purchaseCredits packageKey paymentMethod w)).
Proof.
  intros Hkey Hb Hs.
  destruct (catalog_key_package _ Hkey) as (package_ & Hp & Hcredits).
  unfold CreditManager.purchaseCredits. rewrite Hp.
  rewrite try_catch_rethrow.
  destruct (String.eqb paymentMethod "demo"); [|exact Hs].
  change (bind (CreditManager.simulatePayment package_) ?k w) with (k tt w).
  cbv beta.
  eapply stored_nonnegative_credits.
  - apply (world_of_bind_tail credits_kept).
    intros result.
    assert (respects credits_kept Date_now) by (intros w0; reflexivity).
    frame.
  - apply addCredits_stored; assumption.
Qed.

Lemma storage_clearAllData_credits (w : World) :
  let w' := world_of (CreditStorage.clearAllData w) in
  credits (disk w') = credits (disk w) \/ credits (disk w') = ∅.
Proof.
  cbv zeta. unfold CreditStorage.clearAllData.
  destruct (db (storage (manager w))) eqn:Hdb.
  - rewrite (bind_ok _ _ _ _ _ (getStore_open w Hdb)).
    match goal with |- context [world_of (bind ?m ?k w)] =>
      assert (Hk : forall a, respects credits_kept (k a));
        [|pose proof (world_of_bind_tail credits_kept m k w Hk) as Htail]
    end.
    { intros e1. unfold CreditStorage.clear_store.
      assert (respects credits_kept idb_request) by (intros w0; reflexivity).
      frame. }
    unfold credits_kept in Htail. rewrite Htail.
    unfold CreditStorage.clear_store.
    rewrite (bind_ok _ _ _ _ _ (idb_request_eq w)).
    destruct (hd true (io (env w))); [right | left]; reflexivity.
  - rewrite (bind_throw _ _ _ _ _ (getStore_closed w Hdb)). left. reflexivity.
Qed.

Lemma clearAllData_stored (w : World) :
  stored_nonnegative w ->
  stored_nonnegative (world_of (CreditManager.clearAllData w)).
Proof.
  intros Hs. unfold CreditManager.clearAllData.
  eapply stored_nonnegative_credits.
  - apply (world_of_bind_tail credits_kept). intros _.
    pose proof notifyBalanceChange_keeps_credits.
    unfold CreditManager.assign_balance. frame.
  - destruct (storage_clearAllData_credits w) as [E|E].
    + exact (stored_nonnegative_credits _ _ E Hs).
    + intros record. rewrite E, lookup_empty. discriminate.
Qed.

Lemma run_operation_stored (o : Operation) (w : World) :
  nonnegative_argument o -> nonnegative_balance w -> stored_nonnegative w ->
  stored_nonnegative (world_of (run_operation o w)).
Proof.
  intros Harg Hb Hs. destruct o; simpl in Harg.
  - now apply deductCredits_stored.
  - now apply addCredits_stored.
  - now apply resetCredits_stored.
  - now apply purchaseCredits_stored.
  - change (world_of (run_operation ClearAllData w))
      with (world_of ((CreditManager.clearAllData;; ret JUndefined) w)).
    eapply stored_nonnegative_credits; [|apply (clearAllData_stored w Hs)].
    apply (world_of_bind_tail credits_kept). intros []. apply respects_ret.
    typeclasses eauto.
Qed.

(** C2, as the code has it. Along any sequence of manager operations in
    which every amount given to [addCredits] and every balance given to
    [resetCredits] is non-negative, and every key given to
    [purchaseCredits] is a key of the catalog (SMALL, MEDIUM, LARGE or
    XL), the balance in memory and the balance of the stored record, once
    non-negative, are non-negative after each operation, however the
    operation ended; and a [deductCredits] that the balance does not cover
    fails and leaves the world as it found it. *)
Theorem balance_nonnegative_for_nonnegative_arguments
        (ops : list Operation) (w : World) :
  nonnegative_balance w ->
  stored_nonnegative w ->
  Forall nonnegative_argument ops ->
  Forall (fun w' => nonnegative_balance w' /\ stored_nonnegative w') (run_trace ops w) /\
  (forall cost operation metadata (w0 : World),
      currentBalance (manager w0) < cost ->
      exists e, run_operation (DeductCredits cost operation metadata) w0 = (Throw e, w0)).
Proof.
  intros Hw Hs Hops. split.
  - revert w Hw Hs. induction Hops as [|o ops Ho _ IH]; intros w Hw Hs; simpl.
    + constructor.
    + pose proof (run_operation_nonnegative o w Ho Hw) as Hstep.
      pose proof (run_operation_stored o w Ho Hw Hs) as Hstored.
      constructor; [now split | exact (IH _ Hstep Hstored)].
  - intros cost operation metadata w0 Hlt. eexists. simpl.
    apply deductCredits_insufficient_unchanged. exact Hlt.
Qed.

End StoredSignOperations.

Lemma balance_nonnegative_for_nonnegative_arguments_witness :
  Forall (fun w' => nonnegative_balance w' /\ @stored_nonnegative Model.browser w')
    (@run_trace Model.browser
       [AddCredits 100 "purchase" (JObj []);
        DeductCredits 7 "translate" (JObj []);
        DeductCredits 200 "complete" (JObj []);
        ResetCredits 5;
        PurchaseCredits "SMALL" "demo";
        ClearAllData]
       Model.opened).
Proof.
  apply (@balance_nonnegative_for_nonnegative_arguments Model.browser).
  - vm_compute. discriminate.
  - intros record Hr. vm_compute in Hr. discriminate Hr.
  - repeat constructor; simpl; lia.
Defined.

(** C2, as the specification states it, fails: nothing in [addCredits]
    or [resetCredits] looks at the sign of the result. From a balance of 0,
    [addCredits(-5)] completes, and both the balance in memory and the
    stored record then hold -5; [resetCredits(-1)] completes with -1. *)
Lemma negative_balance_counterexample :
  currentBalance (manager Model.ready) = 0 /\
  (let r := @CreditManager.addCredits Model.browser (-5) "purchase" (JObj []) Model.ready in
   result_of r = Ok (JObj [("success", JBool true); ("previousBalance", JNum 0);
                           ("newBalance", JNum (-5)); ("added", JNum (-5))]) /\
   currentBalance (manager (world_of r)) = -5 /\
   ~ nonnegative_balance (world_of r) /\
   exists stored,
     result_of (@CreditStorage.getCreditBalance Model.browser (world_of r)) = Ok stored /\
     prop "balance" stored = JNum (-5)) /\
  (let r := @CreditManager.resetCredits Model.browser (-1) Model.ready in
   result_of r = Ok (JObj [("previousBalance", JNum 0); ("newBalance", JNum (-1))]) /\
   currentBalance (manager (world_of r)) = -1).
Proof.
  split; [reflexivity|]. split.
  - cbv zeta. split; [vm_compute; reflexivity|].
    split; [vm_compute; reflexivity|].
    split; [vm_compute; intros Hc; apply Hc; reflexivity|].
    eexists. split; vm_compute; reflexivity.
  - cbv zeta. split; vm_compute; reflexivity.
Qed.

(* ===================================================================== *)
(** * Further properties *)
(* ===================================================================== *)

(** ** The hexadecimal form of a digest *)

Lemma hex_pairs_ok : forallb hex_pair_ok (seq 0 256) = true.
Proof. vm_compute. reflexivity. Qed.

Lemma byte_as_hex_pair (b : Z) :
  0 <= b < 256 ->
  exists c1 c2,
    padStart0 2 (toString16 b) = String c1 (String c2 EmptyString) /\
    16 * digit_value c1 + digit_value c2 = b /\
    is_af09 c1 = true /\ is_af09 c2 = true.
Proof.
  intros Hb.
  assert (Hin : In (Z.to_nat b) (seq 0 256)) by (apply in_seq; lia).
  pose proof (proj1 (forallb_forall _ _) hex_pairs_ok _ Hin) as Hok.
  unfold hex_pair_ok in Hok. rewrite Z2Nat.id in Hok by lia.
  destruct (padStart0 2 (toString16 b)) as [|c1 [|c2 [|? ?]]]; try discriminate.
  apply andb_true_iff in Hok as [Hok H2]. apply andb_true_iff in Hok as [Hv H1].
  exists c1, c2. repeat split; auto. lia.
Qed.

(** X1. [simpleHash] prints its digest as two lower-case hexadecimal
    digits per byte, and the bytes can be read back from the string: two
    digests with the same string are the same bytes. *)
Theorem hex_of_bytes_decodes (bytes : list Z) :
  bytes_of_hex (CreditSecurity.hex_of_bytes bytes) = map wrap8 bytes /\
  String.length (CreditSecurity.hex_of_bytes bytes) = (2 * length bytes)%nat /\
  string_forallb is_af09 (CreditSecurity.hex_of_bytes bytes) = true.
Proof.
  induction bytes as [|b rest [IHd [IHl IHc]]]; [repeat split; reflexivity|].
  destruct (byte_as_hex_pair (wrap8 b) (wrap8_range b)) as (c1 & c2 & E & V & H1 & H2).
  change (CreditSecurity.hex_of_bytes (b :: rest))
    with (padStart0 2 (toString16 (wrap8 b)) +:+ CreditSecurity.hex_of_bytes rest).
  rewrite E.
  change (String c1 (String c2 EmptyString) +:+ CreditSecurity.hex_of_bytes rest)
    with (String c1 (String c2 (CreditSecurity.hex_of_bytes rest))).
  repeat split.
  - change (bytes_of_hex (String c1 (String c2 (CreditSecurity.hex_of_bytes rest))))
      with ((16 * digit_value c1 + digit_value c2)
              :: bytes_of_hex (CreditSecurity.hex_of_bytes rest)).
    rewrite V, IHd. reflexivity.
  - change (String.length (String c1 (String c2 (CreditSecurity.hex_of_bytes rest))))
      with (S (S (String.length (CreditSecurity.hex_of_bytes rest)))).
    rewrite IHl. cbn [length]. lia.
  - change (string_forallb is_af09 (String c1 (String c2 (CreditSecurity.hex_of_bytes rest))))
      with (is_af09 c1 && (is_af09 c2
              && string_forallb is_af09 (CreditSecurity.hex_of_bytes rest))).
    rewrite H1, H2, IHc. reflexivity.
Qed.

(** ** Backup codes from generation to use *)

Section Redeem.

#[local] Instance db_kept_preorder : PreOrder db_kept.
Proof. split; [intros w; reflexivity | intros a b c H1 H2; unfold db_kept in *; congruence]. Qed.

#[local] Instance keeps_unused_preorder code : PreOrder (keeps_unused code).
Proof. split; [intros w; exact (fun h => h) | intros a b c H1 H2 h; exact (H2 (H1 h))]. Qed.

Lemma put_backup_code_eq (code : string) (w : World) :
  CreditStorage.put_backup_code code w =
  if hd true (io (env (consume_clock w)))
  then (Ok true,
        update_disk (fun d =>
          set_backupCodes
            (<[code := {| bc_created := hd 0 (clock (env w)); bc_used := false;
                          bc_usedAt := None |}]> (backupCodes d)) d)
          (consume_request (consume_clock w)))
  else (Ok false, consume_request (consume_clock w)).
Proof.
  unfold CreditStorage.put_backup_code.
  rewrite (bind_ok _ _ _ _ _ (Date_now_eq w)).
  rewrite (bind_ok _ _ _ _ _ (idb_request_eq (consume_clock w))).
  destruct (hd true (io (env (consume_clock w)))); reflexivity.
Qed.

Lemma put_backup_code_stores (code : string) (w w' : World) :
  CreditStorage.put_backup_code code w = (Ok true, w') -> stored_unused code w'.
Proof.
  rewrite put_backup_code_eq.
  destruct (hd true (io (env (consume_clock w)))); [|discriminate].
  intros E. injection E as <-.
  eexists. split; [apply lookup_insert_eq | reflexivity].
Qed.

Lemma put_backup_code_keeps_unused (c code : string) :
  respects (keeps_unused c) (CreditStorage.put_backup_code code).
Proof.
  intros w. rewrite put_backup_code_eq.
  destruct (hd true (io (env (consume_clock w)))); [|exact (fun h => h)].
  intros (record & Hl & Hu). unfold stored_unused, world_of. cbn [snd].
  destruct (decide (code = c)) as [->|Hne].
  - eexists. split; [apply lookup_insert_eq | reflexivity].
  - exists record. split; [|exact Hu].
    cbn. rewrite lookup_insert_ne by exact Hne. exact Hl.
Qed.

Lemma put_backup_codes_keep_unused (c : string) (codes : list string) :
  respects (keeps_unused c) (CreditStorage.put_backup_codes codes).
Proof.
  induction codes as [|code rest IH]; cbn [CreditStorage.put_backup_codes].
  - apply respects_ret. typeclasses eauto.
  - apply respects_bind; [typeclasses eauto | apply put_backup_code_keeps_unused |].
    intros ok. apply respects_bind; [typeclasses eauto | exact IH |].
    intros oks. apply respects_ret. typeclasses eauto.
Qed.

Lemma put_backup_code_keeps_db (code : string) :
  respects db_kept (CreditStorage.put_backup_code code).
Proof.
  intros w. rewrite put_backup_code_eq.
  destruct (hd true (io (env (consume_clock w)))); reflexivity.
Qed.

Lemma put_backup_codes_keep_db (codes : list string) :
  respects db_kept (CreditStorage.put_backup_codes codes).
Proof.
  induction codes as [|code rest IH]; cbn [CreditStorage.put_backup_codes].
  - apply respects_ret. typeclasses eauto.
  - apply respects_bind; [typeclasses eauto | apply put_backup_code_keeps_db |].
    intros ok. apply respects_bind; [typeclasses eauto | exact IH |].
    intros oks. apply respects_ret. typeclasses eauto.
Qed.

Lemma put_backup_codes_inv (code : string) (rest : list string) (w w' : World) (all_ok : bool) :
  CreditStorage.put_backup_codes (code :: rest) w = (Ok all_ok, w') ->
  exists ok oks w1,
    CreditStorage.put_backup_code code w = (Ok ok, w1) /\
    CreditStorage.put_backup_codes rest w1 = (Ok oks, w') /\
    all_ok = ok && oks.
Proof.
  cbn [CreditStorage.put_backup_codes]. intros E.
  apply bind_ok_inv in E as (ok & w1 & E1 & E).
  apply bind_ok_inv in E as (oks & w2 & E2 & E).
  injection E as <- <-. exists ok, oks, w1. auto.
Qed.

Lemma put_backup_codes_store (codes : list string) : forall (w w' : World),
  CreditStorage.put_backup_codes codes w = (Ok true, w') ->
  forall c, In c codes -> stored_unused c w'.
Proof.
  induction codes as [|code rest IH]; intros w w' E c Hin; [destruct Hin|].
  apply put_backup_codes_inv in E as (ok & oks & w1 & E1 & E2 & Hand).
  symmetry in Hand. apply andb_true_iff in Hand as [-> ->].
  destruct Hin as [<-|Hin].
  - pose proof (put_backup_codes_keep_unused code rest w1) as K.
    rewrite E2 in K. apply K. exact (put_backup_code_stores _ _ _ E1).
  - exact (IH _ _ E2 c Hin).
Qed.

Lemma getStore_inv (w w' : World) :
  CreditStorage.getStore w = (Ok tt, w') -> db (storage (manager w)) = true /\ w' = w.
Proof.
  destruct (db (storage (manager w))) eqn:Hdb.
  - rewrite (getStore_open _ Hdb). intros E. injection E as <-. auto.
  - rewrite (getStore_closed _ Hdb). discriminate.
Qed.

Lemma saveBackupCodes_inv (codes : list string) (w w' : World) :
  CreditStorage.saveBackupCodes codes w = (Ok tt, w') ->
  db (storage (manager w)) = true /\
  CreditStorage.put_backup_codes codes w = (Ok true, w').
Proof.
  rewrite saveBackupCodes_eq. intros E.
  apply bind_ok_inv in E as ([] & w1 & E1 & E).
  apply getStore_inv in E1 as [Hdb ->].
  apply bind_ok_inv in E as (all_ok & w2 & E2 & E).
  destruct all_ok; [|discriminate]. injection E as <-. auto.
Qed.

Lemma isValidBackupCode_upper (code : string) :
  well_formed_code (toUpperCase code) -> CreditSecurity.isValidBackupCode code = true.
Proof. intros Hw. exact Hw. Qed.



(** X2. A code that [generateBackupCodes] returned is stored unused, and
    [useBackupCode] accepts it once, in either case of its letters, when
    its two requests succeed. *)
Theorem generated_codes_redeemable (w w' : World) (codes : list string) (code : string) :
  CreditManager.generateBackupCodes w = (Ok codes, w') ->
  In (toUpperCase code) codes ->
  requests_succeed 2 w' ->
  exists record,
    backupCodes (disk w') !! toUpperCase code = Some record /\
    bc_used record = false /\
    CreditManager.useBackupCode code w' = (Ok true, after_first_use code record w').
Proof.
  intros Egen Hin Hio.
  rewrite manager_generateBackupCodes_eq in Egen.
  apply bind_ok_inv in Egen as (codes0 & w1 & Egen & E).
  apply bind_ok_inv in E as ([] & w2 & Esave & E).
  injection E as <- <-.
  destruct (generateBackupCodes_total 5 w) as (codes1 & w1' & Egen' & _ & Hwf & _).
  rewrite Egen in Egen'. injection Egen' as <- <-.
  apply saveBackupCodes_inv in Esave as [Hdb Eput].
  assert (Hdb2 : db (storage (manager w2)) = true).
  { pose proof (put_backup_codes_keep_db codes0 w1) as K. rewrite Eput in K.
    unfold db_kept, world_of in K. cbn [snd] in K. congruence. }
  destruct (put_backup_codes_store _ _ _ Eput _ Hin) as (record & Hl & Hu).
  exists record. split; [exact Hl|]. split; [exact Hu|].
  unfold CreditManager.useBackupCode.
  assert (Hv : CreditSecurity.isValidBackupCode code = true).
  { apply isValidBackupCode_upper. exact (proj1 (List.Forall_forall _ _) Hwf _ Hin). }
  rewrite Hv. cbn [negb].
  exact (useBackupCode_unused code w2 record Hdb2 Hio Hl Hu).
Qed.

End Redeem.

Lemma generated_codes_redeemable_witness :
  exists record,
    backupCodes (disk Model.coded) !! "DEADBEEF0000ABCD" = Some record /\
    bc_used record = false /\
    CreditManager.useBackupCode "deadbeef0000abcd" Model.coded
    = (Ok true, after_first_use "deadbeef0000abcd" record Model.coded).
Proof.
  assert (E : exists codes, CreditManager.generateBackupCodes Model.ready = (Ok codes, Model.coded)
                            /\ In (toUpperCase "deadbeef0000abcd") codes).
  { eexists. split; [vm_compute; reflexivity|]. vm_compute. left. reflexivity. }
  destruct E as (codes & E & Hin).
  apply (generated_codes_redeemable Model.ready Model.coded codes "deadbeef0000abcd" E Hin).
  vm_compute. reflexivity.
Defined.


(** ** Settings *)

Section Settings.

Lemma saveSetting_eq (key : string) (value : jsval) (w : World) :
  db (storage (manager w)) = true ->
  CreditStorage.saveSetting key value w =
  if hd true (io (env w))
  then (Ok tt,
        update_disk (fun d => set_creditSettings (<[key := value]> (creditSettings d)) d)
                    (consume_request w))
  else (Throw (Error "Failed to save setting"), consume_request w).
Proof.
  intros Hdb. unfold CreditStorage.saveSetting.
  rewrite (bind_ok _ _ _ _ _ (getStore_open _ Hdb)).
  rewrite (bind_ok _ _ _ _ _ (idb_request_eq w)).
  destruct (hd true (io (env w))); reflexivity.
Qed.

Lemma getSetting_eq (key : string) (defaultValue : jsval) (w : World) :
  db (storage (manager w)) = true ->
  CreditStorage.getSetting key defaultValue w =
  (Ok (if hd true (io (env w))
       then match creditSettings (disk w) !! key with
            | Some value => value
            | None => CreditStorage.default_null defaultValue
            end
       else CreditStorage.default_null defaultValue),
   consume_request w).
Proof.
  intros Hdb. unfold CreditStorage.getSetting. cbv zeta.
  rewrite (bind_ok _ _ _ _ _ (getStore_open _ Hdb)).
  rewrite (bind_ok _ _ _ _ _ (idb_request_eq w)).
  destruct (hd true (io (env w))); [|reflexivity].
  unfold bind, gets.
  change (creditSettings (disk (consume_request w))) with (creditSettings (disk w)).
  destruct (creditSettings (disk w) !! key); reflexivity.
Qed.

(** X3. A setting that [saveSetting] stored is what [getSetting] answers
    for its key, whatever the default; the other settings and the other
    stores are as they were. *)
Theorem getSetting_after_saveSetting (key : string) (value defaultValue : jsval) (w : World) :
  db (storage (manager w)) = true ->
  requests_succeed 2 w ->
  exists w1,
    CreditStorage.saveSetting key value w = (Ok tt, w1) /\
    CreditStorage.getSetting key defaultValue w1 = (Ok value, consume_request w1) /\
    (forall other, other <> key ->
       creditSettings (disk w1) !! other = creditSettings (disk w) !! other) /\
    credits (disk w1) = credits (disk w) /\
    transactions (disk w1) = transactions (disk w) /\
    backupCodes (disk w1) = backupCodes (disk w) /\
    manager w1 = manager w.
Proof.
  intros Hdb Hio.
  pose proof (requests_succeed_head _ _ Hio) as H1.
  assert (H2 : hd true (tl (io (env w))) = true).
  { apply (requests_succeed_head 0 (consume_request w)).
    exact (requests_succeed_tail 1 w (consume_request w) eq_refl Hio). }
  eexists. split; [rewrite (saveSetting_eq _ _ _ Hdb), H1; reflexivity|].
  split; [|split; [|repeat split]].
  - rewrite getSetting_eq by exact Hdb.
    cbn [io env update_disk set_disk consume_request update_env set_env set_io].
    rewrite H2. cbn [creditSettings disk set_disk update_disk set_creditSettings
                     consume_request update_env set_env].
    rewrite lookup_insert_eq. reflexivity.
  - intros other Hne.
    cbn [creditSettings disk set_disk update_disk set_creditSettings
                     consume_request update_env set_env].
    rewrite lookup_insert_ne by congruence. reflexivity.
Qed.

(** X4. On an open database [getSetting] answers the default both when
    the key is absent and when the read request fails: it does not reject,
    and the caller cannot tell the two apart. *)
Theorem getSetting_defaults (key : string) (defaultValue : jsval) (w : World) :
  db (storage (manager w)) = true ->
  (hd true (io (env w)) = false \/ creditSettings (disk w) !! key = None) ->
  CreditStorage.getSetting key defaultValue w
  = (Ok (CreditStorage.default_null defaultValue), consume_request w).
Proof.
  intros Hdb Hcase. rewrite getSetting_eq by exact Hdb.
  destruct Hcase as [-> | ->]; [reflexivity|].
  destruct (hd true (io (env w))); reflexivity.
Qed.

End Settings.

Lemma getSetting_after_saveSetting_witness :
  exists w1,
    CreditStorage.saveSetting "theme" (JStr "dark") Model.ready = (Ok tt, w1) /\
    CreditStorage.getSetting "theme" JNull w1 = (Ok (JStr "dark"), consume_request w1).
Proof.
  destruct (getSetting_after_saveSetting "theme" (JStr "dark") JNull Model.ready)
    as (w1 & E1 & E2 & _).
  - vm_compute. reflexivity.
  - vm_compute. reflexivity.
  - exists w1. split; assumption.
Defined.

Lemma getSetting_defaults_witness :
  CreditStorage.getSetting "theme" (JStr "light") (Model.with_io [false] Model.ready)
  = (Ok (JStr "light"), consume_request (Model.with_io [false] Model.ready)).
Proof.
  apply getSetting_defaults; [vm_compute; reflexivity | left; vm_compute; reflexivity].
Defined.

(** ** The transaction history *)

Section History.

Lemma newer_not_older (a b : Transaction) : CreditStorage.newer a b = true -> not_older a b.
Proof. unfold CreditStorage.newer, not_older. lia. Qed.

Lemma not_newer_not_older (a b : Transaction) :
  CreditStorage.newer a b = false -> not_older b a.
Proof. unfold CreditStorage.newer, not_older. lia. Qed.

Lemma not_older_trans (a b c : Transaction) : not_older a b -> not_older b c -> not_older a c.
Proof. unfold not_older. lia. Qed.

Lemma insert_newest_In (t x : Transaction) (l : list Transaction) :
  In x (CreditStorage.insert_newest t l) <-> x = t \/ In x l.
Proof.
  induction l as [|y rest IH]; cbn [CreditStorage.insert_newest].
  - cbn. intuition.
  - destruct (CreditStorage.newer y t); cbn [In]; [rewrite IH|]; intuition.
Qed.

Lemma insert_newest_length (t : Transaction) (l : list Transaction) :
  length (CreditStorage.insert_newest t l) = S (length l).
Proof.
  induction l as [|y rest IH]; cbn [CreditStorage.insert_newest]; [reflexivity|].
  destruct (CreditStorage.newer y t); cbn [length]; [rewrite IH|]; reflexivity.
Qed.

Lemma insert_newest_sorted (t : Transaction) (l : list Transaction) :
  StronglySorted not_older l -> StronglySorted not_older (CreditStorage.insert_newest t l).
Proof.
  induction 1 as [|y rest Hs IH Hall]; cbn [CreditStorage.insert_newest].
  - constructor; constructor.
  - destruct (CreditStorage.newer y t) eqn:E.
    + constructor; [exact IH|].
      apply List.Forall_forall. intros x Hx. apply insert_newest_In in Hx as [->|Hx].
      * exact (newer_not_older _ _ E).
      * exact (proj1 (List.Forall_forall _ _) Hall x Hx).
    + constructor; [constructor; assumption|].
      pose proof (not_newer_not_older _ _ E) as Hty.
      constructor; [exact Hty|].
      apply List.Forall_forall. intros x Hx.
      exact (not_older_trans _ _ _ Hty (proj1 (List.Forall_forall _ _) Hall x Hx)).
Qed.

Lemma newest_first_sorted (log : list Transaction) :
  StronglySorted not_older (CreditStorage.newest_first log).
Proof.
  induction log as [|t rest IH]; [constructor|].
  exact (insert_newest_sorted t _ IH).
Qed.

Lemma newest_first_In (x : Transaction) (log : list Transaction) :
  In x (CreditStorage.newest_first log) <-> In x log.
Proof.
  induction log as [|t rest IH]; [reflexivity|].
  change (CreditStorage.newest_first (t :: rest))
    with (CreditStorage.insert_newest t (CreditStorage.newest_first rest)).
  rewrite insert_newest_In, IH. cbn [In]. intuition.
Qed.

Lemma newest_first_length (log : list Transaction) :
  length (CreditStorage.newest_first log) = length log.
Proof.
  induction log as [|t rest IH]; [reflexivity|].
  change (CreditStorage.newest_first (t :: rest))
    with (CreditStorage.insert_newest t (CreditStorage.newest_first rest)).
  rewrite insert_newest_length, IH. reflexivity.
Qed.

(** Inserting a record that is older than every record of a list puts it
    last. *)
Lemma insert_newest_oldest (t : Transaction) (l : list Transaction) :
  Forall (fun x => CreditStorage.newer x t = true) l ->
  CreditStorage.insert_newest t l = l ++ [t].
Proof.
  induction 1 as [|y rest Hy Hall IH]; [reflexivity|].
  cbn [CreditStorage.insert_newest]. rewrite Hy, IH. reflexivity.
Qed.

Lemma newest_first_chronological (log : list Transaction) :
  chronological log -> CreditStorage.newest_first log = rev log.
Proof.
  induction 1 as [|t rest Hs IH Hall]; [reflexivity|].
  change (CreditStorage.newest_first (t :: rest))
    with (CreditStorage.insert_newest t (CreditStorage.newest_first rest)).
  rewrite IH. cbn [rev]. apply insert_newest_oldest.
  apply List.Forall_forall. intros x Hx. apply in_rev in Hx.
  exact (proj1 (List.Forall_forall _ _) Hall x Hx).
Qed.

Lemma cursor_events_ok (remaining : list Transaction) :
  forall (limit count : Z) (collected : list Transaction) (w : World),
    requests_succeed (S (length remaining)) w ->
    exists w',
      CreditStorage.cursor_events limit count remaining collected w
      = (Ok (collected ++ firstn (Z.to_nat (limit - count)) remaining), w') /\
      same_state w w'.
Proof.
  induction remaining as [|cursor rest IH]; intros limit count collected w Hio.
  - cbn [CreditStorage.cursor_events].
    rewrite (bind_ok _ _ _ _ _ (idb_request_ok _ _ Hio)). cbn [negb].
    eexists. split; [rewrite firstn_nil, app_nil_r; reflexivity | repeat split].
  - cbn [CreditStorage.cursor_events].
    rewrite (bind_ok _ _ _ _ _ (idb_request_ok _ _ Hio)). cbn [negb].
    destruct (count <? limit) eqn:E.
    + destruct (IH limit (count + 1) (collected ++ [cursor]) (consume_request w))
        as (w' & E' & Hs).
      { exact (requests_succeed_tail _ w (consume_request w) eq_refl Hio). }
      exists w'. split; [|exact Hs].
      change (update_env (fun e => set_io (tl (io e)) e) w) with (consume_request w).
      rewrite E'. f_equal. f_equal.
      replace (Z.to_nat (limit - count)) with (S (Z.to_nat (limit - (count + 1)))) by lia.
      cbn [firstn]. rewrite <- app_assoc. reflexivity.
    + replace (Z.to_nat (limit - count)) with 0%nat by lia.
      cbn [firstn]. rewrite app_nil_r.
      eexists. split; [reflexivity | repeat split].
Qed.

Lemma In_firstn {A} (x : A) (n : nat) : forall l, In x (firstn n l) -> In x l.
Proof.
  induction n as [|n IH]; intros [|y rest]; cbn [firstn In]; try tauto.
  intros [->|Hx]; [left; reflexivity | right; exact (IH _ Hx)].
Qed.

Lemma StronglySorted_firstn {A} (R : A -> A -> Prop) (n : nat) : forall l,
  StronglySorted R l -> StronglySorted R (firstn n l).
Proof.
  induction n as [|n IH]; intros l Hs; [constructor|].
  destruct Hs as [|x rest Hs Hall]; [constructor|].
  cbn [firstn]. constructor; [exact (IH _ Hs)|].
  apply List.Forall_forall. intros y Hy.
  exact (proj1 (List.Forall_forall _ _) Hall y (In_firstn _ _ _ Hy)).
Qed.

(** X5. When its requests succeed, [getTransactionHistory(limit)]
    answers the [limit] most recent records of the log, most recent first:
    no more than [limit], each one a record of the log, by non-increasing
    timestamp; and when the log is in the order of its index, they are the
    last records of the log in reverse. *)
Theorem getTransactionHistory_newest_first (limit : Z) (w : World) :
  db (storage (manager w)) = true ->
  requests_succeed (S (length (transactions (disk w)))) w ->
  exists history w',
    CreditStorage.getTransactionHistory limit w = (Ok history, w') /\
    same_state w w' /\
    history = firstn (Z.to_nat limit) (CreditStorage.newest_first (transactions (disk w))) /\
    length history = Nat.min (Z.to_nat limit) (length (transactions (disk w))) /\
    StronglySorted not_older history /\
    (forall t, In t history -> In t (transactions (disk w))) /\
    (chronological (transactions (disk w)) ->
     history = firstn (Z.to_nat limit) (rev (transactions (disk w)))).
Proof.
  intros Hdb Hio.
  destruct (cursor_events_ok (CreditStorage.newest_first (transactions (disk w)))
              limit 0 [] w) as (w' & E & Hs).
  { rewrite newest_first_length. exact Hio. }
  rewrite Z.sub_0_r in E. cbn [app] in E.
  eexists. exists w'. split; [|split; [exact Hs|split; [reflexivity|]]].
  - unfold CreditStorage.getTransactionHistory.
    rewrite (bind_ok _ _ _ _ _ (getStore_open _ Hdb)).
    unfold bind at 1, gets. exact E.
  - split; [|split; [|split]].
    + rewrite length_firstn, newest_first_length. reflexivity.
    + apply StronglySorted_firstn, newest_first_sorted.
    + intros t Ht. apply newest_first_In. exact (In_firstn _ _ _ Ht).
    + intros Hc. rewrite (newest_first_chronological _ Hc). reflexivity.
Qed.

End History.

Lemma getTransactionHistory_newest_first_witness :
  exists history w',
    @CreditStorage.getTransactionHistory 1 spent = (Ok history, w') /\
    history = firstn 1 (CreditStorage.newest_first (transactions (disk spent))) /\
    length history = Nat.min 1 (length (transactions (disk spent))).
Proof.
  destruct (getTransactionHistory_newest_first 1 spent)
    as (history & w' & E & _ & Hh & Hl & _).
  - vm_compute. reflexivity.
  - vm_compute. reflexivity.
  - exists history, w'. split; [exact E|]. split; [exact Hh | exact Hl].
Defined.

(** ** Settlement *)

Section Settle.

Lemma settles_ret {A} (a : A) : settles (ret a).
Proof. intros w. discriminate. Qed.
Lemma settles_throw {A} (e : exn) : settles (@throw A e).
Proof. intros w. discriminate. Qed.
Lemma settles_gets {A} (f : World -> A) : settles (gets f).
Proof. intros w. discriminate. Qed.
Lemma settles_modify (f : World -> World) : settles (modify f).
Proof. intros w. discriminate. Qed.
Lemma settles_lift {A} (o : outcome A) : o <> Pending -> settles (lift o).
Proof. intros Ho w. exact Ho. Qed.
Lemma settles_get (k : string) (v : jsval) : settles (lift (get k v)).
Proof. apply settles_lift. destruct v; discriminate. Qed.

Lemma settles_bind {A B} (m : M A) (k : A -> M B) :
  settles m -> (forall a, settles (k a)) -> settles (bind m k).
Proof.
  intros Hm Hk w. specialize (Hm w). unfold bind.
  destruct (m w) as [[a|e|] w1]; [apply Hk | discriminate | exfalso; apply Hm; reflexivity].
Qed.

Lemma settles_try_catch {A} (m : M A) (h : exn -> M A) :
  settles m -> (forall e, settles (h e)) -> settles (try_catch m h).
Proof.
  intros Hm Hh w. specialize (Hm w). unfold try_catch.
  destruct (m w) as [[a|e|] w1]; [discriminate | apply Hh | exact Hm].
Qed.

Lemma settles_for_each {A} (f : A -> M unit) (xs : list A) :
  (forall x, settles (f x)) -> settles (for_each f xs).
Proof.
  intros Hf. induction xs as [|x rest IH]; [apply settles_ret|].
  apply settles_bind; [apply Hf | intros _; exact IH].
Qed.

Lemma settles_idb_request : settles idb_request.
Proof. intros w. discriminate. Qed.
Lemma settles_Date_now : settles Date_now.
Proof. intros w. discriminate. Qed.
Lemma settles_random_word : settles random_word.
Proof. intros w. discriminate. Qed.

End Settle.

Ltac settle_step :=
  first
    [ match goal with |- forall _, _ => intros ? end
    | match goal with H : _ |- settles _ => simple apply H end
    | simple apply @settles_ret | simple apply @settles_throw
    | simple apply @settles_gets | simple apply @settles_modify
    | simple apply settles_get
    | simple apply settles_idb_request | simple apply settles_Date_now
    | simple apply settles_random_word
    | simple apply @settles_bind
    | simple apply @settles_try_catch
    | simple apply @settles_for_each
    | match goal with
      | |- settles (if ?b then _ else _) => destruct b
      | |- settles (match ?x with _ => _ end) => destruct x
      end ].
Ltac settle := repeat settle_step.

Section Settled.
Context `{Platform}.

Lemma settles_getRandomValues wrap n : settles (getRandomValues wrap n).
Proof. induction n; cbn [getRandomValues]; settle. Qed.

Lemma settles_generateDeviceFingerprint self :
  settles (CreditSecurity.generateDeviceFingerprint self).
Proof. unfold CreditSecurity.generateDeviceFingerprint. settle. Qed.

Lemma settles_initializeCryptoKey self : settles (CreditSecurity.initializeCryptoKey self).
Proof.
  pose proof (settles_generateDeviceFingerprint self).
  unfold CreditSecurity.initializeCryptoKey. settle.
Qed.

Lemma settles_createIntegrityHash self creditData :
  settles (CreditSecurity.createIntegrityHash self creditData).
Proof.
  pose proof (settles_generateDeviceFingerprint self).
  unfold CreditSecurity.createIntegrityHash. settle.
Qed.

Lemma settles_encryptData self data : settles (CreditSecurity.encryptData self data).
Proof.
  pose proof (settles_initializeCryptoKey self).
  pose proof (settles_getRandomValues wrap8 12).
  unfold CreditSecurity.encryptData. settle.
Qed.

Lemma settles_getStore : settles CreditStorage.getStore.
Proof. unfold CreditStorage.getStore. settle. Qed.

Lemma settles_saveCreditBalance balance fingerprint :
  settles (CreditStorage.saveCreditBalance balance fingerprint).
Proof.
  pose proof settles_getStore.
  pose proof (settles_encryptData OfStorage).
  pose proof (settles_createIntegrityHash OfStorage).
  unfold CreditStorage.saveCreditBalance. settle.
Qed.

Lemma settles_logTransaction type amount operation metadata :
  settles (CreditStorage.logTransaction type amount operation metadata).
Proof.
  pose proof settles_getStore.
  pose proof (settles_generateDeviceFingerprint OfStorage).
  unfold CreditStorage.logTransaction. settle.
Qed.

Lemma settles_saveBalance : settles CreditManager.saveBalance.
Proof.
  pose proof settles_saveCreditBalance.
  unfold CreditManager.saveBalance, CreditManager.getBalance. settle.
Qed.

Lemma settles_notifyBalanceChange : settles CreditManager.notifyBalanceChange.
Proof. unfold CreditManager.notifyBalanceChange, CreditManager.getBalance. settle. Qed.

Lemma settles_rethrow_with {A} what error : settles (@CreditManager.rethrow_with A what error).
Proof. unfold CreditManager.rethrow_with. settle. Qed.

Lemma settles_deductCredits cost operation metadata :
  settles (CreditManager.deductCredits cost operation metadata).
Proof.
  pose proof settles_saveBalance. pose proof settles_logTransaction.
  pose proof settles_notifyBalanceChange.
  pose proof (@settles_rethrow_with jsval).
  unfold CreditManager.deductCredits, CreditManager.hasSufficientCredits,
    CreditManager.getBalance, CreditManager.assign_balance.
  settle.
Qed.

Lemma settles_addCredits amount source metadata :
  settles (CreditManager.addCredits amount source metadata).
Proof.
  pose proof settles_saveBalance. pose proof settles_logTransaction.
  pose proof settles_notifyBalanceChange.
  pose proof (@settles_rethrow_with jsval).
  unfold CreditManager.addCredits, CreditManager.getBalance, CreditManager.assign_balance.
  settle.
Qed.

End Settled.

#[local] Instance ledger_kept_preorder : PreOrder ledger_kept.
Proof.
  split; [intros w; reflexivity|].
  intros a b c H1 H2. unfold ledger_kept in *. congruence.
Qed.

Ltac kept :=
  frame;
  try match goal with
      | |- respects _ (modify _) =>
          simple apply respects_modify;
          match goal with
          | |- PreOrder _ => typeclasses eauto
          | |- _ => intros ?; hnf; reflexivity
          end
      end.

Section Ledger.
Context `{Platform}.

Lemma ledger_kept_env (w : World) (f : Env -> Env) : ledger_kept w (update_env f w).
Proof. reflexivity. Qed.
Lemma ledger_kept_security (w : World) self s : ledger_kept w (write_security self s w).
Proof. destruct self; reflexivity. Qed.
Lemma ledger_kept_ui (w : World) u : ledger_kept w (set_ui u w).
Proof. reflexivity. Qed.

Lemma saveBalance_keeps_ledger : respects ledger_kept CreditManager.saveBalance.
Proof.
  pose proof (respects_getStore ledger_kept).
  pose proof (respects_Date_now ledger_kept ledger_kept_env).
  pose proof (respects_idb_request ledger_kept ledger_kept_env).
  pose proof (respects_createIntegrityHash ledger_kept ledger_kept_security OfStorage).
  pose proof (respects_encryptData ledger_kept ledger_kept_env ledger_kept_security
                OfStorage).
  unfold CreditManager.saveBalance, CreditManager.getBalance,
    CreditStorage.saveCreditBalance.
  kept.
Qed.

Lemma notifyBalanceChange_keeps_ledger : respects ledger_kept CreditManager.notifyBalanceChange.
Proof.
  unfold CreditManager.notifyBalanceChange, CreditManager.getBalance. kept.
Qed.

Lemma notifyBalanceChange_succeeds : succeeds CreditManager.notifyBalanceChange.
Proof.
  intros w. destruct (notifyBalanceChange_total w) as (w' & E & _).
  exists tt. rewrite E. reflexivity.
Qed.

Lemma logTransaction_closed type amount operation metadata (w : World) :
  db (storage (manager w)) = false ->
  CreditStorage.logTransaction type amount operation metadata w
  = (Throw (Error "Database not initialized"),
     cache_fingerprint OfStorage (consume_clock w)).
Proof.
  intros Hdb. unfold CreditStorage.logTransaction.
  rewrite (bind_ok _ _ _ _ _ (Date_now_eq w)).
  rewrite (bind_ok _ _ _ _ _ (generateDeviceFingerprint_eq OfStorage (consume_clock w))).
  assert (Hdb' : db (storage (manager (cache_fingerprint OfStorage (consume_clock w)))) = false).
  { rewrite (co_db _ _ (cache_fingerprint_only OfStorage (consume_clock w))). exact Hdb. }
  rewrite (bind_throw _ _ _ _ _ (getStore_closed _ Hdb')). reflexivity.
Qed.

Lemma logTransaction_logs_once type amount operation metadata :
  logs_once type amount (CreditStorage.logTransaction type amount operation metadata).
Proof.
  intros w. split; [apply logTransaction_keeps_balance|].
  destruct (db (storage (manager w))) eqn:Hdb.
  - rewrite (logTransaction_eq _ _ _ _ _ Hdb).
    destruct (hd true (io (env w))); cbn [result_of world_of fst snd].
    + eexists. split.
      { cbn [transactions disk update_disk set_disk set_transactions].
        rewrite log_attempted_disk. reflexivity. }
      repeat split.
    + rewrite log_attempted_disk. split; reflexivity.
  - rewrite (logTransaction_closed _ _ _ _ _ Hdb). cbn [result_of world_of fst snd].
    rewrite (co_disk _ _ (cache_fingerprint_only OfStorage (consume_clock w))).
    split; reflexivity.
Qed.

Lemma logs_once_after {A B} type amount (m : M A) (k : A -> M B) :
  respects ledger_kept m -> settles m ->
  (forall a, logs_once type amount (k a)) ->
  logs_once type amount (bind m k).
Proof.
  intros Hr Hs Hk w. specialize (Hr w). specialize (Hs w).
  unfold bind. unfold world_of, result_of in Hr, Hs.
  destruct (m w) as [[a|e|] w1]; cbn [fst snd] in Hr, Hs.
  - injection Hr as Hb Ht Hn. specialize (Hk a w1). rewrite Hb, Ht, Hn in Hk. exact Hk.
  - injection Hr as Hb Ht Hn. cbn [result_of world_of fst snd]. auto.
  - congruence.
Qed.

Lemma logs_once_then {A B} type amount (m : M A) (k : A -> M B) :
  logs_once type amount m ->
  (forall a, respects ledger_kept (k a)) -> (forall a, succeeds (k a)) ->
  logs_once type amount (bind m k).
Proof.
  intros Hm Hr Hs w. specialize (Hm w). unfold bind.
  unfold world_of, result_of in Hm.
  destruct (m w) as [[a|e|] w1]; cbn [fst snd] in Hm; [|exact Hm|exact Hm].
  destruct Hm as [Hb Hm]. specialize (Hr a w1). destruct (Hs a w1) as [b Hok].
  unfold world_of, result_of in *.
  destruct (k a w1) as [r w2]; cbn [fst snd] in *. subst r.
  injection Hr as Hb2 Ht2 Hn2. rewrite Hb2, Ht2, Hn2. auto.
Qed.

Lemma succeeds_ret {A} (a : A) : succeeds (ret a).
Proof. intros w. exists a. reflexivity. Qed.

Lemma succeeds_bind {A B} (m : M A) (k : A -> M B) :
  succeeds m -> (forall a, succeeds (k a)) -> succeeds (bind m k).
Proof.
  intros Hm Hk w. destruct (Hm w) as [a Ha]. unfold bind.
  unfold result_of in Ha. destruct (m w) as [r w1]; cbn [fst] in Ha. subst r.
  apply Hk.
Qed.

Lemma succeeds_gets {A} (f : World -> A) : succeeds (gets f).
Proof. intros w. eexists. reflexivity. Qed.

(** The part of [deductCredits] and [addCredits] that their [try] block
    guards. *)
Lemma guarded_logs_once type amount operation (metadata_of result_for : Z -> jsval) :
  logs_once type amount
    (CreditManager.saveBalance;;
     let* newBalance := CreditManager.getBalance in
     let* _ := CreditStorage.logTransaction type amount operation (metadata_of newBalance) in
     CreditManager.notifyBalanceChange;;
     let* newBalance := CreditManager.getBalance in
     ret (result_for newBalance)).
Proof.
  apply logs_once_after; [apply saveBalance_keeps_ledger | apply settles_saveBalance|].
  intros _. apply logs_once_after;
    [unfold CreditManager.getBalance; kept
    | unfold CreditManager.getBalance; settle |].
  intros newBalance. apply logs_once_then; [apply logTransaction_logs_once | |].
  - intros _. pose proof notifyBalanceChange_keeps_ledger.
    unfold CreditManager.getBalance. kept.
  - intros _. apply succeeds_bind; [apply notifyBalanceChange_succeeds|].
    intros _. apply succeeds_bind; [apply succeeds_gets|]. intros b. apply succeeds_ret.
Qed.

(** How a guarded mutation ends: committed, with one record more in the
    log, or rolled back to [previousBalance], with the log as it was. *)
Lemma guarded_mutation type amount (body : M jsval) (what : string)
      (previousBalance : Z) (w : World) :
  logs_once type amount body ->
  let r := try_catch body
             (fun error =>
                CreditManager.assign_balance previousBalance;;
                CreditManager.rethrow_with what error) w in
  (exists v t,
      result_of r = Ok v /\
      currentBalance (manager (world_of r)) = currentBalance (manager w) /\
      transactions (disk (world_of r)) = transactions (disk w) ++ [t] /\
      tx_type t = type /\ tx_amount t = amount /\ tx_id t = next_tx_id (disk w) /\
      next_tx_id (disk (world_of r)) = next_tx_id (disk w) + 1) \/
  (exists e,
      result_of r = Throw e /\
      currentBalance (manager (world_of r)) = previousBalance /\
      transactions (disk (world_of r)) = transactions (disk w) /\
      next_tx_id (disk (world_of r)) = next_tx_id (disk w)).
Proof.
  intros Hbody r. subst r. destruct (Hbody w) as [Hb Hlog].
  unfold try_catch. unfold result_of, world_of in *.
  destruct (body w) as [[v|e|] w1]; cbn [fst snd] in *.
  - left. destruct Hlog as (t & Ht & H1 & H2 & H3 & H4).
    exists v, t. repeat split; assumption.
  - right. destruct Hlog as [Ht Hn].
    unfold CreditManager.rethrow_with.
    destruct (message e) as [m|type_error].
    + exists (Error (what +:+ ": " +:+ m)). repeat split; assumption.
    + exists type_error. repeat split; assumption.
  - destruct Hlog.
Qed.

End Ledger.

Section Atomic.
Context `{Platform}.

Lemma deductCredits_commits_or_rolls_back
        (cost : Z) (operation : string) (metadata : jsval) (w : World) :
  let r := CreditManager.deductCredits cost operation metadata w in
  (exists v t,
      result_of r = Ok v /\
      cost <= currentBalance (manager w) /\
      currentBalance (manager (world_of r)) = currentBalance (manager w) - cost /\
      transactions (disk (world_of r)) = transactions (disk w) ++ [t] /\
      tx_type t = "deduction" /\ tx_amount t = cost /\ tx_id t = next_tx_id (disk w) /\
      next_tx_id (disk (world_of r)) = next_tx_id (disk w) + 1) \/
  (exists e,
      result_of r = Throw e /\
      currentBalance (manager (world_of r)) = currentBalance (manager w) /\
      transactions (disk (world_of r)) = transactions (disk w) /\
      next_tx_id (disk (world_of r)) = next_tx_id (disk w)).
Proof.
  intros r. subst r. rewrite deductCredits_eq.
  destruct (cost <=? currentBalance (manager w)) eqn:Hc.
  - pose proof (guarded_mutation "deduction" cost _ "Failed to deduct credits"
                  (currentBalance (manager w))
                  (update_manager (set_currentBalance (currentBalance (manager w) - cost)) w)
                  (guarded_logs_once "deduction" cost operation
                     (fun newBalance =>
                        JObj (assign (spread metadata)
                                [("previousBalance", JNum (currentBalance (manager w)));
                                 ("newBalance", JNum newBalance)]))
                     (fun newBalance =>
                        JObj [("success", JBool true);
                              ("previousBalance", JNum (currentBalance (manager w)));
                              ("newBalance", JNum newBalance);
                              ("deducted", JNum cost)]))) as Hg.
    cbv zeta in Hg.
    destruct Hg as [(v & t & Hr & Hb & Ht & H1 & H2 & H3 & H4) | (e & Hr & Hb & Ht & Hn)].
    + left. exists v, t. repeat split; try assumption. lia.
    + right. exists e. repeat split; assumption.
  - right. eexists. repeat split.
Qed.

Lemma addCredits_commits_or_rolls_back
        (amount : Z) (source : string) (metadata : jsval) (w : World) :
  let r := CreditManager.addCredits amount source metadata w in
  (exists v t,
      result_of r = Ok v /\
      currentBalance (manager (world_of r)) = currentBalance (manager w) + amount /\
      transactions (disk (world_of r)) = transactions (disk w) ++ [t] /\
      tx_type t = "purchase" /\ tx_amount t = amount /\ tx_id t = next_tx_id (disk w) /\
      next_tx_id (disk (world_of r)) = next_tx_id (disk w) + 1) \/
  (exists e,
      result_of r = Throw e /\
      currentBalance (manager (world_of r)) = currentBalance (manager w) /\
      transactions (disk (world_of r)) = transactions (disk w) /\
      next_tx_id (disk (world_of r)) = next_tx_id (disk w)).
Proof.
  intros r. subst r. rewrite addCredits_eq.
  pose proof (guarded_mutation "purchase" amount _ "Failed to add credits"
                (currentBalance (manager w))
                (update_manager (set_currentBalance (currentBalance (manager w) + amount)) w)
                (guarded_logs_once "purchase" amount source
                   (fun newBalance =>
                      JObj (assign (spread metadata)
                              [("previousBalance", JNum (currentBalance (manager w)));
                               ("newBalance", JNum newBalance)]))
                   (fun newBalance =>
                      JObj [("success", JBool true);
                            ("previousBalance", JNum (currentBalance (manager w)));
                            ("newBalance", JNum newBalance);
                            ("added", JNum amount)]))) as Hg.
  cbv zeta in Hg.
  destruct Hg as [(v & t & Hr & Hb & Ht & H1 & H2 & H3 & H4) | (e & Hr & Hb & Ht & Hn)].
  - left. exists v, t. repeat split; assumption.
  - right. exists e. repeat split; assumption.
Qed.

(** X6. In memory and in the log, [deductCredits] and [addCredits] are
    all or nothing, in every world: the call succeeds, the balance has
    moved by the amount and the log has one record more, of that type and
    amount, under the next key of the store; or the call fails, and the
    balance and the log are as they were. *)
Theorem mutation_commits_or_rolls_back (amount : Z) (operation : string) (metadata : jsval)
        (w : World) :
  (let r := CreditManager.deductCredits amount operation metadata w in
   (exists v t,
       result_of r = Ok v /\
       amount <= currentBalance (manager w) /\
       currentBalance (manager (world_of r)) = currentBalance (manager w) - amount /\
       transactions (disk (world_of r)) = transactions (disk w) ++ [t] /\
       tx_type t = "deduction" /\ tx_amount t = amount /\ tx_id t = next_tx_id (disk w) /\
       next_tx_id (disk (world_of r)) = next_tx_id (disk w) + 1) \/
   (exists e,
       result_of r = Throw e /\
       currentBalance (manager (world_of r)) = currentBalance (manager w) /\
       transactions (disk (world_of r)) = transactions (disk w) /\
       next_tx_id (disk (world_of r)) = next_tx_id (disk w))) /\
  (let r := CreditManager.addCredits amount operation metadata w in
   (exists v t,
       result_of r = Ok v /\
       currentBalance (manager (world_of r)) = currentBalance (manager w) + amount /\
       transactions (disk (world_of r)) = transactions (disk w) ++ [t] /\
       tx_type t = "purchase" /\ tx_amount t = amount /\ tx_id t = next_tx_id (disk w) /\
       next_tx_id (disk (world_of r)) = next_tx_id (disk w) + 1) \/
   (exists e,
       result_of r = Throw e /\
       currentBalance (manager (world_of r)) = currentBalance (manager w) /\
       transactions (disk (world_of r)) = transactions (disk w) /\
       next_tx_id (disk (world_of r)) = next_tx_id (disk w))).
Proof.
  split.
  - exact (deductCredits_commits_or_rolls_back amount operation metadata w).
  - exact (addCredits_commits_or_rolls_back amount operation metadata w).
Qed.

End Atomic.

#[local] Instance accounted_preorder : PreOrder accounted.
Proof.
  split; [intros w; reflexivity|].
  intros a b c H1 H2. unfold accounted in *. congruence.
Qed.

Section Accounts.
Context `{Platform}.

Lemma calculateHistoryStats_snoc (log : list Transaction) (t : Transaction) :
  CreditUI.calculateHistoryStats (log ++ [t]) =
  let stats := CreditUI.calculateHistoryStats log in
  if String.eqb (tx_type t) "purchase"
  then {| CreditUI.totalPurchased := CreditUI.totalPurchased stats + tx_amount t;
          CreditUI.totalUsed := CreditUI.totalUsed stats |}
  else if String.eqb (tx_type t) "deduction"
  then {| CreditUI.totalPurchased := CreditUI.totalPurchased stats;
          CreditUI.totalUsed := CreditUI.totalUsed stats + tx_amount t |}
  else stats.
Proof. unfold CreditUI.calculateHistoryStats. rewrite fold_left_app. reflexivity. Qed.

Lemma net_purchased_deduction (log : list Transaction) (t : Transaction) :
  tx_type t = "deduction" ->
  net_purchased (log ++ [t]) = net_purchased log - tx_amount t.
Proof.
  intros Ht. unfold net_purchased. rewrite calculateHistoryStats_snoc, Ht.
  cbn. lia.
Qed.

Lemma net_purchased_purchase (log : list Transaction) (t : Transaction) :
  tx_type t = "purchase" ->
  net_purchased (log ++ [t]) = net_purchased log + tx_amount t.
Proof.
  intros Ht. unfold net_purchased. rewrite calculateHistoryStats_snoc, Ht.
  cbn. lia.
Qed.

Lemma deductCredits_accounted cost operation metadata :
  respects accounted (CreditManager.deductCredits cost operation metadata).
Proof.
  intros w. unfold accounted, unaccounted.
  destruct (deductCredits_commits_or_rolls_back cost operation metadata w)
    as [(v & t & _ & _ & Hb & Ht & H1 & H2 & _) | (e & _ & Hb & Ht & _)].
  - rewrite Hb, Ht, (net_purchased_deduction _ _ H1), H2. lia.
  - rewrite Hb, Ht. reflexivity.
Qed.

Lemma addCredits_accounted amount source metadata :
  respects accounted (CreditManager.addCredits amount source metadata).
Proof.
  intros w. unfold accounted, unaccounted.
  destruct (addCredits_commits_or_rolls_back amount source metadata w)
    as [(v & t & _ & Hb & Ht & H1 & H2 & _) | (e & _ & Hb & Ht & _)].
  - rewrite Hb, Ht, (net_purchased_purchase _ _ H1), H2. lia.
  - rewrite Hb, Ht. reflexivity.
Qed.

Lemma accounted_env (w : World) (f : Env -> Env) : accounted w (update_env f w).
Proof. reflexivity. Qed.

Lemma purchaseCredits_accounted packageKey paymentMethod :
  respects accounted (CreditManager.purchaseCredits packageKey paymentMethod).
Proof.
  pose proof addCredits_accounted.
  pose proof (respects_Date_now accounted accounted_env).
  unfold CreditManager.purchaseCredits, CreditManager.simulatePayment. frame.
Qed.

Lemma run_operation_accounted (o : Operation) :
  metered o -> respects accounted (run_operation o).
Proof.
  destruct o; cbn [metered run_operation]; intros Hm; try contradiction.
  - apply deductCredits_accounted.
  - apply addCredits_accounted.
  - apply purchaseCredits_accounted.
Qed.

(** X7. Along any sequence of [deductCredits], [addCredits] and
    [purchaseCredits] (of packages of the catalog), whatever requests
    fail, the balance in memory moves with the totals that the history
    modal computes from the whole log: the balance less (total purchased
    less total used) stays what it was. *)
Theorem balance_accounts_for_log (ops : list Operation) (w : World) :
  Forall metered ops ->
  Forall (fun w' =>
            currentBalance (manager w') - net_purchased (transactions (disk w'))
            = currentBalance (manager w) - net_purchased (transactions (disk w)))
         (run_trace ops w).
Proof.
  intros Hops. revert w. induction Hops as [|o rest Ho _ IH]; intros w; [constructor|].
  cbn [run_trace]. pose proof (run_operation_accounted o Ho w) as Hstep.
  constructor; [exact Hstep|].
  eapply List.Forall_impl; [|apply IH].
  intros w'. cbv beta. unfold accounted, unaccounted in Hstep. lia.
Qed.

End Accounts.

Lemma balance_accounts_for_log_witness :
  Forall (fun w' =>
            currentBalance (manager w') - net_purchased (transactions (disk w')) = 0)
    (@run_trace Model.browser
       [AddCredits 100 "purchase" (JObj []);
        DeductCredits 7 "translate" (JObj []);
        DeductCredits 3 "polish" (JObj []);
        PurchaseCredits "SMALL" "demo";
        DeductCredits 500 "complete" (JObj [])]
       (Model.with_io [true; true; true; false; false] Model.opened)).
Proof.
  apply (@balance_accounts_for_log Model.browser
           [AddCredits 100 "purchase" (JObj []);
            DeductCredits 7 "translate" (JObj []);
            DeductCredits 3 "polish" (JObj []);
            PurchaseCredits "SMALL" "demo";
            DeductCredits 500 "complete" (JObj [])]
           (Model.with_io [true; true; true; false; false] Model.opened)).
  repeat constructor.
Defined.

#[local] Instance keeps_log_ordered_preorder : PreOrder keeps_log_ordered.
Proof.
  split; [intros w Hord; exact Hord|].
  intros a b c H1 H2 Hord. exact (H2 (H1 Hord)).
Qed.


Section Ordered.
Context `{Platform}.












End Ordered.


(** ** A deduction that succeeds *)

Section Success.
Context `{Platform}.

Lemma for_each_notify (balance : Z) (listeners : list Listener) : forall w,
  for_each (fun l => modify (fun w => set_ui (ui w ++ [Notified (listener_id l) balance]) w))
           listeners w
  = (Ok tt, set_ui (ui w ++ map (fun l => Notified (listener_id l) balance) listeners) w).
Proof.
  induction listeners as [|l rest IH]; intros w.
  - cbn [for_each map]. rewrite app_nil_r. destruct w; reflexivity.
  - cbn [for_each map].
    change (bind (modify ?f) ?k w) with (k tt (f w)). cbv beta.
    rewrite IH. cbn [ui set_ui]. rewrite <- app_assoc. reflexivity.
Qed.

Lemma notifyBalanceChange_eq (w : World) :
  CreditManager.notifyBalanceChange w = (Ok tt, set_ui (ui w ++ notifications w) w).
Proof.
  unfold CreditManager.notifyBalanceChange.
  unfold bind at 1. unfold gets at 1.
  unfold bind at 1. unfold CreditManager.getBalance at 1. unfold gets at 1.
  apply for_each_notify.
Qed.

Lemma assoc_set_field (k k' : string) (v : jsval) (fields : list (string * jsval)) :
  assoc k (set_field k' v fields) = if String.eqb k k' then Some v else assoc k fields.
Proof.
  induction fields as [|[k0 v0] rest IH]; cbn [set_field assoc].
  - destruct (String.eqb k k'); reflexivity.
  - destruct (String.eqb k' k0) eqn:E0; cbn [assoc].
    + apply String.eqb_eq in E0. subst k0.
      destruct (String.eqb k k'); reflexivity.
    + rewrite IH. destruct (String.eqb k k') eqn:E1; [|reflexivity].
      apply String.eqb_eq in E1. subst k'. rewrite E0. reflexivity.
Qed.

Lemma prop_spread (k : string) (v : jsval) : prop k (JObj (spread v)) = prop k v.
Proof. destruct v; reflexivity. Qed.

(** In [{...metadata, previousBalance, newBalance}] the two balances are
    the ones written last. *)
Lemma prop_balances (k : string) (metadata : jsval) (previousBalance newBalance : Z) :
  prop k (JObj (assign (spread metadata)
                  [("previousBalance", JNum previousBalance);
                   ("newBalance", JNum newBalance)]))
  = if String.eqb k "newBalance" then JNum newBalance
    else if String.eqb k "previousBalance" then JNum previousBalance
    else prop k metadata.
Proof.
  rewrite <- (prop_spread k metadata).
  unfold assign. cbn [fold_left fst snd]. unfold prop.
  rewrite !assoc_set_field.
  destruct (String.eqb k "newBalance"); [reflexivity|].
  destruct (String.eqb k "previousBalance"); reflexivity.
Qed.

Lemma after_save_ui (w : World) : ui (after_save w) = ui w.
Proof.
  change (ui (cache_key OfStorage (cache_fingerprint OfStorage (consume_clock w))) = ui w).
  rewrite (co_ui _ _ (save_attempted_caches w)). reflexivity.
Qed.

Lemma after_save_listeners (w : World) :
  balanceChangeListeners (manager (after_save w)) = balanceChangeListeners (manager w).
Proof.
  change (balanceChangeListeners
            (manager (cache_key OfStorage (cache_fingerprint OfStorage (consume_clock w))))
          = balanceChangeListeners (manager w)).
  rewrite (co_listeners _ _ (save_attempted_caches w)). reflexivity.
Qed.

Lemma log_attempted_ui (w : World) : ui (log_attempted w) = ui w.
Proof.
  change (ui (cache_fingerprint OfStorage (consume_clock w)) = ui w).
  rewrite (co_ui _ _ (cache_fingerprint_only OfStorage (consume_clock w))). reflexivity.
Qed.

Lemma log_attempted_listeners (w : World) :
  balanceChangeListeners (manager (log_attempted w)) = balanceChangeListeners (manager w).
Proof.
  change (balanceChangeListeners (manager (cache_fingerprint OfStorage (consume_clock w)))
          = balanceChangeListeners (manager w)).
  rewrite (co_listeners _ _ (cache_fingerprint_only OfStorage (consume_clock w))).
  reflexivity.
Qed.

Lemma log_attempted_io (w : World) : io (env (log_attempted w)) = tl (io (env w)).
Proof.
  change (tl (io (env (cache_fingerprint OfStorage (consume_clock w)))) = tl (io (env w))).
  rewrite (co_env _ _ (cache_fingerprint_only OfStorage (consume_clock w))). reflexivity.
Qed.

Lemma update_disk_manager (f : Database -> Database) (w : World) :
  manager (update_disk f w) = manager w.
Proof. reflexivity. Qed.
Lemma update_disk_ui (f : Database -> Database) (w : World) : ui (update_disk f w) = ui w.
Proof. reflexivity. Qed.
Lemma update_disk_env (f : Database -> Database) (w : World) : env (update_disk f w) = env w.
Proof. reflexivity. Qed.
Lemma update_disk_disk (f : Database -> Database) (w : World) :
  disk (update_disk f w) = f (disk w).
Proof. reflexivity. Qed.
Lemma set_ui_manager (u : list UiEvent) (w : World) : manager (set_ui u w) = manager w.
Proof. reflexivity. Qed.
Lemma set_ui_disk (u : list UiEvent) (w : World) : disk (set_ui u w) = disk w.
Proof. reflexivity. Qed.
Lemma set_ui_env (u : list UiEvent) (w : World) : env (set_ui u w) = env w.
Proof. reflexivity. Qed.

Lemma after_save_transactions (w : World) :
  transactions (disk (after_save w)) = transactions (disk w).
Proof.
  unfold after_save. rewrite update_disk_disk. cbn [transactions set_credits].
  rewrite save_attempted_disk. reflexivity.
Qed.

Lemma after_save_creditSettings (w : World) :
  creditSettings (disk (after_save w)) = creditSettings (disk w).
Proof.
  unfold after_save. rewrite update_disk_disk. cbn [creditSettings set_credits].
  rewrite save_attempted_disk. reflexivity.
Qed.

Lemma after_save_backupCodes (w : World) :
  backupCodes (disk (after_save w)) = backupCodes (disk w).
Proof.
  unfold after_save. rewrite update_disk_disk. cbn [backupCodes set_credits].
  rewrite save_attempted_disk. reflexivity.
Qed.

Lemma after_save_next_tx_id (w : World) :
  next_tx_id (disk (after_save w)) = next_tx_id (disk w).
Proof.
  unfold after_save. cbn [disk update_disk set_disk next_tx_id set_credits].
  rewrite save_attempted_disk. reflexivity.
Qed.

(** The guarded part of [deductCredits] and [addCredits] when the
    database is open and both requests succeed. *)
Lemma guarded_success type amount operation (metadata_of result_for : Z -> jsval)
      (w : World) (rest : list bool) :
  db (storage (manager w)) = true ->
  io (env w) = true :: true :: rest ->
  exists w',
    (CreditManager.saveBalance;;
     let* newBalance := CreditManager.getBalance in
     let* _ := CreditStorage.logTransaction type amount operation (metadata_of newBalance) in
     CreditManager.notifyBalanceChange;;
     let* newBalance := CreditManager.getBalance in
     ret (result_for newBalance)) w
    = (Ok (result_for (currentBalance (manager w))), w') /\
    currentBalance (manager w') = currentBalance (manager w) /\
    persists_balance w' (currentBalance (manager w)) /\
    transactions (disk w')
    = transactions (disk w)
        ++ [logged type amount operation (metadata_of (currentBalance (manager w)))
                   (after_save w)] /\
    next_tx_id (disk w') = next_tx_id (disk w) + 1 /\
    creditSettings (disk w') = creditSettings (disk w) /\
    backupCodes (disk w') = backupCodes (disk w) /\
    ui w' = ui w ++ notifications w /\
    io (env w') = rest.
Proof.
  intros Hdb Hio.
  pose proof (saveBalance_eq w Hdb) as Hsave.
  rewrite Hio in Hsave. simpl hd in Hsave.
  assert (Hdb1 : db (storage (manager (after_save w))) = true)
    by (rewrite after_save_db; exact Hdb).
  assert (Hb1 : currentBalance (manager (after_save w)) = currentBalance (manager w))
    by apply after_save_balance.
  pose proof (logTransaction_eq type amount operation
                (metadata_of (currentBalance (manager (after_save w))))
                (after_save w) Hdb1) as Hlog.
  rewrite after_save_io in Hlog. rewrite Hio in Hlog.
  change (hd true (tl (true :: true :: rest))) with true in Hlog. cbv iota in Hlog.
  rewrite Hb1 in Hlog.
  set (t := logged type amount operation (metadata_of (currentBalance (manager w)))
                   (after_save w)).
  set (w1 := log_attempted (after_save w)) in *.
  set (w2 := update_disk (fun d => set_transactions (transactions d ++ [t])
                                     (next_tx_id (disk (after_save w)) + 1) d) w1).
  assert (Hlog' : CreditStorage.logTransaction type amount operation
                    (metadata_of (currentBalance (manager w))) (after_save w)
                  = (Ok (next_tx_id (disk (after_save w))), w2)) by exact Hlog.
  clear Hlog.
  assert (Hd1 : disk w1 = disk (after_save w)) by apply log_attempted_disk.
  assert (Hb2 : currentBalance (manager w2) = currentBalance (manager w)).
  { unfold w2. rewrite update_disk_manager. unfold w1.
    rewrite log_attempted_balance. exact Hb1. }
  assert (Hl2 : balanceChangeListeners (manager w2) = balanceChangeListeners (manager w)).
  { unfold w2. rewrite update_disk_manager. unfold w1.
    rewrite log_attempted_listeners. apply after_save_listeners. }
  assert (Hu2 : ui w2 = ui w).
  { unfold w2. rewrite update_disk_ui. unfold w1.
    rewrite log_attempted_ui. apply after_save_ui. }
  assert (Hc2 : credits (disk w2) = credits (disk (after_save w))).
  { unfold w2. rewrite update_disk_disk, Hd1. reflexivity. }
  exists (set_ui (ui w2 ++ notifications w2) w2).
  split; [|split; [|split; [|split; [|split; [|split; [|split; [|split]]]]]]].
  - rewrite (bind_ok _ _ _ _ _ Hsave).
    unfold bind at 1. unfold CreditManager.getBalance at 1. unfold gets at 1.
    rewrite Hb1.
    rewrite (bind_ok _ _ _ _ _ Hlog').
    rewrite (bind_ok _ _ _ _ _ (notifyBalanceChange_eq w2)).
    unfold bind, CreditManager.getBalance, gets, ret.
    rewrite set_ui_manager, Hb2. reflexivity.
  - rewrite set_ui_manager. exact Hb2.
  - apply (persists_balance_credits (after_save w)).
    + rewrite set_ui_disk. exact Hc2.
    + apply after_save_persists.
  - rewrite set_ui_disk. unfold w2. rewrite update_disk_disk, Hd1.
    cbn [transactions set_transactions]. rewrite after_save_transactions. reflexivity.
  - rewrite set_ui_disk. unfold w2. rewrite update_disk_disk.
    cbn [next_tx_id set_transactions]. rewrite after_save_next_tx_id. reflexivity.
  - rewrite set_ui_disk. unfold w2. rewrite update_disk_disk, Hd1.
    cbn [creditSettings set_transactions]. apply after_save_creditSettings.
  - rewrite set_ui_disk. unfold w2. rewrite update_disk_disk, Hd1.
    cbn [backupCodes set_transactions]. apply after_save_backupCodes.
  - cbn [ui set_ui]. unfold notifications. rewrite Hb2, Hl2, Hu2. reflexivity.
  - rewrite set_ui_env. unfold w2. rewrite update_disk_env. unfold w1.
    rewrite log_attempted_io, after_save_io, Hio. reflexivity.
Qed.

End Success.

Section Deduction.
Context `{Platform}.

(** X9. With the database open, a balance that covers the cost and both
    requests succeeding, [deductCredits] answers the balances before and
    after, holds the new balance in memory and in the stored record, adds
    to the log one record of type [deduction] with the cost and the
    operation, whose metadata are the caller's except that
    [previousBalance] and [newBalance] are the real ones, and calls each
    listener once, in the order of registration, with the new balance. *)
Theorem deductCredits_success (cost : Z) (operation : string)
        (fields : list (string * jsval)) (w : World) (rest : list bool) :
  db (storage (manager w)) = true ->
  io (env w) = true :: true :: rest ->
  cost <= currentBalance (manager w) ->
  exists w' t,
    CreditManager.deductCredits cost operation (JObj fields) w
    = (Ok (JObj [("success", JBool true);
                 ("previousBalance", JNum (currentBalance (manager w)));
                 ("newBalance", JNum (currentBalance (manager w) - cost));
                 ("deducted", JNum cost)]), w') /\
    currentBalance (manager w') = currentBalance (manager w) - cost /\
    persists_balance w' (currentBalance (manager w) - cost) /\
    transactions (disk w') = transactions (disk w) ++ [t] /\
    tx_id t = next_tx_id (disk w) /\
    tx_type t = "deduction" /\ tx_amount t = cost /\ tx_operation t = operation /\
    (forall k,
        prop k (tx_metadata t)
        = if String.eqb k "newBalance" then JNum (currentBalance (manager w) - cost)
          else if String.eqb k "previousBalance" then JNum (currentBalance (manager w))
          else prop k (JObj fields)) /\
    ui w' = ui w ++ map (fun l => Notified (listener_id l) (currentBalance (manager w) - cost))
                        (balanceChangeListeners (manager w)).
Proof.
  intros Hdb Hio Hle. set (metadata := JObj fields).
  set (b := currentBalance (manager w)).
  set (w0 := update_manager (set_currentBalance (b - cost)) w).
  destruct (guarded_success "deduction" cost operation
              (fun newBalance =>
                 JObj (assign (spread metadata)
                         [("previousBalance", JNum b); ("newBalance", JNum newBalance)]))
              (fun newBalance =>
                 JObj [("success", JBool true); ("previousBalance", JNum b);
                       ("newBalance", JNum newBalance); ("deducted", JNum cost)])
              w0 rest Hdb Hio)
    as (w' & Erun & Hb & Hp & Ht & _ & _ & _ & Hui & _).
  exists w'. eexists.
  split; [|split; [exact Hb|split; [exact Hp|split; [exact Ht|]]]].
  - rewrite deductCredits_eq. fold b.
    destruct (Z.leb_spec cost b); [|lia].
    fold w0. apply try_catch_ok. exact Erun.
  - split; [exact (after_save_next_tx_id w0)|].
    do 3 (split; [reflexivity|]).
    split; [|exact Hui].
    intros k. cbn [tx_metadata logged]. apply prop_balances.
Qed.

Lemma addCredits_success (amount : Z) (source : string) (metadata : jsval)
      (w : World) (rest : list bool) :
  db (storage (manager w)) = true ->
  io (env w) = true :: true :: rest ->
  exists w' t,
    CreditManager.addCredits amount source metadata w
    = (Ok (JObj [("success", JBool true);
                 ("previousBalance", JNum (currentBalance (manager w)));
                 ("newBalance", JNum (currentBalance (manager w) + amount));
                 ("added", JNum amount)]), w') /\
    currentBalance (manager w') = currentBalance (manager w) + amount /\
    persists_balance w' (currentBalance (manager w) + amount) /\
    transactions (disk w') = transactions (disk w) ++ [t] /\
    tx_id t = next_tx_id (disk w) /\
    tx_type t = "purchase" /\ tx_amount t = amount /\ tx_operation t = source /\
    (forall k,
        prop k (tx_metadata t)
        = if String.eqb k "newBalance" then JNum (currentBalance (manager w) + amount)
          else if String.eqb k "previousBalance" then JNum (currentBalance (manager w))
          else prop k metadata) /\
    ui w' = ui w ++ map (fun l => Notified (listener_id l) (currentBalance (manager w) + amount))
                        (balanceChangeListeners (manager w)) /\
    io (env w') = rest.
Proof.
  intros Hdb Hio.
  set (b := currentBalance (manager w)).
  set (w0 := update_manager (set_currentBalance (b + amount)) w).
  destruct (guarded_success "purchase" amount source
              (fun newBalance =>
                 JObj (assign (spread metadata)
                         [("previousBalance", JNum b); ("newBalance", JNum newBalance)]))
              (fun newBalance =>
                 JObj [("success", JBool true); ("previousBalance", JNum b);
                       ("newBalance", JNum newBalance); ("added", JNum amount)])
              w0 rest Hdb Hio)
    as (w' & Erun & Hb & Hp & Ht & _ & _ & _ & Hui & Hio').
  exists w'. eexists.
  split; [|split; [exact Hb|split; [exact Hp|split; [exact Ht|]]]].
  - rewrite addCredits_eq. fold b. fold w0. apply try_catch_ok. exact Erun.
  - split; [exact (after_save_next_tx_id w0)|].
    do 3 (split; [reflexivity|]).
    split; [|split; [exact Hui | exact Hio']].
    intros k. cbn [tx_metadata logged]. apply prop_balances.
Qed.

End Deduction.

Lemma deductCredits_success_witness :
  let w := Model.with_io [true; true] (Model.funded 10) in
  let fields := [("newBalance", JNum 1000000); ("language", JStr "fr")] in
  exists w' t,
    @CreditManager.deductCredits Model.browser 7 "translate" (JObj fields) w
    = (Ok (JObj [("success", JBool true);
                 ("previousBalance", JNum (currentBalance (manager w)));
                 ("newBalance", JNum (currentBalance (manager w) - 7));
                 ("deducted", JNum 7)]), w') /\
    transactions (disk w') = transactions (disk w) ++ [t] /\
    prop "newBalance" (tx_metadata t) = JNum (currentBalance (manager w) - 7) /\
    prop "language" (tx_metadata t) = JStr "fr".
Proof.
  intros w fields.
  destruct (@deductCredits_success Model.browser 7 "translate" fields w [])
    as (w' & t & E & _ & _ & Ht & _ & _ & _ & _ & Hm & _).
  - vm_compute. reflexivity.
  - vm_compute. reflexivity.
  - vm_compute. discriminate.
  - exists w', t. split; [exact E|]. split; [exact Ht|].
    split; [exact (Hm "newBalance") | exact (Hm "language")].
Defined.

Section Reset.
Context `{Platform}.

Lemma save_attempted_balance (w : World) :
  currentBalance (manager (save_attempted w)) = currentBalance (manager w).
Proof.
  change (currentBalance
            (manager (cache_key OfStorage (cache_fingerprint OfStorage (consume_clock w))))
          = currentBalance (manager w)).
  rewrite (co_balance _ _ (save_attempted_caches w)). reflexivity.
Qed.

Lemma save_attempted_ui (w : World) : ui (save_attempted w) = ui w.
Proof.
  change (ui (cache_key OfStorage (cache_fingerprint OfStorage (consume_clock w))) = ui w).
  rewrite (co_ui _ _ (save_attempted_caches w)). reflexivity.
Qed.

(** X10. [resetCredits] has no rollback. When the put of the balance
    record fails it rejects with the new balance in memory and the old
    record in the store; when the put succeeds and the log request fails
    it rejects with the new balance in memory and in the store and no
    record of the reset in the log. In neither case is a listener called. *)
Theorem resetCredits_does_not_roll_back (newBalance : Z) (w : World) (rest : list bool) :
  db (storage (manager w)) = true ->
  (io (env w) = false :: rest ->
   exists w',
     CreditManager.resetCredits newBalance w
     = (Throw (Error "Failed to save credit balance"), w') /\
     currentBalance (manager w') = newBalance /\
     disk w' = disk w /\ ui w' = ui w) /\
  (io (env w) = true :: false :: rest ->
   exists w',
     CreditManager.resetCredits newBalance w
     = (Throw (Error "Failed to log transaction"), w') /\
     currentBalance (manager w') = newBalance /\
     persists_balance w' newBalance /\
     transactions (disk w') = transactions (disk w) /\ ui w' = ui w).
Proof.
  intros Hdb.
  set (w0 := update_manager (set_currentBalance newBalance) w).
  assert (Hdb0 : db (storage (manager w0)) = true) by exact Hdb.
  split; intros Hio.
  - pose proof (saveBalance_eq w0 Hdb0) as Hsave.
    change (io (env w0)) with (io (env w)) in Hsave. rewrite Hio in Hsave.
    simpl hd in Hsave. cbv iota in Hsave.
    exists (save_attempted w0). split; [|split; [|split]].
    + rewrite resetCredits_eq. fold w0. exact (bind_throw _ _ _ _ _ Hsave).
    + exact (save_attempted_balance w0).
    + exact (save_attempted_disk w0).
    + exact (save_attempted_ui w0).
  - pose proof (save_then_log_failure "reset" "admin_reset"
                  (newBalance - currentBalance (manager w))
                  (fun _ => JObj [("previousBalance", JNum (currentBalance (manager w)));
                                  ("newBalance", JNum newBalance)])
                  (CreditManager.notifyBalanceChange;;
                   ret (JObj [("previousBalance", JNum (currentBalance (manager w)));
                              ("newBalance", JNum newBalance)]))
                  w0 rest Hdb0 Hio) as Hrun.
    exists (log_attempted (after_save w0)). split; [|split; [|split; [|split]]].
    + rewrite resetCredits_eq. fold w0.
      rewrite <- Hrun.
      destruct (CreditManager.saveBalance w0) as [[[]|e|] w1] eqn:E;
        [rewrite (bind_ok _ _ _ _ _ E), (bind_ok _ _ _ _ _ E); reflexivity
        | rewrite (bind_throw _ _ _ _ _ E), (bind_throw _ _ _ _ _ E); reflexivity
        | rewrite (bind_pending _ _ _ _ E), (bind_pending _ _ _ _ E); reflexivity].
    + rewrite log_attempted_balance. exact (after_save_balance w0).
    + apply (persists_balance_credits (after_save w0));
        [rewrite log_attempted_disk; reflexivity | exact (after_save_persists w0)].
    + rewrite log_attempted_disk. unfold after_save.
      cbn [disk update_disk set_disk transactions set_credits].
      rewrite save_attempted_disk. reflexivity.
    + rewrite log_attempted_ui. exact (after_save_ui w0).
Qed.

End Reset.

Lemma resetCredits_does_not_roll_back_witness :
  (let w := Model.with_io [false] (Model.funded 10) in
   exists w',
     @CreditManager.resetCredits Model.browser 50 w
     = (Throw (Error "Failed to save credit balance"), w') /\
     currentBalance (manager w') = 50 /\
     disk w' = disk w /\ ui w' = ui w) /\
  (let w := Model.with_io [true; false] (Model.funded 10) in
   exists w',
     @CreditManager.resetCredits Model.browser 50 w
     = (Throw (Error "Failed to log transaction"), w') /\
     currentBalance (manager w') = 50 /\
     @persists_balance Model.browser w' 50 /\
     transactions (disk w') = transactions (disk w) /\ ui w' = ui w).
Proof.
  split; intros w.
  - apply (proj1 (@resetCredits_does_not_roll_back Model.browser 50 w []
                    ltac:(vm_compute; reflexivity))).
    vm_compute. reflexivity.
  - apply (proj2 (@resetCredits_does_not_roll_back Model.browser 50 w []
                    ltac:(vm_compute; reflexivity))).
    vm_compute. reflexivity.
Defined.


(** ** Clearing the data *)

Section Clear.
Context `{Platform}.

Lemma clear_store_eq (storeName : string) (clear : Database -> Database) (w : World) :
  CreditStorage.clear_store storeName clear w =
  if hd true (io (env w))
  then (Ok None, update_disk clear (consume_request w))
  else (Ok (Some (Error ("Failed to clear " +:+ storeName))), consume_request w).
Proof.
  unfold CreditStorage.clear_store.
  rewrite (bind_ok _ _ _ _ _ (idb_request_eq w)).
  destruct (hd true (io (env w))); reflexivity.
Qed.

Lemma storage_clearAllData_eq (w : World) (a1 a2 a3 a4 : bool) (rest : list bool) :
  db (storage (manager w)) = true ->
  io (env w) = a1 :: a2 :: a3 :: a4 :: rest ->
  CreditStorage.clearAllData w =
  (if a1 && a2 && a3 && a4 then Ok tt
   else Throw (Error ("Failed to clear " +:+
                      (if negb a1 then "credits"
                       else if negb a2 then "transactions"
                       else if negb a3 then "creditSettings"
                       else "backupCodes"))),
   set_disk (cleared a1 a2 a3 a4 (disk w)) (update_env (set_io rest) w)).
Proof.
  intros Hdb Hio. unfold CreditStorage.clearAllData.
  rewrite (bind_ok _ _ _ _ _ (getStore_open _ Hdb)).
  unfold bind. rewrite !clear_store_eq.
  destruct w as [m d e u]. destruct e as [dev io0 ck rg cf cl ps].
  cbn [env io] in Hio. subst io0.
  destruct d as [c t n s b].
  destruct a1, a2, a3, a4; reflexivity.
Qed.

(** X11. [clearAllData] clears the four stores one request each, with
    nothing that binds them: a store whose request succeeds is emptied
    whatever happens to the others, and the key generator of the log is
    not reset. When all four succeed the balance in memory becomes 0 and
    each listener is called with 0; when one fails the call rejects, the
    balance in memory stays and no listener is called. *)
Theorem clearAllData_store_by_store (w : World) (a1 a2 a3 a4 : bool) (rest : list bool) :
  db (storage (manager w)) = true ->
  io (env w) = a1 :: a2 :: a3 :: a4 :: rest ->
  let r := CreditManager.clearAllData w in
  disk (world_of r) = cleared a1 a2 a3 a4 (disk w) /\
  if a1 && a2 && a3 && a4
  then result_of r = Ok tt /\
       currentBalance (manager (world_of r)) = 0 /\
       ui (world_of r)
       = ui w ++ map (fun l => Notified (listener_id l) 0) (balanceChangeListeners (manager w))
  else (exists e, result_of r = Throw e) /\
       currentBalance (manager (world_of r)) = currentBalance (manager w) /\
       ui (world_of r) = ui w.
Proof.
  intros Hdb Hio r. subst r. unfold CreditManager.clearAllData.
  pose proof (storage_clearAllData_eq w a1 a2 a3 a4 rest Hdb Hio) as E.
  set (w1 := set_disk (cleared a1 a2 a3 a4 (disk w)) (update_env (set_io rest) w)) in E.
  destruct (a1 && a2 && a3 && a4).
  - rewrite (bind_ok _ _ _ _ _ E).
    unfold CreditManager.assign_balance.
    change (bind (modify ?f) ?k ?x) with (k tt (f x)). cbv beta.
    rewrite notifyBalanceChange_eq. unfold world_of, result_of. cbn [fst snd].
    split; [reflexivity|]. split; [reflexivity|]. split; [reflexivity|].
    reflexivity.
  - rewrite (bind_throw _ _ _ _ _ E). unfold world_of, result_of. cbn [fst snd].
    split; [reflexivity|]. split; [eexists; reflexivity|]. split; reflexivity.
Qed.

End Clear.

Lemma clearAllData_store_by_store_witness :
  let w := Model.with_io [true; false; true; true] (Model.funded 10) in
  let r := CreditManager.clearAllData w in
  disk (world_of r) = cleared true false true true (disk w) /\
  (exists e, result_of r = Throw e) /\
  currentBalance (manager (world_of r)) = currentBalance (manager w) /\
  ui (world_of r) = ui w.
Proof.
  intros w.
  apply (clearAllData_store_by_store w true false true true []);
    vm_compute; reflexivity.
Defined.

(** ** Loading the balance *)

#[local] Existing Instance db_kept_preorder.

Section Load.
Context `{Platform}.

Lemma db_kept_env (w : World) (f : Env -> Env) : db_kept w (update_env f w).
Proof. reflexivity. Qed.
Lemma db_kept_security (w : World) self s : db_kept w (write_security self s w).
Proof. destruct self; reflexivity. Qed.

Lemma getCreditBalance_keeps_db : respects db_kept CreditStorage.getCreditBalance.
Proof.
  pose proof (respects_idb_request db_kept db_kept_env).
  pose proof (respects_initializeCryptoKey db_kept db_kept_security OfStorage).
  pose proof (respects_createIntegrityHash db_kept db_kept_security OfStorage).
  unfold CreditStorage.getCreditBalance, CreditStorage.decrypt_and_verify,
    CreditSecurity.decryptData, CreditSecurity.verifyIntegrity,
    CreditSecurity.decrypt_and_parse.
  frame.
Qed.

(** X12. Whenever the read of the stored balance rejects (the request
    fails, the record does not decrypt, or its integrity check fails),
    [loadBalance] answers as if there were no record: it sets the balance
    in memory to 0 and, when its put succeeds, replaces the stored record
    by one of balance 0. The failure does not reach the caller. *)
Theorem loadBalance_resets_on_failure (w w1 : World) (e : exn) :
  db (storage (manager w)) = true ->
  CreditStorage.getCreditBalance w = (Throw e, w1) ->
  hd true (io (env w1)) = true ->
  exists w',
    CreditManager.loadBalance w = (Ok tt, w') /\
    currentBalance (manager w') = 0 /\
    persists_balance w' 0.
Proof.
  intros Hdb Eread Hio.
  set (w2 := update_manager (set_currentBalance 0) w1).
  assert (Hdb2 : db (storage (manager w2)) = true).
  { pose proof (getCreditBalance_keeps_db w) as K. rewrite Eread in K.
    unfold db_kept, world_of in K. cbn [snd] in K.
    change (db (storage (manager w1)) = true). congruence. }
  pose proof (saveBalance_eq w2 Hdb2) as Hsave.
  change (io (env w2)) with (io (env w1)) in Hsave. rewrite Hio in Hsave.
  exists (after_save w2). split; [|split].
  - unfold CreditManager.loadBalance.
    rewrite (try_catch_throw _ _ _ _ _ (bind_throw _ _ _ _ _ Eread)).
    unfold CreditManager.assign_balance.
    change (bind (modify ?f) ?k ?x) with (k tt (f x)). cbv beta.
    exact Hsave.
  - rewrite after_save_balance. reflexivity.
  - exact (after_save_persists w2).
Qed.

End Load.

Lemma loadBalance_resets_on_failure_witness :
  let w := Model.with_io [false; true] (Model.funded 10) in
  exists w',
    @CreditManager.loadBalance Model.browser w = (Ok tt, w') /\
    currentBalance (manager w') = 0 /\
    @persists_balance Model.browser w' 0.
Proof.
  intros w.
  apply (@loadBalance_resets_on_failure Model.browser w
           (world_of (@CreditStorage.getCreditBalance Model.browser w))
           (Error "Failed to fetch credit balance"));
    vm_compute; reflexivity.
Defined.

(** ** The cache of the fingerprint *)

Section Fingerprint.
Context `{Platform}.

Lemma read_write_security (self : SecurityRef) (s : Security) (w : World) :
  read_security self (write_security self s w) = s.
Proof. destruct self; reflexivity. Qed.

(** X13. Once [generateDeviceFingerprint] has answered a non-empty
    fingerprint, the instance answers the same one from then on, without
    any change of state, whatever the signals of the device have become. *)
Theorem generateDeviceFingerprint_cached (self : SecurityRef) (w w1 w2 : World) (f : string) :
  CreditSecurity.generateDeviceFingerprint self w = (Ok f, w1) ->
  f <> "" ->
  read_security self w2 = read_security self w1 ->
  CreditSecurity.generateDeviceFingerprint self w2 = (Ok f, w2).
Proof.
  rewrite generateDeviceFingerprint_eq. intros E Hf Hsec.
  injection E as Ef Ew.
  assert (Hc : CreditSecurity.cached_fingerprint (read_security self w1) = Some f).
  { subst w1. unfold cache_fingerprint. unfold fingerprint_of in Ef.
    destruct (CreditSecurity.cached_fingerprint (read_security self w)) as [f0|] eqn:Ec.
    - subst f0. exact Ec.
    - rewrite read_write_security, cached_fingerprint_set, Ef.
      destruct (String.eqb f "") eqn:Ee; [|reflexivity].
      apply String.eqb_eq in Ee. contradiction. }
  rewrite generateDeviceFingerprint_eq.
  unfold fingerprint_of, cache_fingerprint. rewrite Hsec, Hc. reflexivity.
Qed.

End Fingerprint.

Lemma generateDeviceFingerprint_cached_witness :
  let r := @CreditSecurity.generateDeviceFingerprint Model.browser OfManager Model.fresh in
  let moved := update_env (fun e =>
                 {| device := {| screen_width := 800; screen_height := 600;
                                 screen_colorDepth := 8; timeZone := "UTC";
                                 language := "en"; platform := "other";
                                 userAgent := "other"; canvasDataURL := None |};
                    io := io e; clock := clock e; rng := rng e; confirms := confirms e;
                    calls := calls e; persist := persist e |}) (world_of r) in
  @CreditSecurity.generateDeviceFingerprint Model.browser OfManager moved
  = (Ok "a697b407", moved).
Proof.
  intros r moved.
  apply (@generateDeviceFingerprint_cached Model.browser OfManager Model.fresh
           (world_of r) moved "a697b407").
  - vm_compute. reflexivity.
  - discriminate.
  - reflexivity.
Defined.

Section ExportData.
Context `{Platform}.

Lemma never_rejects_bind {A B} (m : M A) (k : A -> M B) :
  never_rejects m -> (forall a, never_rejects (k a)) -> never_rejects (bind m k).
Proof.
  intros Hm Hk w e. specialize (Hm w). unfold bind.
  destruct (m w) as [[a|e'|] w1]; [apply Hk | exfalso; exact (Hm e' eq_refl) | discriminate].
Qed.

Lemma never_rejects_caught {A} (m : M A) (fallback : A) :
  never_rejects (try_catch m (fun _ => ret fallback)).
Proof.
  intros w e. unfold try_catch. destruct (m w) as [[a|e'|] w1]; discriminate.
Qed.

(** X14. [exportCreditData] never rejects: each of its three reads is
    caught. On a storage whose database was not opened it never settles,
    because the read of the balance never does; [exportData] of the
    manager is the same computation. *)
Theorem exportCreditData_never_rejects (w : World) :
  (forall e, result_of (CreditStorage.exportCreditData w) <> Throw e) /\
  (db (storage (manager w)) = false ->
   CreditStorage.exportCreditData w = (Pending, w) /\
   CreditManager.exportData w = (Pending, w)).
Proof.
  split.
  - revert w. change (never_rejects CreditStorage.exportCreditData).
    unfold CreditStorage.exportCreditData.
    apply never_rejects_bind; [apply never_rejects_caught|]. intros balance.
    apply never_rejects_bind; [apply never_rejects_caught|]. intros transactions.
    apply never_rejects_bind; [apply never_rejects_caught|]. intros settings.
    apply never_rejects_bind; [intros w e; discriminate|]. intros exportDate.
    intros w e. discriminate.
  - intros Hdb.
    assert (E : CreditStorage.getCreditBalance w = (Pending, w)).
    { unfold CreditStorage.getCreditBalance, bind, gets. rewrite Hdb. reflexivity. }
    assert (E' : CreditStorage.exportCreditData w = (Pending, w)).
    { unfold CreditStorage.exportCreditData.
      exact (bind_pending _ _ _ _ (try_catch_pending _ _ _ _ E)). }
    split; [exact E' | exact E'].
Qed.

End ExportData.

Lemma exportCreditData_never_rejects_witness :
  @CreditStorage.exportCreditData Model.browser Model.fresh = (Pending, Model.fresh) /\
  @CreditManager.exportData Model.browser Model.fresh = (Pending, Model.fresh).
Proof.
  apply (proj2 (@exportCreditData_never_rejects Model.browser Model.fresh)).
  reflexivity.
Defined.

Section Listeners.

Lemma same_listener_eq (a b : Listener) : CreditManager.same_listener a b = true <-> a = b.
Proof.
  destruct a as [x], b as [y]. unfold CreditManager.same_listener. cbn [listener_id].
  rewrite Nat.eqb_eq. split; [intros ->; reflexivity | intros E; injection E; auto].
Qed.

Lemma indexOf_absent (callback : Listener) (listeners : list Listener) :
  ~ In callback listeners -> CreditManager.indexOf callback listeners = -1.
Proof.
  induction listeners as [|l rest IH]; intros Hn; [reflexivity|].
  cbn [CreditManager.indexOf].
  destruct (CreditManager.same_listener l callback) eqn:E.
  - apply same_listener_eq in E. subst. exfalso. apply Hn. left. reflexivity.
  - rewrite IH by (intros Hin; apply Hn; right; exact Hin). reflexivity.
Qed.

Lemma indexOf_first (callback : Listener) (before after : list Listener) :
  ~ In callback before ->
  CreditManager.indexOf callback (before ++ callback :: after) = Z.of_nat (length before).
Proof.
  induction before as [|l rest IH]; intros Hn; cbn [app CreditManager.indexOf length].
  - rewrite (proj2 (same_listener_eq callback callback) eq_refl). reflexivity.
  - destruct (CreditManager.same_listener l callback) eqn:E.
    + apply same_listener_eq in E. subst. exfalso. apply Hn. left. reflexivity.
    + rewrite IH by (intros Hin; apply Hn; right; exact Hin).
      destruct (Z.ltb_spec (Z.of_nat (length rest)) 0); lia.
Qed.

Lemma splice1_middle (before after : list Listener) (callback : Listener) :
  CreditManager.splice1 (length before) (before ++ callback :: after) = before ++ after.
Proof.
  unfold CreditManager.splice1.
  rewrite firstn_app, firstn_all, Nat.sub_diag. cbn [firstn]. rewrite app_nil_r.
  f_equal. induction before as [|l rest IH]; [reflexivity | exact IH].
Qed.

(** X15. [removeBalanceChangeListener] removes the first registration of
    the callback and no other one, leaves the list alone when the callback
    is not registered, and undoes an [onBalanceChange] of a callback that
    was not registered before. *)
Theorem removeBalanceChangeListener_first (callback : Listener) (w : World) :
  (~ In callback (balanceChangeListeners (manager w)) ->
   CreditManager.removeBalanceChangeListener callback w = (Ok tt, w)) /\
  (forall before after,
      balanceChangeListeners (manager w) = before ++ callback :: after ->
      ~ In callback before ->
      CreditManager.removeBalanceChangeListener callback w
      = (Ok tt, update_manager (set_listeners (before ++ after)) w)) /\
  (~ In callback (balanceChangeListeners (manager w)) ->
   balanceChangeListeners
     (manager (world_of ((CreditManager.onBalanceChange callback;;
                          CreditManager.removeBalanceChangeListener callback) w)))
   = balanceChangeListeners (manager w)).
Proof.
  assert (Hfirst : forall w0 before after,
             balanceChangeListeners (manager w0) = before ++ callback :: after ->
             ~ In callback before ->
             CreditManager.removeBalanceChangeListener callback w0
             = (Ok tt, update_manager (set_listeners (before ++ after)) w0)).
  { intros w0 before after Hl Hn. unfold CreditManager.removeBalanceChangeListener.
    unfold bind, gets. rewrite Hl, (indexOf_first _ _ _ Hn).
    destruct (Z.ltb_spec (-1) (Z.of_nat (length before))); [|lia].
    rewrite Nat2Z.id, splice1_middle. reflexivity. }
  split; [|split].
  - intros Hn. unfold CreditManager.removeBalanceChangeListener.
    unfold bind, gets. rewrite (indexOf_absent _ _ Hn). reflexivity.
  - exact (Hfirst w).
  - intros Hn. unfold CreditManager.onBalanceChange.
    change (bind (modify ?f) ?k ?x) with (k tt (f x)). cbv beta.
    rewrite (Hfirst _ (balanceChangeListeners (manager w)) []); [| reflexivity | exact Hn].
    cbn. rewrite app_nil_r. reflexivity.
Qed.

End Listeners.

Lemma removeBalanceChangeListener_first_witness :
  let a := {| listener_id := 1 |} in
  let b := {| listener_id := 2 |} in
  let w := update_manager (set_listeners [a; b; a]) Model.ready in
  CreditManager.removeBalanceChangeListener a w
  = (Ok tt, update_manager (set_listeners ([] ++ [b; a])) w).
Proof.
  intros a b w.
  apply (proj1 (proj2 (removeBalanceChangeListener_first a w)) [] [b; a]).
  - reflexivity.
  - intros [].
Defined.

(** ** What the manager leaves of the scripts, and what it throws *)

#[local] Instance scripts_kept_preorder : PreOrder scripts_kept.
Proof.
  split; [intros w; reflexivity|].
  intros a b c H1 H2. unfold scripts_kept in *. congruence.
Qed.

Ltac scripts :=
  frame;
  try match goal with
      | |- respects scripts_kept (modify _) =>
          simple apply respects_modify;
          match goal with
          | |- PreOrder _ => typeclasses eauto
          | |- _ =>
              intros ?;
              first [ hnf; reflexivity
                    | match goal with self : SecurityRef |- _ => destruct self; reflexivity end ]
          end
      end.

Section Scripts.
Context `{Platform}.

Lemma idb_request_keeps_scripts : respects scripts_kept idb_request.
Proof. intros w. reflexivity. Qed.
Lemma Date_now_keeps_scripts : respects scripts_kept Date_now.
Proof. intros w. reflexivity. Qed.
Lemma random_word_keeps_scripts : respects scripts_kept random_word.
Proof. intros w. reflexivity. Qed.

Lemma getRandomValues_keeps_scripts wrap n : respects scripts_kept (getRandomValues wrap n).
Proof.
  pose proof random_word_keeps_scripts.
  induction n; cbn [getRandomValues]; scripts.
Qed.

Lemma generateDeviceFingerprint_keeps_scripts self :
  respects scripts_kept (CreditSecurity.generateDeviceFingerprint self).
Proof. unfold CreditSecurity.generateDeviceFingerprint. repeat scripts. Qed.

Lemma initializeCryptoKey_keeps_scripts self :
  respects scripts_kept (CreditSecurity.initializeCryptoKey self).
Proof.
  pose proof (generateDeviceFingerprint_keeps_scripts self).
  unfold CreditSecurity.initializeCryptoKey. repeat scripts.
Qed.

Lemma saveBalance_keeps_scripts : respects scripts_kept CreditManager.saveBalance.
Proof.
  pose proof idb_request_keeps_scripts. pose proof Date_now_keeps_scripts.
  pose proof (getRandomValues_keeps_scripts wrap8 12).
  pose proof (generateDeviceFingerprint_keeps_scripts OfStorage).
  pose proof (initializeCryptoKey_keeps_scripts OfStorage).
  unfold CreditManager.saveBalance, CreditManager.getBalance,
    CreditStorage.saveCreditBalance, CreditSecurity.createIntegrityHash,
    CreditSecurity.encryptData, CreditStorage.getStore.
  repeat scripts.
Qed.

Lemma logTransaction_keeps_scripts type amount operation metadata :
  respects scripts_kept (CreditStorage.logTransaction type amount operation metadata).
Proof.
  pose proof idb_request_keeps_scripts. pose proof Date_now_keeps_scripts.
  pose proof (generateDeviceFingerprint_keeps_scripts OfStorage).
  unfold CreditStorage.logTransaction, CreditStorage.getStore.
  repeat scripts.
Qed.

Lemma deductCredits_keeps_scripts cost operation metadata :
  respects scripts_kept (CreditManager.deductCredits cost operation metadata).
Proof.
  pose proof saveBalance_keeps_scripts. pose proof logTransaction_keeps_scripts.
  unfold CreditManager.deductCredits, CreditManager.hasSufficientCredits,
    CreditManager.assign_balance, CreditManager.rethrow_with,
    CreditManager.notifyBalanceChange, CreditManager.getBalance.
  repeat scripts.
Qed.

End Scripts.

Section Errors.
Context `{Platform}.

Lemma throws_errors_ret {A} (a : A) : throws_errors (ret a).
Proof. intros w w'. discriminate. Qed.
Lemma throws_errors_gets {A} (f : World -> A) : throws_errors (gets f).
Proof. intros w w'. discriminate. Qed.
Lemma throws_errors_modify (f : World -> World) : throws_errors (modify f).
Proof. intros w w'. discriminate. Qed.
Lemma throws_errors_throw {A} (name m : string) : throws_errors (@throw A (Exn name m)).
Proof. intros w w'. discriminate. Qed.
Lemma throws_errors_get (k : string) (v : jsval) : throws_errors (lift (get k v)).
Proof. intros w w'. destruct v; discriminate. Qed.
Lemma throws_errors_idb_request : throws_errors idb_request.
Proof. intros w w'. discriminate. Qed.
Lemma throws_errors_Date_now : throws_errors Date_now.
Proof. intros w w'. discriminate. Qed.
Lemma throws_errors_random_word : throws_errors random_word.
Proof. intros w w'. discriminate. Qed.

Lemma throws_errors_bind {A B} (m : M A) (k : A -> M B) :
  throws_errors m -> (forall a, throws_errors (k a)) -> throws_errors (bind m k).
Proof.
  intros Hm Hk w w'. unfold bind. specialize (Hm w).
  destruct (m w) as [[a|e|] w1]; [apply Hk | | discriminate].
  intros E. injection E as -> ->. exact (Hm w' eq_refl).
Qed.

Lemma throws_errors_try_catch {A} (m : M A) (h : exn -> M A) :
  throws_errors m -> (forall name msg, throws_errors (h (Exn name msg))) ->
  throws_errors (try_catch m h).
Proof.
  intros Hm Hh w w'. unfold try_catch. specialize (Hm w).
  destruct (m w) as [[a|[name msg|]|] w1]; [discriminate | apply Hh | | discriminate].
  exfalso. exact (Hm w1 eq_refl).
Qed.

Lemma throws_errors_for_each {A} (f : A -> M unit) (xs : list A) :
  (forall x, throws_errors (f x)) -> throws_errors (for_each f xs).
Proof.
  intros Hf. induction xs as [|x rest IH]; [apply throws_errors_ret|].
  apply throws_errors_bind; [apply Hf | intros _; exact IH].
Qed.

End Errors.

Ltac errors_step :=
  first
    [ match goal with |- forall _, _ => intros ? end
    | match goal with H : _ |- throws_errors _ => simple apply H end
    | simple apply @throws_errors_ret | simple apply @throws_errors_throw
    | simple apply @throws_errors_gets | simple apply @throws_errors_modify
    | simple apply throws_errors_get
    | simple apply throws_errors_idb_request | simple apply throws_errors_Date_now
    | simple apply throws_errors_random_word
    | simple apply @throws_errors_bind
    | simple apply @throws_errors_try_catch
    | simple apply @throws_errors_for_each
    | match goal with
      | |- throws_errors (if ?b then _ else _) => destruct b
      | |- throws_errors (match ?x with _ => _ end) => destruct x
      end ].
Ltac errors := repeat errors_step.

Section CreditErrors.
Context `{Platform}.

Lemma getRandomValues_throws_errors wrap n : throws_errors (getRandomValues wrap n).
Proof. induction n; cbn [getRandomValues]; errors. Qed.

Lemma generateDeviceFingerprint_throws_errors self :
  throws_errors (CreditSecurity.generateDeviceFingerprint self).
Proof. unfold CreditSecurity.generateDeviceFingerprint. errors. Qed.

Lemma initializeCryptoKey_throws_errors self :
  throws_errors (CreditSecurity.initializeCryptoKey self).
Proof.
  pose proof (generateDeviceFingerprint_throws_errors self).
  unfold CreditSecurity.initializeCryptoKey. errors.
Qed.

Lemma saveBalance_throws_errors : throws_errors CreditManager.saveBalance.
Proof.
  pose proof (getRandomValues_throws_errors wrap8 12).
  pose proof (generateDeviceFingerprint_throws_errors OfStorage).
  pose proof (initializeCryptoKey_throws_errors OfStorage).
  unfold CreditManager.saveBalance, CreditStorage.saveCreditBalance,
    CreditSecurity.createIntegrityHash, CreditSecurity.encryptData, CreditStorage.getStore,
    CreditManager.getBalance, Error.
  errors.
Qed.

Lemma logTransaction_throws_errors type amount operation metadata :
  throws_errors (CreditStorage.logTransaction type amount operation metadata).
Proof.
  pose proof (generateDeviceFingerprint_throws_errors OfStorage).
  unfold CreditStorage.logTransaction, CreditStorage.getStore, Error.
  errors.
Qed.

(** Whatever [deductCredits] throws is an error whose message names the
    credits. *)
Lemma deductCredits_throws_credit_error cost operation metadata (w w' : World) (e : exn) :
  CreditManager.deductCredits cost operation metadata w = (Throw e, w') ->
  exists m, e = Error m /\ CreditIntegration.is_credit_error m = true.
Proof.
  rewrite deductCredits_eq.
  destruct (cost <=? currentBalance (manager w)).
  - unfold try_catch.
    match goal with |- context [?body ?x] =>
      match body with
      | bind CreditManager.saveBalance _ =>
          assert (Hb : throws_errors body);
          [ pose proof saveBalance_throws_errors;
            pose proof logTransaction_throws_errors;
            unfold CreditManager.notifyBalanceChange, CreditManager.getBalance; errors
          | specialize (Hb x); destruct (body x) as [[v|[name msg|]|] w1] ]
      end
    end.
    + discriminate.
    + unfold CreditManager.assign_balance.
      change (bind (modify ?f) ?k ?x) with (k tt (f x)). cbv beta.
      unfold CreditManager.rethrow_with, message, throw. intros E. injection E as <- _.
      eexists. split; [reflexivity|].
      unfold CreditIntegration.is_credit_error. apply orb_true_iff. left.
      apply includes_spec. exists "Failed to deduct ", (": " +:+ msg). reflexivity.
    + exfalso. exact (Hb w1 eq_refl).
    + discriminate.
  - intros E. injection E as <- _. eexists. split; [reflexivity|].
    unfold CreditIntegration.is_credit_error. apply orb_true_iff. left.
    apply includes_spec.
    exists "Insufficient ",
      (". Required: " +:+ show cost +:+ ", Available: " +:+ show (currentBalance (manager w))).
    reflexivity.
Qed.

End CreditErrors.

(** ** The paths of a wrapped call *)

Section Wrapper.
Context `{Platform}.

Lemma getCost_unknown (operation : string) :
  (forall cost, CreditManager.getCost operation <> Ok cost) ->
  CreditManager.getCost operation = Throw (Error ("Unknown operation: " +:+ operation)).
Proof.
  unfold CreditManager.getCost. intros Hn.
  destruct (String.eqb operation "polish"); [exfalso; exact (Hn _ eq_refl)|].
  destruct (String.eqb operation "translate"); [exfalso; exact (Hn _ eq_refl)|].
  destruct (String.eqb operation "complete"); [exfalso; exact (Hn _ eq_refl)|].
  reflexivity.
Qed.

(** X16. A function wrapped under an operation that [getCost] does not
    know is not metered at all: when the name of the operation does not
    make the message of [getCost] a credit error, every call runs the
    function at once, without a check of the balance, a confirmation or a
    deduction, and settles as the function does. *)
Theorem wrapFunction_unknown_operation (operation : string) (metadata : jsval) (args : Z)
        (w : World) :
  (forall cost, CreditManager.getCost operation <> Ok cost) ->
  CreditIntegration.is_credit_error ("Unknown operation: " +:+ operation) = false ->
  CreditIntegration.wrapFunction operation metadata args w
  = (hd (Ok JUndefined) (calls (env w)), consume_call w).
Proof.
  intros Hn Hc. unfold CreditIntegration.wrapFunction.
  rewrite (getCost_unknown _ Hn).
  unfold try_catch at 1. unfold bind at 1, lift at 1.
  unfold message, Error. rewrite Hc.
  rewrite try_catch_rethrow. apply originalFunction_eq.
Qed.

Lemma insufficient_is_credit_error (what after : string) :
  CreditIntegration.is_credit_error ("Insufficient credits for " +:+ what +:+ after) = true.
Proof.
  unfold CreditIntegration.is_credit_error. apply orb_true_iff. left.
  apply includes_spec. exists "Insufficient ", (" for " +:+ what +:+ after). reflexivity.
Qed.

(** The wrapped call once the cost is known: the check of the balance. *)
Lemma wrapFunction_cost (operation : string) (metadata : jsval) (args cost : Z) (w : World) :
  CreditManager.getCost operation = Ok cost ->
  CreditIntegration.wrapFunction operation metadata args w =
  try_catch
    (if negb (cost <=? currentBalance (manager w))
     then
       CreditUI.showPurchaseModal;;
       let* balance := CreditManager.getBalance in
       throw (Error ("Insufficient credits for " +:+ operation +:+ ". Need "
                       +:+ show cost +:+ " credits, have " +:+ show balance +:+ "."))
     else
       let* confirmed := CreditUI.getCostPreview operation in
       if negb confirmed then ret JNull
       else
         let* result := CreditIntegration.originalFunction in
         (if negb (CreditIntegration.is_nullish result)
          then
            let* timestamp := Date_now in
            let* _ := CreditManager.deductCredits cost operation
                        (JObj (assign (spread metadata)
                                 [("timestamp", JNum timestamp);
                                  ("args", JNum args);
                                  ("success", JBool true)])) in
            ret tt
          else ret tt);;
         ret result)
    (fun error =>
       match message error with
       | inr type_error => throw type_error
       | inl m =>
           if CreditIntegration.is_credit_error m then throw error
           else try_catch CreditIntegration.originalFunction
                          (fun originalError => throw originalError)
       end) w.
Proof.
  intros Hcost. unfold CreditIntegration.wrapFunction. rewrite Hcost.
  unfold try_catch. unfold bind at 1, lift at 1.
  rewrite (bind_ok _ _ _ _ _ (hasSufficientCredits_eq cost w)). reflexivity.
Qed.

(** X17. The wrapper checks before it runs the function. When the
    balance does not cover the cost it shows the purchase modal and
    rejects; when the user declines the preview it answers [null]. In both
    cases the function is not invoked and the manager and the database are
    as they were. *)
Theorem wrapFunction_checks_first (operation : string) (metadata : jsval) (args cost : Z)
        (w : World) :
  CreditManager.getCost operation = Ok cost ->
  (currentBalance (manager w) < cost ->
   CreditIntegration.wrapFunction operation metadata args w
   = (Throw (Error ("Insufficient credits for " +:+ operation +:+ ". Need "
                      +:+ show cost +:+ " credits, have "
                      +:+ show (currentBalance (manager w)) +:+ ".")),
      set_ui (ui w ++ [PurchaseModalShown]) w)) /\
  (cost <= currentBalance (manager w) ->
   hd (Ok false) (confirms (env w)) = Ok false ->
   CreditIntegration.wrapFunction operation metadata args w = (Ok JNull, consume_confirm w)).
Proof.
  intros Hcost. split.
  - intros Hlt. rewrite (wrapFunction_cost _ _ _ _ _ Hcost).
    destruct (Z.leb_spec cost (currentBalance (manager w))); [lia|]. cbn [negb].
    unfold try_catch, CreditUI.showPurchaseModal.
    change (bind (modify ?f) ?k ?x) with (k tt (f x)). cbv beta.
    unfold bind, CreditManager.getBalance, gets, throw.
    unfold message, Error. rewrite insufficient_is_credit_error. reflexivity.
  - intros Hle Hconfirm. rewrite (wrapFunction_cost _ _ _ _ _ Hcost).
    destruct (Z.leb_spec cost (currentBalance (manager w))); [|lia]. cbn [negb].
    apply try_catch_ok.
    assert (E : CreditUI.getCostPreview operation w = (Ok false, consume_confirm w))
      by (rewrite getCostPreview_eq, Hconfirm; reflexivity).
    rewrite (bind_ok _ _ _ _ _ E). reflexivity.
Qed.

End Wrapper.

Lemma wrapFunction_unknown_operation_witness :
  let w := Model.with_calls [Ok (JStr "summary")] Model.ready in
  @CreditIntegration.wrapFunction Model.browser "summarize" (JObj []) 1 w
  = (hd (Ok JUndefined) (calls (env w)), consume_call w).
Proof.
  intros w. apply (@wrapFunction_unknown_operation Model.browser "summarize" (JObj []) 1 w).
  - intros cost. vm_compute. discriminate.
  - vm_compute. reflexivity.
Defined.

Lemma wrapFunction_checks_first_witness :
  (let w := Model.funded 3 in
   @CreditIntegration.wrapFunction Model.browser "translate" (JObj []) 1 w
   = (Throw (Error ("Insufficient credits for " +:+ "translate" +:+ ". Need "
                      +:+ show 7 +:+ " credits, have "
                      +:+ show (currentBalance (manager w)) +:+ ".")),
      set_ui (ui w ++ [PurchaseModalShown]) w)) /\
  (let w := Model.with_confirms [Ok false] (Model.funded 10) in
   @CreditIntegration.wrapFunction Model.browser "translate" (JObj []) 1 w
   = (Ok JNull, consume_confirm w)).
Proof.
  split; intros w.
  - apply (proj1 (@wrapFunction_checks_first Model.browser "translate" (JObj []) 1 7 w
                    eq_refl)).
    vm_compute. reflexivity.
  - apply (proj2 (@wrapFunction_checks_first Model.browser "translate" (JObj []) 1 7 w
                    eq_refl)).
    + vm_compute. discriminate.
    + vm_compute. reflexivity.
Defined.
Section Charge.
Context `{Platform}.

(** A deduction that the balance covers, on an open database whose next
    two requests succeed. *)
Lemma deductCredits_ok (cost : Z) (operation : string) (metadata : jsval)
      (w : World) (rest : list bool) :
  db (storage (manager w)) = true ->
  io (env w) = true :: true :: rest ->
  cost <= currentBalance (manager w) ->
  exists r w' t,
    CreditManager.deductCredits cost operation metadata w = (Ok r, w') /\
    currentBalance (manager w') = currentBalance (manager w) - cost /\
    persists_balance w' (currentBalance (manager w) - cost) /\
    transactions (disk w') = transactions (disk w) ++ [t] /\
    tx_type t = "deduction" /\ tx_amount t = cost /\ tx_operation t = operation /\
    scripts_kept w w'.
Proof.
  intros Hdb Hio Hle.
  set (b := currentBalance (manager w)).
  set (w0 := update_manager (set_currentBalance (b - cost)) w).
  destruct (guarded_success "deduction" cost operation
              (fun newBalance =>
                 JObj (assign (spread metadata)
                         [("previousBalance", JNum b); ("newBalance", JNum newBalance)]))
              (fun newBalance =>
                 JObj [("success", JBool true); ("previousBalance", JNum b);
                       ("newBalance", JNum newBalance); ("deducted", JNum cost)])
              w0 rest Hdb Hio)
    as (w' & Erun & Hb & Hp & Ht & _).
  assert (E : CreditManager.deductCredits cost operation metadata w
              = (Ok (JObj [("success", JBool true); ("previousBalance", JNum b);
                           ("newBalance", JNum (currentBalance (manager w0)));
                           ("deducted", JNum cost)]), w')).
  { rewrite deductCredits_eq. fold b.
    destruct (Z.leb_spec cost b); [|lia].
    fold w0. apply try_catch_ok. exact Erun. }
  eexists. exists w'. eexists.
  split; [exact E|]. split; [exact Hb|]. split; [exact Hp|]. split; [exact Ht|].
  do 3 (split; [reflexivity|]).
  pose proof (deductCredits_keeps_scripts cost operation metadata w) as K.
  rewrite E in K. exact K.
Qed.

Lemma confirm_and_call (operation : string) (declined : jsval) (k : jsval -> M jsval)
      (w : World) (r : outcome jsval) :
  hd (Ok false) (confirms (env w)) = Ok true ->
  hd (Ok JUndefined) (calls (env w)) = r ->
  (let* confirmed := CreditUI.getCostPreview operation in
   if negb confirmed then ret declined
   else let* result := CreditIntegration.originalFunction in k result) w
  = bind (lift r) k (consume_call (consume_confirm w)).
Proof.
  intros Hconfirm Hcall.
  assert (E : CreditUI.getCostPreview operation w = (Ok true, consume_confirm w))
    by (rewrite getCostPreview_eq, Hconfirm; reflexivity).
  rewrite (bind_ok _ _ _ _ _ E). cbn [negb].
  unfold bind at 1. rewrite originalFunction_eq.
  change (calls (env (consume_confirm w))) with (calls (env w)). rewrite Hcall.
  unfold bind, lift. reflexivity.
Qed.

(** X18. When the balance covers the cost, the user confirms and the
    function answers [v]: if [v] is [null] or [undefined] the wrapper
    answers it and deducts nothing; otherwise, on an open database whose
    two requests succeed, it answers [v] with the balance lowered by the
    cost in memory and in the stored record, one [deduction] record for
    the operation added to the log, and the function invoked once. *)
Theorem wrapFunction_charges_success (operation : string) (metadata : jsval)
        (args cost : Z) (w : World) (v : jsval) (later : list (outcome jsval)) :
  CreditManager.getCost operation = Ok cost ->
  cost <= currentBalance (manager w) ->
  hd (Ok false) (confirms (env w)) = Ok true ->
  calls (env w) = Ok v :: later ->
  (CreditIntegration.is_nullish v = true ->
   CreditIntegration.wrapFunction operation metadata args w
   = (Ok v, consume_call (consume_confirm w))) /\
  (CreditIntegration.is_nullish v = false ->
   db (storage (manager w)) = true ->
   (exists rest, io (env w) = true :: true :: rest) ->
   exists w' t,
     CreditIntegration.wrapFunction operation metadata args w = (Ok v, w') /\
     currentBalance (manager w') = currentBalance (manager w) - cost /\
     persists_balance w' (currentBalance (manager w) - cost) /\
     transactions (disk w') = transactions (disk w) ++ [t] /\
     tx_type t = "deduction" /\ tx_amount t = cost /\ tx_operation t = operation /\
     calls (env w') = later).
Proof.
  intros Hcost Hle Hconfirm Hcalls.
  assert (Hcall : hd (Ok JUndefined) (calls (env w)) = Ok v) by (rewrite Hcalls; reflexivity).
  split.
  - intros Hnull. rewrite (wrapFunction_cost _ _ _ _ _ Hcost).
    destruct (Z.leb_spec cost (currentBalance (manager w))); [|lia]. cbn [negb].
    apply try_catch_ok.
    rewrite (confirm_and_call _ _ _ _ _ Hconfirm Hcall).
    unfold bind at 1, lift at 1. rewrite Hnull. reflexivity.
  - intros Hnull Hdb [rest Hio].
    set (w3 := consume_clock (consume_call (consume_confirm w))).
    destruct (deductCredits_ok cost operation
                (JObj (assign (spread metadata)
                         [("timestamp", JNum (hd 0 (clock (env w))));
                          ("args", JNum args); ("success", JBool true)]))
                w3 rest Hdb Hio Hle)
      as (r & w' & t & E & Hb & Hp & Ht & H1 & H2 & H3 & Hs).
    exists w', t.
    split; [|split; [exact Hb|split; [exact Hp|split; [exact Ht|]]]].
    + rewrite (wrapFunction_cost _ _ _ _ _ Hcost).
      destruct (Z.leb_spec cost (currentBalance (manager w))); [|lia]. cbn [negb].
      apply try_catch_ok.
      rewrite (confirm_and_call _ _ _ _ _ Hconfirm Hcall).
      unfold bind at 1, lift at 1. rewrite Hnull. cbn [negb].
      assert (Einner :
                (let* timestamp := Date_now in
                 let* _ := CreditManager.deductCredits cost operation
                             (JObj (assign (spread metadata)
                                      [("timestamp", JNum timestamp);
                                       ("args", JNum args);
                                       ("success", JBool true)])) in
                 ret tt) (consume_call (consume_confirm w)) = (Ok tt, w')).
      { rewrite (bind_ok _ _ _ _ _ (Date_now_eq (consume_call (consume_confirm w)))).
        change (hd 0 (clock (env (consume_call (consume_confirm w)))))
          with (hd 0 (clock (env w))).
        fold w3. rewrite (bind_ok _ _ _ _ _ E). reflexivity. }
      rewrite (bind_ok _ _ _ _ _ Einner). reflexivity.
    + do 3 (split; [assumption|]).
      unfold scripts_kept in Hs. injection Hs as Hc _. rewrite Hc.
      change (calls (env w3)) with (tl (calls (env w))). rewrite Hcalls. reflexivity.
Qed.

End Charge.

Lemma wrapFunction_charges_success_witness :
  let w := Model.with_io [true; true]
             (Model.with_confirms [Ok true]
                (Model.with_calls [Ok (JStr "bonjour")] (Model.funded 10))) in
  exists w' t,
    @CreditIntegration.wrapFunction Model.browser "translate" (JObj []) 1 w
    = (Ok (JStr "bonjour"), w') /\
    currentBalance (manager w') = currentBalance (manager w) - 7 /\
    @persists_balance Model.browser w' (currentBalance (manager w) - 7) /\
    transactions (disk w') = transactions (disk w) ++ [t] /\
    tx_type t = "deduction" /\ tx_amount t = 7 /\ tx_operation t = "translate" /\
    calls (env w') = [].
Proof.
  intros w.
  apply (proj2 (@wrapFunction_charges_success Model.browser "translate" (JObj []) 1 7 w
                  (JStr "bonjour") [] eq_refl
                  ltac:(vm_compute; discriminate)
                  ltac:(vm_compute; reflexivity)
                  ltac:(vm_compute; reflexivity))).
  - reflexivity.
  - vm_compute. reflexivity.
  - exists []. vm_compute. reflexivity.
Defined.
Section Once.
Context `{Platform}.

(** The [catch] block of the wrapper invokes the function at most once. *)
Lemma wrapper_catch_calls (error : exn) (w : World) :
  let w' := world_of
              (match message error with
               | inr type_error => throw type_error
               | inl m =>
                   if CreditIntegration.is_credit_error m then throw error
                   else try_catch CreditIntegration.originalFunction
                                  (fun originalError => throw originalError)
               end w) in
  calls (env w') = calls (env w) \/ calls (env w') = tl (calls (env w)).
Proof.
  cbv zeta. destruct (message error) as [m|type_error]; [|left; reflexivity].
  destruct (CreditIntegration.is_credit_error m); [left; reflexivity|].
  rewrite try_catch_rethrow, originalFunction_eq. right. reflexivity.
Qed.

(** X19. The wrapper never runs the function again after an invocation
    that succeeded: in every world in which the next invocation of the
    function succeeds, a wrapped call invokes it at most once, whatever
    the storage does to the deduction that follows. *)
Theorem wrapFunction_never_repeats_success (operation : string) (metadata : jsval)
        (args : Z) (w : World) (v : jsval) :
  hd (Ok JUndefined) (calls (env w)) = Ok v ->
  let w' := world_of (CreditIntegration.wrapFunction operation metadata args w) in
  calls (env w') = calls (env w) \/ calls (env w') = tl (calls (env w)).
Proof.
  intros Hcall. cbv zeta.
  set (P := fun w' : World =>
              calls (env w') = calls (env w) \/ calls (env w') = tl (calls (env w))).
  change (P (world_of (CreditIntegration.wrapFunction operation metadata args w))).
  assert (Hcatch : forall error w0,
             calls (env w0) = calls (env w) ->
             P (world_of
                  (match message error with
                   | inr type_error => throw type_error
                   | inl m =>
                       if CreditIntegration.is_credit_error m then throw error
                       else try_catch CreditIntegration.originalFunction
                                      (fun originalError => throw originalError)
                   end w0))).
  { intros error w0 Hw0. unfold P. rewrite <- Hw0. exact (wrapper_catch_calls error w0). }
  destruct (CreditManager.getCost operation) as [cost|e|] eqn:Hcost.
  - rewrite (wrapFunction_cost _ _ _ _ _ Hcost).
    destruct (cost <=? currentBalance (manager w)); cbn [negb].
    + (* the balance covers the cost *)
      unfold try_catch at 1. unfold bind at 1. rewrite getCostPreview_eq.
      destruct (hd (Ok false) (confirms (env w))) as [[|]|e|].
      * (* confirmed *)
        cbn [negb]. unfold bind at 1. rewrite originalFunction_eq.
        change (calls (env (consume_confirm w))) with (calls (env w)). rewrite Hcall.
        destruct (CreditIntegration.is_nullish v); cbn [negb].
        -- right. reflexivity.
        -- unfold bind at 1. unfold bind at 1. rewrite Date_now_eq.
           set (w3 := consume_clock (consume_call (consume_confirm w))).
           set (md := JObj _).
           pose proof (deductCredits_keeps_scripts cost operation md w3) as K.
           unfold scripts_kept, world_of in K.
           destruct (CreditManager.deductCredits cost operation md w3) as [[r|e|] w4] eqn:E;
             cbn [snd] in K; injection K as Kc _.
           ++ rewrite (bind_ok _ _ _ _ _ E). unfold ret. cbv beta iota.
              right. exact Kc.
           ++ rewrite (bind_throw _ _ _ _ _ E). cbv beta iota.
              destruct (deductCredits_throws_credit_error _ _ _ _ _ _ E) as (m & -> & Hm).
              unfold message, Error. rewrite Hm.
              right. exact Kc.
           ++ rewrite (bind_pending _ _ _ _ E). cbv beta iota.
              right. exact Kc.
      * left. reflexivity.
      * apply Hcatch. reflexivity.
      * left. reflexivity.
    + (* the balance does not cover the cost *)
      unfold try_catch, CreditUI.showPurchaseModal.
      change (bind (modify ?f) ?k ?x) with (k tt (f x)). cbv beta.
      unfold bind, CreditManager.getBalance, gets, throw.
      unfold message, Error. rewrite insufficient_is_credit_error. left. reflexivity.
  - unfold CreditIntegration.wrapFunction. rewrite Hcost.
    unfold try_catch at 1. unfold bind at 1, lift at 1.
    apply Hcatch. reflexivity.
  - unfold CreditIntegration.wrapFunction. rewrite Hcost. left. reflexivity.
Qed.

End Once.

Lemma wrapFunction_never_repeats_success_witness :
  let w := Model.with_io [true; false]
             (Model.with_confirms [Ok true]
                (Model.with_calls [Ok (JStr "bonjour"); Ok (JStr "again")]
                   (Model.funded 10))) in
  let w' := world_of (@CreditIntegration.wrapFunction Model.browser "translate"
                        (JObj []) 1 w) in
  calls (env w') = calls (env w) \/ calls (env w') = tl (calls (env w)).
Proof.
  intros w.
  apply (@wrapFunction_never_repeats_success Model.browser "translate" (JObj []) 1 w
           (JStr "bonjour")).
  reflexivity.
Defined.
Section Button.
Context `{Platform}.

(** The handler of the button once the balance is known to cover the
    cost of a translation. *)
Lemma button_cost (language : string) (w : World) :
  CreditIntegration.createCreditAwareTranslationButton language w =
  (if negb (CREDIT_COSTS.TRANSLATE <=? currentBalance (manager w))
   then CreditUI.showPurchaseModal;; ret JUndefined
   else
     let* confirmed := CreditUI.getCostPreview "translate" in
     if negb confirmed then ret JUndefined
     else
       let* result := CreditIntegration.originalOnClick in
       (if negb (CreditIntegration.is_false result)
        then
          let* timestamp := Date_now in
          let* _ := CreditManager.deductCredits CREDIT_COSTS.TRANSLATE "translate"
                      (JObj [("language", JStr language);
                             ("type", JStr "individual_translation");
                             ("timestamp", JNum timestamp)]) in
          ret tt
        else ret tt);;
       ret result) w.
Proof.
  unfold CreditIntegration.createCreditAwareTranslationButton.
  rewrite try_catch_rethrow.
  change (CreditManager.getCost "translate") with (Ok CREDIT_COSTS.TRANSLATE).
  unfold bind at 1, lift at 1.
  rewrite (bind_ok _ _ _ _ _ (hasSufficientCredits_eq CREDIT_COSTS.TRANSLATE w)).
  reflexivity.
Qed.

(** X20. The handler of a credit-aware translation button, when the
    balance covers a translation and the user confirms: a failure of the
    original handler reaches the caller as it is, with no second
    invocation and no deduction; an answer [false] is passed on without a
    deduction; any other answer, [undefined] included, is charged. *)
Theorem translation_button_outcomes (language : string) (w : World)
        (later : list (outcome jsval)) :
  CREDIT_COSTS.TRANSLATE <= currentBalance (manager w) ->
  hd (Ok false) (confirms (env w)) = Ok true ->
  (forall e,
      calls (env w) = Throw e :: later ->
      CreditIntegration.createCreditAwareTranslationButton language w
      = (Throw e, consume_call (consume_confirm w))) /\
  (calls (env w) = Ok (JBool false) :: later ->
   CreditIntegration.createCreditAwareTranslationButton language w
   = (Ok (JBool false), consume_call (consume_confirm w))) /\
  (forall v,
      calls (env w) = Ok v :: later ->
      CreditIntegration.is_false v = false ->
      db (storage (manager w)) = true ->
      (exists rest, io (env w) = true :: true :: rest) ->
      exists w' t,
        CreditIntegration.createCreditAwareTranslationButton language w = (Ok v, w') /\
        currentBalance (manager w') = currentBalance (manager w) - CREDIT_COSTS.TRANSLATE /\
        transactions (disk w') = transactions (disk w) ++ [t] /\
        tx_type t = "deduction" /\ tx_amount t = CREDIT_COSTS.TRANSLATE /\
        calls (env w') = later).
Proof.
  intros Hle Hconfirm.
  assert (Hstart : forall r,
             hd (Ok JUndefined) (calls (env w)) = r ->
             CreditIntegration.createCreditAwareTranslationButton language w
             = bind (lift r)
                 (fun result =>
                    (if negb (CreditIntegration.is_false result)
                     then
                       let* timestamp := Date_now in
                       let* _ := CreditManager.deductCredits CREDIT_COSTS.TRANSLATE "translate"
                                   (JObj [("language", JStr language);
                                          ("type", JStr "individual_translation");
                                          ("timestamp", JNum timestamp)]) in
                       ret tt
                     else ret tt);;
                    ret result)
                 (consume_call (consume_confirm w))).
  { intros r Hr. rewrite button_cost.
    destruct (Z.leb_spec CREDIT_COSTS.TRANSLATE (currentBalance (manager w))); [|lia].
    cbn [negb]. unfold CreditIntegration.originalOnClick.
    exact (confirm_and_call _ _ _ _ _ Hconfirm Hr). }
  split; [|split].
  - intros e Hcalls. rewrite (Hstart (Throw e)) by (rewrite Hcalls; reflexivity).
    reflexivity.
  - intros Hcalls. rewrite (Hstart (Ok (JBool false))) by (rewrite Hcalls; reflexivity).
    reflexivity.
  - intros v Hcalls Hv Hdb [rest Hio].
    set (w3 := consume_clock (consume_call (consume_confirm w))).
    destruct (deductCredits_ok CREDIT_COSTS.TRANSLATE "translate"
                (JObj [("language", JStr language);
                       ("type", JStr "individual_translation");
                       ("timestamp", JNum (hd 0 (clock (env w))))])
                w3 rest Hdb Hio Hle)
      as (r & w' & t & E & Hb & _ & Ht & H1 & H2 & _ & Hs).
    exists w', t. split; [|split; [exact Hb|split; [exact Ht|split; [exact H1|split;
                                                                     [exact H2|]]]]].
    + rewrite (Hstart (Ok v)) by (rewrite Hcalls; reflexivity).
      unfold bind at 1, lift at 1. rewrite Hv. cbn [negb].
      assert (Einner :
                (let* timestamp := Date_now in
                 let* _ := CreditManager.deductCredits CREDIT_COSTS.TRANSLATE "translate"
                             (JObj [("language", JStr language);
                                    ("type", JStr "individual_translation");
                                    ("timestamp", JNum timestamp)]) in
                 ret tt) (consume_call (consume_confirm w)) = (Ok tt, w')).
      { rewrite (bind_ok _ _ _ _ _ (Date_now_eq (consume_call (consume_confirm w)))).
        change (hd 0 (clock (env (consume_call (consume_confirm w)))))
          with (hd 0 (clock (env w))).
        fold w3. rewrite (bind_ok _ _ _ _ _ E). reflexivity. }
      rewrite (bind_ok _ _ _ _ _ Einner). reflexivity.
    + unfold scripts_kept in Hs. injection Hs as Hc _. rewrite Hc.
      change (calls (env w3)) with (tl (calls (env w))). rewrite Hcalls. reflexivity.
Qed.

End Button.

Lemma translation_button_outcomes_witness :
  (let w := Model.with_confirms [Ok true]
              (Model.with_calls [Throw (Error "network down"); Ok (JStr "bonjour")]
                 (Model.funded 10)) in
   @CreditIntegration.createCreditAwareTranslationButton Model.browser "fr" w
   = (Throw (Error "network down"), consume_call (consume_confirm w))) /\
  (let w := Model.with_io [true; true]
              (Model.with_confirms [Ok true]
                 (Model.with_calls [Ok JUndefined] (Model.funded 10))) in
   exists w' t,
     @CreditIntegration.createCreditAwareTranslationButton Model.browser "fr" w
     = (Ok JUndefined, w') /\
     currentBalance (manager w') = currentBalance (manager w) - CREDIT_COSTS.TRANSLATE /\
     transactions (disk w') = transactions (disk w) ++ [t] /\
     tx_type t = "deduction" /\ tx_amount t = CREDIT_COSTS.TRANSLATE /\
     calls (env w') = []).
Proof.
  split; intros w.
  - apply (proj1 (@translation_button_outcomes Model.browser "fr" w
                    [Ok (JStr "bonjour")]
                    ltac:(vm_compute; discriminate) ltac:(vm_compute; reflexivity))).
    vm_compute. reflexivity.
  - apply (proj2 (proj2 (@translation_button_outcomes Model.browser "fr" w []
                           ltac:(vm_compute; discriminate)
                           ltac:(vm_compute; reflexivity)))).
    + vm_compute. reflexivity.
    + reflexivity.
    + vm_compute. reflexivity.
    + exists []. vm_compute. reflexivity.
Defined.

Section Complete.
Context `{Platform}.

(** X21. The wrapper of the complete workflow is the generic wrapper for
    the operation [complete] with the metadata of the workflow, whenever
    the balance covers the cost; when it does not, it shows the purchase
    modal and rejects with its own message, and the function is not
    invoked. *)
Theorem wrapCompleteWorkflowFunction_as_wrapFunction (args : Z) (w : World) :
  (CREDIT_COSTS.COMPLETE <= currentBalance (manager w) ->
   CreditIntegration.wrapCompleteWorkflowFunction args w
   = CreditIntegration.wrapFunction "complete"
       (JObj [("type", JStr "complete_workflow"); ("source", JStr "voice_to_translation")])
       args w) /\
  (currentBalance (manager w) < CREDIT_COSTS.COMPLETE ->
   CreditIntegration.wrapCompleteWorkflowFunction args w
   = (Throw (Error ("Insufficient credits for complete workflow. Need "
                      +:+ show CREDIT_COSTS.COMPLETE +:+ " credits, have "
                      +:+ show (currentBalance (manager w)) +:+ ".")),
      set_ui (ui w ++ [PurchaseModalShown]) w)).
Proof.
  split.
  - intros Hle.
    rewrite (wrapFunction_cost "complete" _ args CREDIT_COSTS.COMPLETE w eq_refl).
    unfold CreditIntegration.wrapCompleteWorkflowFunction.
    change (CreditManager.getCost "complete") with (Ok CREDIT_COSTS.COMPLETE).
    unfold try_catch. unfold bind at 1, lift at 1.
    rewrite (bind_ok _ _ _ _ _ (hasSufficientCredits_eq CREDIT_COSTS.COMPLETE w)).
    destruct (Z.leb_spec CREDIT_COSTS.COMPLETE (currentBalance (manager w))); [|lia].
    reflexivity.
  - intros Hlt. unfold CreditIntegration.wrapCompleteWorkflowFunction.
    change (CreditManager.getCost "complete") with (Ok CREDIT_COSTS.COMPLETE).
    unfold try_catch. unfold bind at 1, lift at 1.
    rewrite (bind_ok _ _ _ _ _ (hasSufficientCredits_eq CREDIT_COSTS.COMPLETE w)).
    destruct (Z.leb_spec CREDIT_COSTS.COMPLETE (currentBalance (manager w))); [lia|].
    cbn [negb]. unfold CreditUI.showPurchaseModal.
    change (bind (modify ?f) ?k ?x) with (k tt (f x)). cbv beta.
    unfold bind, CreditManager.getBalance, gets, throw.
    unfold message, Error.
    assert (Hc : CreditIntegration.is_credit_error
                   ("Insufficient credits for complete workflow. Need "
                      +:+ show CREDIT_COSTS.COMPLETE +:+ " credits, have "
                      +:+ show (currentBalance (manager w)) +:+ ".") = true)
      by exact (insufficient_is_credit_error "complete workflow"
                  (". Need " +:+ show CREDIT_COSTS.COMPLETE +:+ " credits, have "
                     +:+ show (currentBalance (manager w)) +:+ ".")).
    change (manager (set_ui (ui w ++ [PurchaseModalShown]) w)) with (manager w).
    rewrite Hc. reflexivity.
Qed.

End Complete.

Lemma wrapCompleteWorkflowFunction_as_wrapFunction_witness :
  let w := Model.with_confirms [Ok true]
             (Model.with_calls [Ok (JStr "done")] (Model.funded 10)) in
  @CreditIntegration.wrapCompleteWorkflowFunction Model.browser 2 w
  = @CreditIntegration.wrapFunction Model.browser "complete"
      (JObj [("type", JStr "complete_workflow"); ("source", JStr "voice_to_translation")])
      2 w.
Proof.
  intros w.
  apply (proj1 (@wrapCompleteWorkflowFunction_as_wrapFunction Model.browser 2 w)).
  vm_compute. discriminate.
Defined.
